(** * wg-knot: the relay engine of a WireGuard UDP relay

    A shallow embedding of the peer manager of wg-knot (the second half of
    [packet_sender.go]: [PeerManager] and its methods) together with the
    properties of its packet classifier, MAC1 authenticator, peer
    association table and expiration sweep.

    Modelling conventions.
    - A Go [map] is a [gmap]; [[N]byte] arrays and [[]byte] slices are
      [list byte].
    - [*Peer] is a location into an explicit store ([heap]); the two
      indices of the association table hold locations, so that sharing of
      one [Peer] between them is visible.  [&Peer{...}] allocates at
      [next_loc].  No pointer stored by the program is [nil].
    - [time.Now()] is an argument ([now]) of the operation that reads the
      clock; the [context.Context] argument is kept and is constant during
      one call.
    - The order in which [range] visits a Go map is unspecified; where it
      matters (the MAC1 scan returns at the first match) the order is an
      argument ([order]), required to enumerate the keys of the map.
    - The mutex and the logger have no effect on the values computed and
      are left out; a call runs to its end without interleaving with the
      calls of other workers.
    - BLAKE2s (golang.org/x/crypto/blake2s), [net.UDPAddr] and the
      [PacketSender] behind the socket are outside the repository: they are
      taken as parameters.

    The other components follow the peer manager: the buffer pool and the
    worker pool, on a model of buffered channels in which every channel
    operation is one atomic step and a panic is [None]; the logger; and the
    loading of the configuration and of the public keys, with the base64
    decoder, the parsers of [strconv], [time] and [strings], the
    environment, the flags and the TOML decoder as parameters. *)

From Stdlib Require Import Strings.Byte ZArith Lia.
From stdpp Require Import gmap strings list fin_maps.

Local Open Scope Z_scope.

(** ** Bytes as map keys *)

#[global] Instance byte_eq_dec : EqDecision byte := Byte.byte_eq_dec.
#[global] Instance byte_countable : Countable byte :=
  inj_countable Byte.to_N Byte.of_N Byte.of_to_N.

(** [type PublicKey [32]byte], [Mac1Key [32]byte], [SenderID [4]byte] and
    [ReceiverID [4]byte] are all [list byte]; the conversion
    [ReceiverID(senderID)] is the identity. *)

(** [p[i:j]] for [i <= j <= len(p)]. *)
Definition slice (p : list byte) (i j : nat) : list byte :=
  take (j - i) (drop i p).

(** ** External collaborators *)

(** golang.org/x/crypto/blake2s.  [blake2s_Sum256 d] is the digest of an
    unkeyed BLAKE2s-256 hash ([blake2s.New256(nil)]) after writing [d];
    [blake2s_MAC128 k d] is the digest of [blake2s.New128(k)] after writing
    [d]. *)
Class Blake2s := {
  blake2s_Sum256 : list byte -> list byte;
  blake2s_MAC128 : list byte -> list byte -> list byte
}.

(** [*net.UDPAddr] with its [String] method. *)
Class Net := {
  UDPAddr : Type;
  UDPAddr_nil : UDPAddr;
  UDPAddr_String : UDPAddr -> string
}.

(** ** errors.go *)

Inductive ContextError := Canceled | DeadlineExceeded.

Inductive Error :=
| ErrInvalidPacket (details : string)
| ErrAuthenticationFailed (details : string)
| ErrPeerNotFound (details : string)
| ErrInvalidPublicKey (details : string)
| ErrPacketSendFailed (cause : string)
| ErrContext (e : ContextError)
| ErrInvalidPeerExpiration (expire : Z).

Definition NewInvalidPacketError (details : string) : Error :=
  ErrInvalidPacket details.
Definition NewAuthenticationFailedError (details : string) : Error :=
  ErrAuthenticationFailed details.
Definition NewPeerNotFoundError (details : string) : Error :=
  ErrPeerNotFound details.
Definition NewInvalidPublicKeyError (details : string) : Error :=
  ErrInvalidPublicKey details.
Definition NewPacketSendFailedError (err : string) : Error :=
  ErrPacketSendFailed err.

(** [errors.Is(err, ErrInvalidPacket)] and [errors.Is(err, ErrAuthenticationFailed)]. *)
Definition is_InvalidPacket (e : option Error) : bool :=
  match e with Some (ErrInvalidPacket _) => true | _ => false end.
Definition is_AuthenticationFailed (e : option Error) : bool :=
  match e with Some (ErrAuthenticationFailed _) => true | _ => false end.
Definition is_PeerNotFound (e : option Error) : bool :=
  match e with Some (ErrPeerNotFound _) => true | _ => false end.

(** [context.Context]: only [ctx.Err()] is used; it is [nil],
    [context.Canceled] or [context.DeadlineExceeded]. *)
Record Context := { ctx_Err : option ContextError }.
Definition Background : Context := {| ctx_Err := None |}.

(** ** Time *)

(** [time.Time] as nanoseconds on one clock, [time.Duration] as an [int64]
    count of nanoseconds; [t.Sub(u)] saturates at the ends of [int64]. *)
Definition minDuration : Z := - 2 ^ 63.
Definition maxDuration : Z := 2 ^ 63 - 1.
Definition time_Sub (t u : Z) : Z :=
  Z.max minDuration (Z.min maxDuration (t - u)).

(** [fmt.Sprintf("%x", id)] for a byte array. *)
Definition hex_digit (n : N) : string :=
  String.substring (N.to_nat n) 1 "0123456789abcdef".
Definition hex_byte (b : byte) : string :=
  hex_digit (N.div (Byte.to_N b) 16) +:+ hex_digit (N.modulo (Byte.to_N b) 16).
Definition hex (bs : list byte) : string :=
  foldr (fun b s => hex_byte b +:+ s) EmptyString bs.

Section Relay.
Context `{Blake2s} `{Net}.

(** ** Data model *)

Definition loc := nat.

Record Peer := { Addr : UDPAddr; Timestamp : Z }.

Record PublicKeyPair := { PublicKey1 : list byte; PublicKey2 : list byte }.

(** One call of [SendPacket]: destination and payload. *)
Definition Datagram : Type := UDPAddr * list byte.

(** [type PacketSender interface].  [SendPacket s calls to payload] is the
    error returned by the call [SendPacket(to, payload)] made after the
    earlier calls [calls]; [None] is [nil]. *)
Record PacketSender := {
  SendPacket : list Datagram -> UDPAddr -> list byte -> option string
}.

(** [type PeerManager struct], with the store of [Peer] cells ([heap],
    [next_loc]) and the calls made on [packetSender] so far ([sent]). *)
Record PeerManager := {
  packetSender : PacketSender;
  ReceiverToPeerMap : gmap (list byte) loc;
  PublicKeyToPeersMap : gmap (list byte) (list loc);
  PublicKeyToMac1KeyMap : gmap (list byte) (list byte);
  PublicKeyToPairPublicKeysMap : gmap (list byte) (list (list byte));
  peerExpiration : Z;
  heap : loc -> Peer;
  next_loc : loc;
  sent : list Datagram
}.

Definition set_ReceiverToPeerMap (m : gmap (list byte) loc) (pm : PeerManager) :=
  {| packetSender := packetSender pm;
     ReceiverToPeerMap := m;
     PublicKeyToPeersMap := PublicKeyToPeersMap pm;
     PublicKeyToMac1KeyMap := PublicKeyToMac1KeyMap pm;
     PublicKeyToPairPublicKeysMap := PublicKeyToPairPublicKeysMap pm;
     peerExpiration := peerExpiration pm;
     heap := heap pm; next_loc := next_loc pm; sent := sent pm |}.

Definition set_PublicKeyToPeersMap (m : gmap (list byte) (list loc)) (pm : PeerManager) :=
  {| packetSender := packetSender pm;
     ReceiverToPeerMap := ReceiverToPeerMap pm;
     PublicKeyToPeersMap := m;
     PublicKeyToMac1KeyMap := PublicKeyToMac1KeyMap pm;
     PublicKeyToPairPublicKeysMap := PublicKeyToPairPublicKeysMap pm;
     peerExpiration := peerExpiration pm;
     heap := heap pm; next_loc := next_loc pm; sent := sent pm |}.

Definition set_PublicKeyToMac1KeyMap (m : gmap (list byte) (list byte)) (pm : PeerManager) :=
  {| packetSender := packetSender pm;
     ReceiverToPeerMap := ReceiverToPeerMap pm;
     PublicKeyToPeersMap := PublicKeyToPeersMap pm;
     PublicKeyToMac1KeyMap := m;
     PublicKeyToPairPublicKeysMap := PublicKeyToPairPublicKeysMap pm;
     peerExpiration := peerExpiration pm;
     heap := heap pm; next_loc := next_loc pm; sent := sent pm |}.

Definition set_PublicKeyToPairPublicKeysMap (m : gmap (list byte) (list (list byte)))
    (pm : PeerManager) :=
  {| packetSender := packetSender pm;
     ReceiverToPeerMap := ReceiverToPeerMap pm;
     PublicKeyToPeersMap := PublicKeyToPeersMap pm;
     PublicKeyToMac1KeyMap := PublicKeyToMac1KeyMap pm;
     PublicKeyToPairPublicKeysMap := m;
     peerExpiration := peerExpiration pm;
     heap := heap pm; next_loc := next_loc pm; sent := sent pm |}.

(** [&Peer{...}]: a fresh cell at [next_loc]. *)
Definition alloc_Peer (p : Peer) (pm : PeerManager) : loc * PeerManager :=
  (next_loc pm,
   {| packetSender := packetSender pm;
      ReceiverToPeerMap := ReceiverToPeerMap pm;
      PublicKeyToPeersMap := PublicKeyToPeersMap pm;
      PublicKeyToMac1KeyMap := PublicKeyToMac1KeyMap pm;
      PublicKeyToPairPublicKeysMap := PublicKeyToPairPublicKeysMap pm;
      peerExpiration := peerExpiration pm;
      heap := fun l => if Nat.eqb l (next_loc pm) then p else heap pm l;
      next_loc := S (next_loc pm);
      sent := sent pm |}).

(** A call [packetSender.SendPacket(to, payload)]: the call is recorded and
    its error returned. *)
Definition call_SendPacket (to : UDPAddr) (payload : list byte) (pm : PeerManager)
    : option string * PeerManager :=
  (SendPacket (packetSender pm) (sent pm) to payload,
   {| packetSender := packetSender pm;
      ReceiverToPeerMap := ReceiverToPeerMap pm;
      PublicKeyToPeersMap := PublicKeyToPeersMap pm;
      PublicKeyToMac1KeyMap := PublicKeyToMac1KeyMap pm;
      PublicKeyToPairPublicKeysMap := PublicKeyToPairPublicKeysMap pm;
      peerExpiration := peerExpiration pm;
      heap := heap pm; next_loc := next_loc pm;
      sent := sent pm ++ [(to, payload)] |}).

(** ** Operations *)

Definition WGLabelMAC1 : list byte := String.list_byte_of_string "mac1----".

(** [CalculateMac1Key].  [blake2s.New256(nil)] does not fail (it fails only
    on a key longer than 32 bytes), so the error result is always [nil]
    and is left out. *)
Definition CalculateMac1Key (publicKey : list byte) : list byte :=
  blake2s_Sum256 (WGLabelMAC1 ++ publicKey).

(** [AppendUniqueValue]: [m[key]] of an absent key is the empty slice; the
    loop returns at the first element [equal] to [value]. *)
Definition AppendUniqueValue {T} `{Countable T} {V : Type}
    (m : gmap T (list V)) (key : T) (value : V) (equal : V -> V -> bool)
    : gmap T (list V) :=
  if existsb (fun v => equal v value) (default [] (m !! key))
  then m
  else <[key := default [] (m !! key) ++ [value]]> m.

Definition AddPublicKeyPair (ctx : Context) (publicKey1 publicKey2 : list byte)
    (pm : PeerManager) : (bool * option Error) * PeerManager :=
  match ctx_Err ctx with
  | Some e => ((false, Some (ErrContext e)), pm)
  | None =>
    let mac1Key1 := CalculateMac1Key publicKey1 in
    let mac1Key2 := CalculateMac1Key publicKey2 in
    let pm := set_PublicKeyToMac1KeyMap
                (<[publicKey2 := mac1Key2]>
                   (<[publicKey1 := mac1Key1]> (PublicKeyToMac1KeyMap pm))) pm in
    let isEqual := fun a b : list byte => bool_decide (a = b) in
    let pm := set_PublicKeyToPairPublicKeysMap
                (AppendUniqueValue (PublicKeyToPairPublicKeysMap pm)
                   publicKey1 publicKey2 isEqual) pm in
    let pm := set_PublicKeyToPairPublicKeysMap
                (AppendUniqueValue (PublicKeyToPairPublicKeysMap pm)
                   publicKey2 publicKey1 isEqual) pm in
    ((true, None), pm)
  end.

(** [NewPeerManager]: errors of [AddPublicKeyPair] are logged and dropped. *)
Definition NewPeerManager (sender : PacketSender) (publicKeyPairList : list PublicKeyPair)
    (expiration : Z) : PeerManager :=
  foldl (fun pm publicKeyPair =>
           snd (AddPublicKeyPair Background (PublicKey1 publicKeyPair)
                  (PublicKey2 publicKeyPair) pm))
    {| packetSender := sender;
       ReceiverToPeerMap := ∅;
       PublicKeyToPeersMap := ∅;
       PublicKeyToMac1KeyMap := ∅;
       PublicKeyToPairPublicKeysMap := ∅;
       peerExpiration := expiration;
       heap := fun _ => {| Addr := UDPAddr_nil; Timestamp := 0 |};
       next_loc := O;
       sent := [] |}
    publicKeyPairList.

(** The comparison [hmac.Equal(mac1[:], payload[startMac1Pos:startMac2Pos])]
    of one iteration of the MAC1 scan. *)
Definition mac1_equal (mac1Key : list byte) (payload : list byte) : bool :=
  let size := length payload in
  let startMac2Pos := (size - 16)%nat in
  let startMac1Pos := (startMac2Pos - 16)%nat in
  bool_decide (blake2s_MAC128 mac1Key (take startMac1Pos payload)
               = slice payload startMac1Pos startMac2Pos).

(** The loop of [CheckMAC1AndGetPublicKey] over the keys in the order
    [order]. *)
Fixpoint mac1_scan (order : list (list byte)) (m : gmap (list byte) (list byte))
    (payload : list byte) : Error + list byte :=
  match order with
  | [] => inl (NewAuthenticationFailedError "mac1 verification failed")
  | publicKey :: rest =>
    match m !! publicKey with
    | Some mac1Key =>
      if mac1_equal mac1Key payload then inr publicKey
      else mac1_scan rest m payload
    | None => mac1_scan rest m payload
    end
  end.

(** [CheckMAC1AndGetPublicKey].  Its callers pass payloads of 148 or 92
    bytes, for which the slice bounds are in range.  [blake2s.New128] fails
    only on a key longer than 32 bytes and [mac1Key[:]] has 32: that error
    is not modelled. *)
Definition CheckMAC1AndGetPublicKey (ctx : Context) (order : list (list byte))
    (payload : list byte) (pm : PeerManager) : Error + list byte :=
  match ctx_Err ctx with
  | Some e => inl (ErrContext e)
  | None => mac1_scan order (PublicKeyToMac1KeyMap pm) payload
  end.

(** The closure [isEqual] of [AddPeerByPublicKey]; the pointers compared are
    never [nil]. *)
Definition peer_isEqual (h : loc -> Peer) (a b : loc) : bool :=
  bool_decide (UDPAddr_String (Addr (h a)) = UDPAddr_String (Addr (h b))).

Definition AddPeerByPublicKey (ctx : Context) (now : Z) (addr : UDPAddr)
    (senderID : list byte) (receiverPublicKey : list byte) (pm : PeerManager)
    : option Error * PeerManager :=
  match ctx_Err ctx with
  | Some e => (Some (ErrContext e), pm)
  | None =>
    match ReceiverToPeerMap pm !! senderID with
    | Some peer =>
      (None, set_ReceiverToPeerMap (<[senderID := peer]> (ReceiverToPeerMap pm)) pm)
    | None =>
      match PublicKeyToPairPublicKeysMap pm !! receiverPublicKey with
      | None => (Some (NewPeerNotFoundError "paired public key not found"), pm)
      | Some publicKey =>
        let '(peer, pm) := alloc_Peer {| Addr := addr; Timestamp := now |} pm in
        let pm :=
          match publicKey with
          | [publicKey0] =>
            set_PublicKeyToPeersMap
              (AppendUniqueValue (PublicKeyToPeersMap pm) publicKey0 peer
                 (peer_isEqual (heap pm))) pm
          | _ => pm
          end in
        (None, set_ReceiverToPeerMap (<[senderID := peer]> (ReceiverToPeerMap pm)) pm)
      end
    end
  end.

Definition AddPeerBySenderID (ctx : Context) (now : Z) (addr : UDPAddr)
    (senderID : list byte) (publicKey : list byte) (pm : PeerManager)
    : option Error * PeerManager :=
  match ctx_Err ctx with
  | Some e => (Some (ErrContext e), pm)
  | None =>
    match ReceiverToPeerMap pm !! senderID with
    | Some _ => (None, pm)
    | None =>
      let '(peer, pm) := alloc_Peer {| Addr := addr; Timestamp := now |} pm in
      (None, set_ReceiverToPeerMap (<[senderID := peer]> (ReceiverToPeerMap pm)) pm)
    end
  end.

Definition GetPublicKeyToPeers (ctx : Context) (publicKey : list byte) (pm : PeerManager)
    : list loc * bool * option Error :=
  match ctx_Err ctx with
  | Some e => ([], false, Some (ErrContext e))
  | None =>
    match PublicKeyToPeersMap pm !! publicKey with
    | Some peers => (peers, true, None)
    | None => ([], false, None)
    end
  end.

Definition ForwardPacket (ctx : Context) (to : UDPAddr) (payload : list byte)
    (pm : PeerManager) : option Error * PeerManager :=
  match ctx_Err ctx with
  | Some e => (Some (ErrContext e), pm)
  | None =>
    match call_SendPacket to payload pm with
    | (Some err, pm) => (Some (NewPacketSendFailedError err), pm)
    | (None, pm) => (None, pm)
    end
  end.

Definition ForwardPacketToReceiver (ctx : Context) (receiverID : list byte)
    (payload : list byte) (pm : PeerManager) : option Error * PeerManager :=
  match ctx_Err ctx with
  | Some e => (Some (ErrContext e), pm)
  | None =>
    match ReceiverToPeerMap pm !! receiverID with
    | None =>
      (Some (NewPeerNotFoundError ("no peer found for receiver ID: " +:+ hex receiverID)), pm)
    | Some peer => ForwardPacket ctx (Addr (heap pm peer)) payload pm
    end
  end.

(** The loop [for _, peer := range peers] of [HandleType1Packet]. *)
Fixpoint forward_to_peers (ctx : Context) (peers : list loc) (payload : list byte)
    (pm : PeerManager) : option Error * PeerManager :=
  match peers with
  | [] => (None, pm)
  | peer :: rest =>
    match ForwardPacket ctx (Addr (heap pm peer)) payload pm with
    | (Some err, pm) => (Some err, pm)
    | (None, pm) => forward_to_peers ctx rest payload pm
    end
  end.

Definition HandleType1Packet (ctx : Context) (now : Z) (addr : UDPAddr)
    (senderID : list byte) (publicKey : list byte) (payload : list byte)
    (pm : PeerManager) : option Error * PeerManager :=
  match ctx_Err ctx with
  | Some e => (Some (ErrContext e), pm)
  | None =>
    match AddPeerByPublicKey ctx now addr senderID publicKey pm with
    | (Some err, pm) => (Some err, pm)
    | (None, pm) =>
      match GetPublicKeyToPeers ctx publicKey pm with
      | (_, _, Some err) => (Some err, pm)
      | (peers, exists_, None) =>
        if exists_ then forward_to_peers ctx peers payload pm else (None, pm)
      end
    end
  end.

Definition HandleType2Packet (ctx : Context) (now : Z) (addr : UDPAddr)
    (senderID receiverID : list byte) (publicKey : list byte) (payload : list byte)
    (pm : PeerManager) : option Error * PeerManager :=
  match ctx_Err ctx with
  | Some e => (Some (ErrContext e), pm)
  | None =>
    match AddPeerBySenderID ctx now addr senderID publicKey pm with
    | (Some err, pm) => (Some err, pm)
    | (None, pm) => ForwardPacketToReceiver ctx receiverID payload pm
    end
  end.

Definition HandleType3And4Packet (ctx : Context) (receiverID : list byte)
    (payload : list byte) (pm : PeerManager) : option Error * PeerManager :=
  match ctx_Err ctx with
  | Some e => (Some (ErrContext e), pm)
  | None => ForwardPacketToReceiver ctx receiverID payload pm
  end.

Definition HandlePacket (ctx : Context) (order : list (list byte)) (now : Z)
    (addr : UDPAddr) (payload : list byte) (pm : PeerManager)
    : option Error * PeerManager :=
  match ctx_Err ctx with
  | Some e => (Some (ErrContext e), pm)
  | None =>
    match payload with
    | [] => (Some (NewInvalidPacketError "insufficient length"), pm)
    | typeByte :: _ =>
      match typeByte with
      | x01 =>
        if negb (length payload =? 148)%nat
        then (Some (NewInvalidPacketError "invalid Type1 packet length"), pm)
        else
          match CheckMAC1AndGetPublicKey ctx order payload pm with
          | inl err => (Some err, pm)
          | inr publicKey =>
            HandleType1Packet ctx now addr (slice payload 4 8) publicKey payload pm
          end
      | x02 =>
        if negb (length payload =? 92)%nat
        then (Some (NewInvalidPacketError "invalid Type2 packet length"), pm)
        else
          match CheckMAC1AndGetPublicKey ctx order payload pm with
          | inl err => (Some err, pm)
          | inr publicKey =>
            HandleType2Packet ctx now addr (slice payload 4 8) (slice payload 8 12)
              publicKey payload pm
          end
      | x03 =>
        if negb (length payload =? 64)%nat
        then (Some (NewInvalidPacketError "invalid Type3 packet length"), pm)
        else HandleType3And4Packet ctx (slice payload 4 8) payload pm
      | x04 =>
        if (length payload <? 32)%nat
        then (Some (NewInvalidPacketError "invalid Type4 packet length"), pm)
        else HandleType3And4Packet ctx (slice payload 4 8) payload pm
      | _ => (Some (NewInvalidPacketError "unknown packet type"), pm)
      end
    end
  end.

(** [CleanupPeers].  Each iteration of either loop reads and writes only the
    entry it visits, which Go allows during [range]; [map_fold] visits every
    entry of the map once. *)
Definition CleanupPeers (now : Z) (pm : PeerManager) : option Error * PeerManager :=
  let expire := peerExpiration pm in
  if expire <=? 0 then (Some (ErrInvalidPeerExpiration expire), pm)
  else
    let peersMap :=
      map_fold (fun (publicKey : list byte) (peers : list loc) m =>
                  let remaining :=
                    List.filter
                      (fun peer => time_Sub now (Timestamp (heap pm peer)) <? expire)
                      peers in
                  if (length remaining =? 0)%nat then delete publicKey m
                  else <[publicKey := remaining]> m)
        (PublicKeyToPeersMap pm) (PublicKeyToPeersMap pm) in
    let pm1 := set_PublicKeyToPeersMap peersMap pm in
    let receiverMap :=
      map_fold (fun (receiverID : list byte) (peer : loc) m =>
                  if time_Sub now (Timestamp (heap pm1 peer)) >=? expire
                  then delete receiverID m else m)
        (ReceiverToPeerMap pm1) (ReceiverToPeerMap pm1) in
    (None, set_ReceiverToPeerMap receiverMap pm1).

(** ** Runs of the relay *)

(** [range_order order m]: [order] is an order in which [range] may visit
    the keys of [m]. *)
Definition range_order {V : Type} (order : list (list byte)) (m : gmap (list byte) V) : Prop :=
  order ≡ₚ (map_to_list m).*1.

(** One operation on the peer manager: a call of [AddPublicKeyPair], of
    [HandlePacket] (by a worker) or of [CleanupPeers] (by the ticker). *)
Inductive step : PeerManager -> PeerManager -> Prop :=
| step_AddPublicKeyPair ctx publicKey1 publicKey2 pm :
    step pm (snd (AddPublicKeyPair ctx publicKey1 publicKey2 pm))
| step_HandlePacket ctx order now addr payload pm :
    range_order order (PublicKeyToMac1KeyMap pm) ->
    step pm (snd (HandlePacket ctx order now addr payload pm))
| step_CleanupPeers now pm :
    step pm (snd (CleanupPeers now pm)).

(** The states of a run that starts with [NewPeerManager]. *)
Inductive reachable : PeerManager -> Prop :=
| reachable_New sender publicKeyPairList expiration :
    reachable (NewPeerManager sender publicKeyPairList expiration)
| reachable_step pm pm' :
    reachable pm -> step pm pm' -> reachable pm'.

(** ** The vocabulary of the specification *)

(** The packet is rejected by the type and length gate: it is empty, its
    type byte is none of 1..4, or its length is wrong for its type. *)
Definition invalid_packet (p : list byte) : Prop :=
  match p with
  | [] => True
  | t :: _ =>
    (t <> x01 /\ t <> x02 /\ t <> x03 /\ t <> x04)
    \/ (t = x01 /\ length p <> 148%nat)
    \/ (t = x02 /\ length p <> 92%nat)
    \/ (t = x03 /\ length p <> 64%nat)
    \/ (t = x04 /\ (length p < 32)%nat)
  end.

(** [pk] is admitted: it is a key of [mac1_key_by_pk]. *)
Definition admitted (pm : PeerManager) (pk : list byte) : Prop :=
  is_Some (PublicKeyToMac1KeyMap pm !! pk).

(** MAC1 of [p] verifies under the key derived from [pk]:
    BLAKE2s-128(key = BLAKE2s-256("mac1----" ‖ pk), p[0..len−32])
    = p[len−32..len−16]. *)
Definition mac1_matches (pk : list byte) (p : list byte) : Prop :=
  blake2s_MAC128 (blake2s_Sum256 (String.list_byte_of_string "mac1----" ++ pk))
    (take (length p - 32) p)
  = take 16 (drop (length p - 32) p).

(** Every entry of [endpoint_by_sid] is in some list of [endpoints_by_pk]. *)
Definition sid_entries_in_pk_lists (pm : PeerManager) : Prop :=
  forall sid pe, ReceiverToPeerMap pm !! sid = Some pe ->
    exists pk peers, PublicKeyToPeersMap pm !! pk = Some peers /\ pe ∈ peers.

(** Every endpoint of a list of [endpoints_by_pk] is an entry of
    [endpoint_by_sid]. *)
Definition pk_lists_in_sid_entries (pm : PeerManager) : Prop :=
  forall pk peers pe, PublicKeyToPeersMap pm !! pk = Some peers -> pe ∈ peers ->
    exists sid, ReceiverToPeerMap pm !! sid = Some pe.

(** Every key with a MAC1 key has a non-empty list of partners. *)
Definition admitted_keys_paired (pm : PeerManager) : Prop :=
  forall pk, is_Some (PublicKeyToMac1KeyMap pm !! pk) ->
    exists partners, PublicKeyToPairPublicKeysMap pm !! pk = Some partners /\ partners <> [].

(** Every MAC1 key is the one derived from its public key. *)
Definition mac1_keys_derived (pm : PeerManager) : Prop :=
  forall pk k, PublicKeyToMac1KeyMap pm !! pk = Some k -> k = CalculateMac1Key pk.

(** Every location held by the table has been allocated. *)
Definition locs_allocated (pm : PeerManager) : Prop :=
  (forall sid pe, ReceiverToPeerMap pm !! sid = Some pe -> (pe < next_loc pm)%nat)
  /\ (forall pk peers pe, PublicKeyToPeersMap pm !! pk = Some peers -> pe ∈ peers ->
        (pe < next_loc pm)%nat).

(** The error is none of the two the classifier and the authenticator
    return. *)
Definition not_rejection (e : option Error) : Prop :=
  is_InvalidPacket e = false /\ is_AuthenticationFailed e = false.

(** Nothing but the record of calls on the sender differs between [pm] and
    [pm']. *)
Definition table_unchanged (pm pm' : PeerManager) : Prop :=
  ReceiverToPeerMap pm' = ReceiverToPeerMap pm
  /\ PublicKeyToPeersMap pm' = PublicKeyToPeersMap pm
  /\ PublicKeyToMac1KeyMap pm' = PublicKeyToMac1KeyMap pm
  /\ PublicKeyToPairPublicKeysMap pm' = PublicKeyToPairPublicKeysMap pm
  /\ heap pm' = heap pm
  /\ next_loc pm' = next_loc pm
  /\ packetSender pm' = packetSender pm
  /\ peerExpiration pm' = peerExpiration pm.

(** [pm'] is [pm] with one more session: a cell allocated at [next_loc pm]
    and stored under the session index [sid], absent before, and possibly
    appended to one list of [PublicKeyToPeersMap]. *)
Definition session_added (pm pm' : PeerManager) : Prop :=
  exists sid peer,
    ReceiverToPeerMap pm !! sid = None
    /\ ReceiverToPeerMap pm' = <[sid := next_loc pm]> (ReceiverToPeerMap pm)
    /\ (PublicKeyToPeersMap pm' = PublicKeyToPeersMap pm
        \/ exists pk, PublicKeyToPeersMap pm' =
             AppendUniqueValue (PublicKeyToPeersMap pm) pk (next_loc pm)
               (peer_isEqual (heap pm')))
    /\ PublicKeyToMac1KeyMap pm' = PublicKeyToMac1KeyMap pm
    /\ PublicKeyToPairPublicKeysMap pm' = PublicKeyToPairPublicKeysMap pm
    /\ heap pm' = (fun l => if Nat.eqb l (next_loc pm) then peer else heap pm l)
    /\ next_loc pm' = S (next_loc pm)
    /\ packetSender pm' = packetSender pm
    /\ peerExpiration pm' = peerExpiration pm.

(** The test [now.Sub(peer.Timestamp) < expire] of the sweep. *)
Definition fresh_enough (pm : PeerManager) (now : Z) (peer : loc) : bool :=
  time_Sub now (Timestamp (heap pm peer)) <? peerExpiration pm.

(** An endpoint is expired at [now]. *)
Definition expired (pm : PeerManager) (now : Z) (pe : loc) : Prop :=
  time_Sub now (Timestamp (heap pm pe)) >= peerExpiration pm.

(** ** Further vocabulary *)

(** [partners_by_pk[pk]] and [endpoints_by_pk[pk]], empty for an absent
    key (as [m[key]] is in Go). *)
Definition partners (pm : PeerManager) (pk : list byte) : list (list byte) :=
  default [] (PublicKeyToPairPublicKeysMap pm !! pk).
Definition endpoints (pm : PeerManager) (pk : list byte) : list loc :=
  default [] (PublicKeyToPeersMap pm !! pk).

(** The list of pairs given to [NewPeerManager] has the pair [(a, b)] or
    the pair [(b, a)]. *)
Definition configured_pair (pairs : list PublicKeyPair) (a b : list byte) : Prop :=
  exists p, p ∈ pairs
    /\ ((PublicKey1 p = a /\ PublicKey2 p = b) \/ (PublicKey1 p = b /\ PublicKey2 p = a)).

(** [peer.Addr.String()] of the endpoint at [pe]. *)
Definition addr_string (pm : PeerManager) (pe : loc) : string :=
  UDPAddr_String (Addr (heap pm pe)).

(** The table holds the endpoint [pe], under a session index or in a list. *)
Definition referenced (pm : PeerManager) (pe : loc) : Prop :=
  (exists sid, ReceiverToPeerMap pm !! sid = Some pe)
  \/ (exists pk peers, PublicKeyToPeersMap pm !! pk = Some peers /\ pe ∈ peers).

(** The calls [SendPacket(peer.Addr, payload)] for the endpoints [peers],
    in order. *)
Definition datagrams_to (pm : PeerManager) (peers : list loc) (payload : list byte)
    : list Datagram :=
  map (fun pe => (Addr (heap pm pe), payload)) peers.

(** Every call on the sender succeeds. *)
Definition sender_reliable (s : PacketSender) : Prop :=
  forall calls to payload, SendPacket s calls to payload = None.

(** The error a handler returns for the result of [SendPacket]. *)
Definition send_error (r : option string) : option Error :=
  match r with
  | Some err => Some (NewPacketSendFailedError err)
  | None => None
  end.

(** A Cookie Reply of 64 bytes or a Transport Data message of at least 32. *)
Definition is_type3or4 (p : list byte) : Prop :=
  (head p = Some x03 /\ length p = 64%nat)
  \/ (head p = Some x04 /\ (32 <= length p)%nat).

End Relay.

(** * The other components

    ** Channels

    [worker_pool.go] and [buffer_pool.go] use buffered channels through
    [select] with a [default] case, a blocking receive and [close].  A
    channel is its buffer, its capacity and whether it is closed; every
    channel operation is one atomic step. *)

Record chan (A : Type) := {
  chan_buf : list A;
  chan_cap : Z;
  chan_closed : bool
}.
Arguments chan_buf {A} _.
Arguments chan_cap {A} _.
Arguments chan_closed {A} _.

(** [int] is taken to be 64 bits wide. *)
Definition wrap_int (z : Z) : Z := (z + 2 ^ 63) mod 2 ^ 64 - 2 ^ 63.

(** [make(chan A, size)] panics ([None]) on a negative size; the limit the
    allocator puts on the size is not modelled. *)
Definition make_chan {A : Type} (size : Z) : option (chan A) :=
  if size <? 0 then None
  else Some {| chan_buf := []; chan_cap := size; chan_closed := false |}.

(** [select { case c <- x: ...; default: ... }]: [Some (true, _)] when the
    value was sent, [Some (false, _)] when the default case ran, [None] for
    the panic of a send on a closed channel. *)
Definition chan_try_send {A : Type} (x : A) (c : chan A) : option (bool * chan A) :=
  if chan_closed c then None
  else if Z.of_nat (length (chan_buf c)) <? chan_cap c
       then Some (true, {| chan_buf := chan_buf c ++ [x]; chan_cap := chan_cap c;
                           chan_closed := chan_closed c |})
       else Some (false, c).

(** The outcomes of a receive. *)
Inductive recv_result (A : Type) :=
| Received (x : A) (c : chan A)
| ReceivedClosed
| NotReady.
Arguments Received {A} _ _.
Arguments ReceivedClosed {A}.
Arguments NotReady {A}.

(** [x, ok := <-c]: the oldest buffered value; on an empty buffer the
    receive yields [ok = false] when the channel is closed and is not ready
    otherwise. *)
Definition chan_recv {A : Type} (c : chan A) : recv_result A :=
  match chan_buf c with
  | x :: rest =>
    Received x {| chan_buf := rest; chan_cap := chan_cap c; chan_closed := chan_closed c |}
  | [] => if chan_closed c then ReceivedClosed else NotReady
  end.

(** [close(c)] panics ([None]) on a closed channel. *)
Definition chan_close {A : Type} (c : chan A) : option (chan A) :=
  if chan_closed c then None
  else Some {| chan_buf := chan_buf c; chan_cap := chan_cap c; chan_closed := true |}.

(** ** buffer_pool.go *)

Record BufferPool := {
  pool : chan (list byte);
  bufferSize : Z
}.

Definition NewBufferPool (poolSize : Z) (bufferSize : Z) : option BufferPool :=
  match make_chan poolSize with
  | None => None
  | Some c => Some {| pool := c; bufferSize := bufferSize |}
  end.

(** [Get]: a pooled buffer as it was put, or a new buffer of zeros;
    [make([]byte, n)] panics ([None]) on a negative length (the limit the
    allocator puts on the length is not modelled).  A receive from a closed
    and empty channel yields the nil slice. *)
Definition BufferPool_Get (bp : BufferPool) : option (list byte * BufferPool) :=
  match chan_recv (pool bp) with
  | Received buf c => Some (buf, {| pool := c; bufferSize := bufferSize bp |})
  | ReceivedClosed => Some ([], bp)
  | NotReady =>
    if bufferSize bp <? 0 then None
    else Some (replicate (Z.to_nat (bufferSize bp)) x00, bp)
  end.

(** [Put]: the buffer goes back unless the pool is full. *)
Definition BufferPool_Put (buf : list byte) (bp : BufferPool) : option BufferPool :=
  match chan_try_send buf (pool bp) with
  | None => None
  | Some (_, c) => Some {| pool := c; bufferSize := bufferSize bp |}
  end.

(** A use of the pool by its client: a sequence of [Get]s and [Put]s. *)
Inductive pool_op := OpGet | OpPut (buf : list byte).

(** The buffers the [Get]s of a sequence return, and the pool after it. *)
Fixpoint BufferPool_run (ops : list pool_op) (bp : BufferPool)
    : option (list (list byte) * BufferPool) :=
  match ops with
  | [] => Some ([], bp)
  | OpGet :: rest =>
    match BufferPool_Get bp with
    | None => None
    | Some (buf, bp) =>
      match BufferPool_run rest bp with
      | None => None
      | Some (bufs, bp) => Some (buf :: bufs, bp)
      end
    end
  | OpPut buf :: rest =>
    match BufferPool_Put buf bp with
    | None => None
    | Some bp => BufferPool_run rest bp
    end
  end.

(** The buffers put by a sequence. *)
Definition put_buffers (ops : list pool_op) : list (list byte) :=
  omap (fun op => match op with OpPut buf => Some buf | OpGet => None end) ops.

(** ** The logger and [GetLogLevel] *)

Definition LogLevelDebug : Z := 0.
Definition LogLevelInfo : Z := 1.
Definition LogLevelWarning : Z := 2.
Definition LogLevelError : Z := 3.

Definition GetLogLevel (level : string) : Z :=
  if String.eqb level "debug" then LogLevelDebug
  else if String.eqb level "info" then LogLevelInfo
  else if String.eqb level "warning" then LogLevelWarning
  else if String.eqb level "error" then LogLevelError
  else LogLevelInfo.

(** A line written by one of the four [log.Logger]s of a [Logger]: the file
    it goes to, its prefix and the formatted message. *)
Inductive LogFile := Stdout | Stderr.
Record LogLine := { log_file : LogFile; log_prefix : string; log_message : string }.

Record Logger := { minLevel : Z }.

Definition NewLogger (minLevel : Z) : Logger := {| minLevel := minLevel |}.

(** The four methods, on the message [fmt.Sprintf(format, v...)]. *)
Definition Logger_Debug (l : Logger) (message : string) (out : list LogLine)
    : list LogLine :=
  if minLevel l <=? LogLevelDebug
  then out ++ [{| log_file := Stdout; log_prefix := "[DEBUG] "; log_message := message |}]
  else out.
Definition Logger_Info (l : Logger) (message : string) (out : list LogLine)
    : list LogLine :=
  if minLevel l <=? LogLevelInfo
  then out ++ [{| log_file := Stdout; log_prefix := "[INFO] "; log_message := message |}]
  else out.
Definition Logger_Warning (l : Logger) (message : string) (out : list LogLine)
    : list LogLine :=
  if minLevel l <=? LogLevelWarning
  then out ++ [{| log_file := Stdout; log_prefix := "[WARN] "; log_message := message |}]
  else out.
Definition Logger_Error (l : Logger) (message : string) (out : list LogLine)
    : list LogLine :=
  if minLevel l <=? LogLevelError
  then out ++ [{| log_file := Stderr; log_prefix := "[ERROR] "; log_message := message |}]
  else out.

(** ** worker_pool.go *)

Section WorkerPoolModel.
Context `{Net}.

Record PacketJob := { job_Addr : UDPAddr; job_Data : list byte }.

(** [type WorkerPool struct]; the wait group, the logger and the handler
    are left out. *)
Record WorkerPool := {
  jobQueue : chan PacketJob;
  maxWorkers : Z
}.

(** [NewWorkerPool]: [None] when [make] panics, which it does when
    [maxWorkers*2] wraps to a negative [int]. *)
Definition NewWorkerPool (maxWorkers : Z) : option WorkerPool :=
  let maxWorkers := if maxWorkers <? 1 then 1 else maxWorkers in
  match make_chan (wrap_int (maxWorkers * 2)) with
  | None => None
  | Some c => Some {| jobQueue := c; maxWorkers := maxWorkers |}
  end.

(** [Submit]: [None] is the panic of a send on the closed queue. *)
Definition WorkerPool_Submit (addr : UDPAddr) (data : list byte) (wp : WorkerPool)
    : option (bool * WorkerPool) :=
  let job := {| job_Addr := addr; job_Data := data |} in
  match chan_try_send job (jobQueue wp) with
  | None => None
  | Some (sent_, c) => Some (sent_, {| jobQueue := c; maxWorkers := maxWorkers wp |})
  end.

(** The case [job, ok := <-wp.jobQueue] of the [select] of a worker: the
    job passed to the handler, if one was received. *)
Definition worker_receive (wp : WorkerPool) : option PacketJob * WorkerPool :=
  match chan_recv (jobQueue wp) with
  | Received job c => (Some job, {| jobQueue := c; maxWorkers := maxWorkers wp |})
  | ReceivedClosed => (None, wp)
  | NotReady => (None, wp)
  end.

(** [close(wp.jobQueue)] of [Shutdown]. *)
Definition WorkerPool_close (wp : WorkerPool) : option WorkerPool :=
  match chan_close (jobQueue wp) with
  | None => None
  | Some c => Some {| jobQueue := c; maxWorkers := maxWorkers wp |}
  end.

(** What the receive loop and the workers do to the queue, in the order in
    which it happens. *)
Inductive queue_event :=
| EvSubmit (addr : UDPAddr) (data : list byte)
| EvReceive
| EvClose.

(** The outcome of a sequence of events. *)
Record queue_trace := {
  accepted : list PacketJob;
  dropped : list PacketJob;
  handled : list PacketJob
}.

Fixpoint WorkerPool_run (evs : list queue_event) (t : queue_trace) (wp : WorkerPool)
    : option (queue_trace * WorkerPool) :=
  match evs with
  | [] => Some (t, wp)
  | EvSubmit addr data :: rest =>
    let job := {| job_Addr := addr; job_Data := data |} in
    match WorkerPool_Submit addr data wp with
    | None => None
    | Some (true, wp) =>
      WorkerPool_run rest
        {| accepted := accepted t ++ [job]; dropped := dropped t; handled := handled t |} wp
    | Some (false, wp) =>
      WorkerPool_run rest
        {| accepted := accepted t; dropped := dropped t ++ [job]; handled := handled t |} wp
    end
  | EvReceive :: rest =>
    match worker_receive wp with
    | (Some job, wp) =>
      WorkerPool_run rest
        {| accepted := accepted t; dropped := dropped t; handled := handled t ++ [job] |} wp
    | (None, wp) => WorkerPool_run rest t wp
    end
  | EvClose :: rest =>
    match WorkerPool_close wp with
    | None => None
    | Some wp => WorkerPool_run rest t wp
    end
  end.

Definition empty_trace : queue_trace :=
  {| accepted := []; dropped := []; handled := [] |}.

(** The jobs a sequence of events submits, in order. *)
Definition submitted (evs : list queue_event) : list PacketJob :=
  omap (fun ev => match ev with
                  | EvSubmit addr data => Some {| job_Addr := addr; job_Data := data |}
                  | _ => None
                  end) evs.

End WorkerPoolModel.

(** ** config.go: public keys *)

(** [base64.StdEncoding.DecodeString]; [None] is an error. *)
Class Base64 := {
  base64_DecodeString : string -> option (list byte)
}.

Record KeyPairConfig := { Key1 : string; Key2 : string }.

Section KeyLoading.
Context `{Base64}.

Definition DecodePublicKeyWithError (publicKeyBase64 : string) : Error + list byte :=
  match base64_DecodeString publicKeyBase64 with
  | None => inl (NewInvalidPublicKeyError "invalid base64 encoding")
  | Some decoded =>
    if negb (length decoded =? 32)%nat
    then inl (NewInvalidPublicKeyError "incorrect key size")
    else inr decoded
  end.

(** [fmt.Sprintf("%v", keys)] for a slice of strings. *)
Definition fmt_strings (keys : list string) : string :=
  "[" +:+ String.concat " " keys +:+ "]".

(** One iteration of the loop of [LoadPublicKeyPairsFromConfig], on the
    pairs and the invalid keys collected so far. *)
Definition load_pair (acc : list PublicKeyPair * list string) (kp : KeyPairConfig)
    : list PublicKeyPair * list string :=
  let '(publicKeyPairList, invalidKeys) := acc in
  match DecodePublicKeyWithError (Key1 kp), DecodePublicKeyWithError (Key2 kp) with
  | inl _, _ => (publicKeyPairList, invalidKeys ++ [Key1 kp])
  | inr _, inl _ => (publicKeyPairList, invalidKeys ++ [Key2 kp])
  | inr publicKey1, inr publicKey2 =>
    (publicKeyPairList ++ [{| PublicKey1 := publicKey1; PublicKey2 := publicKey2 |}],
     invalidKeys)
  end.

Definition LoadPublicKeyPairsFromConfig (keyPairs : list KeyPairConfig)
    : list PublicKeyPair * option Error :=
  let '(publicKeyPairList, invalidKeys) := foldl load_pair ([], []) keyPairs in
  if (0 <? length invalidKeys)%nat
  then (publicKeyPairList,
        Some (NewInvalidPublicKeyError ("invalid keys: " +:+ fmt_strings invalidKeys)))
  else (publicKeyPairList, None).

(** Both keys of the pair decode to 32 bytes. *)
Definition valid_pair (kp : KeyPairConfig) : option PublicKeyPair :=
  match DecodePublicKeyWithError (Key1 kp), DecodePublicKeyWithError (Key2 kp) with
  | inr publicKey1, inr publicKey2 =>
    Some {| PublicKey1 := publicKey1; PublicKey2 := publicKey2 |}
  | _, _ => None
  end.

End KeyLoading.

(** ** config.go: [LoadConfig] *)

(** [strconv.Atoi], [time.ParseDuration] ([None] is an error),
    [strings.Split] and [strings.TrimSpace]. *)
Class Parsing := {
  strconv_Atoi : string -> option Z;
  time_ParseDuration : string -> option Z;
  strings_Split : string -> string -> list string;
  strings_TrimSpace : string -> string
}.

Record ServerConfig := {
  ListenAddress : string;
  Port : Z;
  LogLevel : string;
  PeerExpiration : Z
}.

Record BufferPoolConfig := { PoolSize : Z; BufferSize : Z }.

Record WorkerPoolConfig := { MaxWorkers : Z }.

Record Config := {
  Server : ServerConfig;
  KeyPairs : list KeyPairConfig;
  BufferPool_ : BufferPoolConfig;
  WorkerPool_ : WorkerPoolConfig
}.

(** The values of the flags after [flag.Parse]: the default registered for
    a flag when the command line does not give it ([None] for
    [-configfile], whose default is computed). *)
Record Flags := {
  configFileFlag : option string;
  listenAddressFlag : string;
  portFlag : Z;
  logLevelFlag : string;
  peerExpirationFlag : Z;
  poolSizeFlag : Z;
  bufferSizeFlag : Z;
  maxWorkersFlag : Z
}.

(** What [LoadConfig] reads from its process: the environment
    ([os.Getenv], the empty string for an unset variable), the flags,
    whether [os.Stat] reports that a file does not exist, and
    [toml.DecodeFile] on a path and the configuration it fills in. *)
Record Process := {
  Getenv : string -> string;
  flags : Flags;
  Stat_IsNotExist : string -> bool;
  toml_DecodeFile : string -> Config -> string + Config
}.

Inductive ConfigError :=
| ErrConfigFileNotFound (path : string)
| ErrConfigLoad (err : string).

Definition DefaultConfigPath : string := "./setting.conf".
Definition DefaultMaxWorkers : Z := 100.
Definition DefaultBufferSize : Z := 1500.
Definition DefaultPoolSize : Z := 1000.

(** [time.Minute], in nanoseconds. *)
Definition time_Minute : Z := 60000000000.

Section Configuration.
Context `{Parsing}.

Definition getEnvInt (env : string -> string) (key : string) (defaultVal : Z) : Z :=
  let val := env key in
  if String.eqb val "" then defaultVal
  else match strconv_Atoi val with
       | None => defaultVal
       | Some intVal => intVal
       end.

Definition getEnvString (env : string -> string) (key : string) (defaultVal : string)
    : string :=
  let val := env key in
  if String.eqb val "" then defaultVal else val.

Definition getEnvDuration (env : string -> string) (key : string) (defaultVal : Z) : Z :=
  let val := env key in
  if String.eqb val "" then defaultVal
  else match time_ParseDuration val with
       | None => defaultVal
       | Some duration => duration
       end.

(** The key pairs of [WG_KNOT_KEY_PAIRS]: the loop over the parts between
    commas. *)
Definition env_key_pairs (val : string) : list KeyPairConfig :=
  omap (fun pair =>
          match strings_Split (strings_TrimSpace pair) ":" with
          | [key1; key2] =>
            Some {| Key1 := strings_TrimSpace key1; Key2 := strings_TrimSpace key2 |}
          | _ => None
          end)
    (strings_Split val ",").

Definition loadFromEnvironment (env : string -> string) (config : Config) : Config :=
  let server :=
    {| ListenAddress :=
         getEnvString env "WG_KNOT_LISTEN_ADDRESS" (ListenAddress (Server config));
       Port := getEnvInt env "WG_KNOT_PORT" (Port (Server config));
       LogLevel := getEnvString env "WG_KNOT_LOG_LEVEL" (LogLevel (Server config));
       PeerExpiration :=
         getEnvDuration env "WG_KNOT_PEER_EXPIRATION" (PeerExpiration (Server config)) |} in
  let bufferPool :=
    {| PoolSize := getEnvInt env "WG_KNOT_POOL_SIZE" (PoolSize (BufferPool_ config));
       BufferSize :=
         getEnvInt env "WG_KNOT_BUFFER_SIZE" (BufferSize (BufferPool_ config)) |} in
  let workerPool :=
    {| MaxWorkers :=
         getEnvInt env "WG_KNOT_MAX_WORKERS" (MaxWorkers (WorkerPool_ config)) |} in
  let keyPairs :=
    let val := env "WG_KNOT_KEY_PAIRS" in
    if negb (String.eqb val "") then KeyPairs config ++ env_key_pairs val
    else KeyPairs config in
  {| Server := server; KeyPairs := keyPairs;
     BufferPool_ := bufferPool; WorkerPool_ := workerPool |}.

(** The configuration [LoadConfig] starts from. *)
Definition default_Config : Config :=
  {| Server := {| ListenAddress := "0.0.0.0"; Port := 52820; LogLevel := "info";
                  PeerExpiration := 3 * time_Minute |};
     KeyPairs := [];
     BufferPool_ := {| PoolSize := DefaultPoolSize; BufferSize := DefaultBufferSize |};
     WorkerPool_ := {| MaxWorkers := DefaultMaxWorkers |} |}.

(** The overrides by the flags, at the end of [LoadConfig]. *)
Definition apply_flags (f : Flags) (config : Config) : Config :=
  {| Server :=
       {| ListenAddress :=
            if negb (String.eqb (listenAddressFlag f) "") then listenAddressFlag f
            else ListenAddress (Server config);
          Port := if negb (portFlag f =? 0) then portFlag f else Port (Server config);
          LogLevel :=
            if negb (String.eqb (logLevelFlag f) "") then logLevelFlag f
            else LogLevel (Server config);
          PeerExpiration :=
            if negb (peerExpirationFlag f =? 0) then peerExpirationFlag f
            else PeerExpiration (Server config) |};
     KeyPairs := KeyPairs config;
     BufferPool_ :=
       {| PoolSize :=
            if negb (poolSizeFlag f =? 0) then poolSizeFlag f
            else PoolSize (BufferPool_ config);
          BufferSize :=
            if negb (bufferSizeFlag f =? 0) then bufferSizeFlag f
            else BufferSize (BufferPool_ config) |};
     WorkerPool_ :=
       {| MaxWorkers :=
            if negb (maxWorkersFlag f =? 0) then maxWorkersFlag f
            else MaxWorkers (WorkerPool_ config) |} |}.

(** The path of the configuration file: the flag, whose default is the
    variable [WG_KNOT_CONFIG_FILE] or, when that is empty, the default
    path. *)
Definition config_file_path (p : Process) : string :=
  let configFilePath := Getenv p "WG_KNOT_CONFIG_FILE" in
  let configFilePath :=
    if String.eqb configFilePath "" then DefaultConfigPath else configFilePath in
  match configFileFlag (flags p) with
  | Some path => path
  | None => configFilePath
  end.

Definition LoadConfig (p : Process) : ConfigError + Config :=
  let config := default_Config in
  let configFilePath := config_file_path p in
  let fileExists := negb (Stat_IsNotExist p configFilePath) in
  if negb fileExists && negb (String.eqb configFilePath DefaultConfigPath)
  then inl (ErrConfigFileNotFound configFilePath)
  else
    match (if fileExists then toml_DecodeFile p configFilePath config else inr config) with
    | inl err => inl (ErrConfigLoad err)
    | inr config =>
      let config := loadFromEnvironment (Getenv p) config in
      inr (apply_flags (flags p) config)
    end.

(** The configuration before the environment and the flags are applied:
    what the file decodes to, or the defaults without a file. *)
Definition base_Config (p : Process) : string + Config :=
  if Stat_IsNotExist p (config_file_path p) then inr default_Config
  else toml_DecodeFile p (config_file_path p) default_Config.

End Configuration.

(** ** A concrete instance for the scenarios

    The scenarios of the specification are run on stand-ins for the
    external parts.  The stand-ins for BLAKE2s only have to be functions
    with outputs of the right length: the digest is the first 32 bytes of
    the zero-padded input, and the MAC joins bytes 8..16 of the key with the
    first 8 bytes of the data.  Addresses are their string forms. *)
Module Scenarios.

#[export] Instance stand_in_blake2s : Blake2s := {|
  blake2s_Sum256 := fun d => take 32 (d ++ replicate 32 x00);
  blake2s_MAC128 := fun k d =>
    take 8 (drop 8 k ++ replicate 8 x00) ++ take 8 (d ++ replicate 8 x00)
|}.

#[export] Instance string_net : Net := {|
  UDPAddr := string;
  UDPAddr_nil := "<nil>"%string;
  UDPAddr_String := fun a => a
|}.

Definition pkA : list byte := replicate 32 xaa.
Definition pkB : list byte := replicate 32 xbb.

Definition addr_10_0_0_1 : @UDPAddr string_net := "10.0.0.1:1111"%string.
Definition addr_1_2_3_4 : @UDPAddr string_net := "1.2.3.4:5000"%string.
Definition addr_5_6_7_8 : @UDPAddr string_net := "5.6.7.8:6000"%string.

(** A sender whose every call succeeds. *)
Definition ok_sender : PacketSender := {| SendPacket := fun _ _ _ => None |}.

(** A handshake message: [body], then MAC1 of [body] under the key derived
    from [pk], then a zero MAC2. *)
Definition with_macs (pk : list byte) (body : list byte) : list byte :=
  body ++ blake2s_MAC128 (CalculateMac1Key pk) body ++ replicate 16 x00.

(** A 148-byte Initiation and a 92-byte Response whose MAC1 verifies under
    [pk]. *)
Definition initiation (sid : list byte) (pk : list byte) : list byte :=
  with_macs pk ([x01; x00; x00; x00] ++ sid ++ replicate 108 x00).
Definition response (sid rid : list byte) (pk : list byte) : list byte :=
  with_macs pk ([x02; x00; x00; x00] ++ sid ++ rid ++ replicate 48 x00).

Definition sid_11223344 : list byte := [x11; x22; x33; x44].
Definition sid_55667788 : list byte := [x55; x66; x77; x88].

(** The relay configured with the pair (pkA, pkB) and a TTL of 3 minutes. *)
Definition pm_AB : PeerManager :=
  NewPeerManager ok_sender [ {| PublicKey1 := pkA; PublicKey2 := pkB |} ] 180000000000.

(** An order in which [range] may visit the two admitted keys. *)
Definition order_AB : list (list byte) := [pkA; pkB].

(** Scenario S4: [endpoints_by_pk[pkA]] pre-populated with 10.0.0.1:1111. *)
Definition pm_S4 : PeerManager :=
  let '(pe, pm) := alloc_Peer {| Addr := addr_10_0_0_1; Timestamp := 0 |} pm_AB in
  set_PublicKeyToPeersMap {[ pkA := [pe] ]} pm.

(** The state after an Initiation from 1.2.3.4:5000 with sender index
    11 22 33 44, authenticated as pkB, handled at time 0. *)
Definition pm_initiated : PeerManager :=
  snd (HandlePacket Background order_AB 0 addr_1_2_3_4
         (initiation sid_11223344 pkB) pm_AB).

(** Scenarios S1, S2, S3 and S6: an unknown type; a type 1 message of 101
    bytes; an Initiation with a zero MAC1; a Cookie Reply for the receiver
    index de ad be ef. *)
Definition packet_S1 : list byte := [x00; x00; x00; x00].
Definition packet_S2 : list byte := x01 :: replicate 100 x00.
Definition packet_S3 : list byte :=
  [x01; x00; x00; x00; xaa; xbb; xcc; xdd] ++ replicate 140 x00.
Definition packet_S6 : list byte :=
  [x03; x00; x00; x00; xde; xad; xbe; xef] ++ replicate 56 x00.

(** A Transport Data message of 32 bytes for the receiver index [rid]. *)
Definition transport (rid : list byte) : list byte :=
  [x04; x00; x00; x00] ++ rid ++ replicate 24 x00.

(** The state after the Response of scenario S5, handled at time 7. *)
Definition pm_responded : PeerManager :=
  snd (HandlePacket Background order_AB 7 addr_5_6_7_8
         (response sid_55667788 sid_11223344 pkA) pm_initiated).

(** The base64 forms of pkA and pkB.  The stand-in for the decoder knows
    them and the form of three zero bytes; every other string is an error
    for it. *)
Definition base64_pkA : string := "qqqqqqqqqqqqqqqqqqqqqqqqqqqqqqqqqqqqqqqqqqo=".
Definition base64_pkB : string := "u7u7u7u7u7u7u7u7u7u7u7u7u7u7u7u7u7u7u7u7u7s=".

#[export] Instance stand_in_base64 : Base64 := {|
  base64_DecodeString := fun s =>
    if String.eqb s base64_pkA then Some pkA
    else if String.eqb s base64_pkB then Some pkB
    else if String.eqb s "AAAA" then Some [x00; x00; x00]
    else None
|}.

(** A configuration with the pair (pkA, pkB), a pair whose second key is
    too short and a pair whose first key is no base64. *)
Definition keyPairs_AB : list KeyPairConfig :=
  [ {| Key1 := base64_pkA; Key2 := base64_pkB |};
    {| Key1 := base64_pkA; Key2 := "AAAA" |};
    {| Key1 := "?"; Key2 := base64_pkB |} ].

(** A pool of two buffers of four bytes; a worker pool of one worker, with
    its queue of two places; a job from 1.2.3.4:5000. *)
Definition bp_2_4 : BufferPool :=
  {| pool := {| chan_buf := []; chan_cap := 2; chan_closed := false |};
     bufferSize := 4 |}.
Definition wp_1 : WorkerPool :=
  {| jobQueue := {| chan_buf := []; chan_cap := 2; chan_closed := false |};
     maxWorkers := 1 |}.
Definition job (data : list byte) : PacketJob :=
  {| job_Addr := addr_1_2_3_4; job_Data := data |}.

(** Stand-ins for the parsers, right on the strings of the sample process:
    one number and one duration are read, and a string without the
    separator is split into itself. *)
#[export] Instance stand_in_parsing : Parsing := {|
  strconv_Atoi := fun s => if String.eqb s "51820" then Some 51820 else None;
  time_ParseDuration := fun s => if String.eqb s "5m" then Some (5 * time_Minute) else None;
  strings_Split := fun s sep => [s];
  strings_TrimSpace := fun s => s
|}.

(** A process without a configuration file, with the port and the log
    level in its environment and the flags [-loglevel error] and
    [-maxworkers 8]. *)
Definition sample_process : Process := {|
  Getenv := fun key =>
    if String.eqb key "WG_KNOT_PORT" then "51820"
    else if String.eqb key "WG_KNOT_LOG_LEVEL" then "debug"
    else "";
  flags := {| configFileFlag := None; listenAddressFlag := ""; portFlag := 0;
              logLevelFlag := "error"; peerExpirationFlag := 0; poolSizeFlag := 0;
              bufferSizeFlag := 0; maxWorkersFlag := 8 |};
  Stat_IsNotExist := fun _ => true;
  toml_DecodeFile := fun _ config => inr config
|}.

(** The configuration [LoadConfig] returns for it. *)
Definition sample_config : Config :=
  {| Server := {| ListenAddress := "0.0.0.0"; Port := 51820; LogLevel := "error";
                  PeerExpiration := 3 * time_Minute |};
     KeyPairs := [];
     BufferPool_ := {| PoolSize := 1000; BufferSize := 1500 |};
     WorkerPool_ := {| MaxWorkers := 8 |} |}.

End Scenarios.

(** * Properties *)

Section Properties.
Context `{Blake2s} `{Net}.

(** ** Errors of the handlers *)

Lemma ForwardPacket_not_rejection ctx to payload pm :
  not_rejection (fst (ForwardPacket ctx to payload pm)).
Proof.
  unfold ForwardPacket, call_SendPacket.
  destruct (ctx_Err ctx); [done|].
  by destruct (SendPacket _ _ _ _).
Qed.

Lemma forward_to_peers_not_rejection ctx peers payload pm :
  not_rejection (fst (forward_to_peers ctx peers payload pm)).
Proof.
  revert pm. induction peers as [|peer rest IH]; intros pm; [done|].
  cbn [forward_to_peers].
  pose proof (ForwardPacket_not_rejection ctx (Addr (heap pm peer)) payload pm) as Hf.
  destruct (ForwardPacket ctx (Addr (heap pm peer)) payload pm) as [[err|] pm1]; [done|].
  apply IH.
Qed.

Lemma ForwardPacketToReceiver_not_rejection ctx receiverID payload pm :
  not_rejection (fst (ForwardPacketToReceiver ctx receiverID payload pm)).
Proof.
  unfold ForwardPacketToReceiver.
  destruct (ctx_Err ctx); [done|].
  destruct (ReceiverToPeerMap pm !! receiverID); [|done].
  apply ForwardPacket_not_rejection.
Qed.

Lemma AddPeerByPublicKey_not_rejection ctx now addr senderID pk pm :
  not_rejection (fst (AddPeerByPublicKey ctx now addr senderID pk pm)).
Proof.
  unfold AddPeerByPublicKey.
  destruct (ctx_Err ctx); [done|].
  destruct (ReceiverToPeerMap pm !! senderID); [done|].
  by destruct (PublicKeyToPairPublicKeysMap pm !! pk).
Qed.

Lemma AddPeerBySenderID_not_rejection ctx now addr senderID pk pm :
  not_rejection (fst (AddPeerBySenderID ctx now addr senderID pk pm)).
Proof.
  unfold AddPeerBySenderID.
  destruct (ctx_Err ctx); [done|].
  by destruct (ReceiverToPeerMap pm !! senderID).
Qed.

Lemma HandleType1Packet_not_rejection ctx now addr senderID pk payload pm :
  not_rejection (fst (HandleType1Packet ctx now addr senderID pk payload pm)).
Proof.
  unfold HandleType1Packet.
  destruct (ctx_Err ctx) eqn:Hctx; [done|].
  pose proof (AddPeerByPublicKey_not_rejection ctx now addr senderID pk pm) as Ha.
  destruct (AddPeerByPublicKey ctx now addr senderID pk pm) as [[err|] pm1]; [done|].
  unfold GetPublicKeyToPeers. rewrite Hctx.
  destruct (PublicKeyToPeersMap pm1 !! pk); [|done].
  apply forward_to_peers_not_rejection.
Qed.

Lemma HandleType2Packet_not_rejection ctx now addr senderID receiverID pk payload pm :
  not_rejection (fst (HandleType2Packet ctx now addr senderID receiverID pk payload pm)).
Proof.
  unfold HandleType2Packet.
  destruct (ctx_Err ctx); [done|].
  pose proof (AddPeerBySenderID_not_rejection ctx now addr senderID pk pm) as Ha.
  destruct (AddPeerBySenderID ctx now addr senderID pk pm) as [[err|] pm1]; [done|].
  apply ForwardPacketToReceiver_not_rejection.
Qed.

Lemma HandleType3And4Packet_not_rejection ctx receiverID payload pm :
  not_rejection (fst (HandleType3And4Packet ctx receiverID payload pm)).
Proof.
  unfold HandleType3And4Packet.
  destruct (ctx_Err ctx); [done|].
  apply ForwardPacketToReceiver_not_rejection.
Qed.

(** ** The MAC1 scan *)

Lemma mac1_scan_inl order m payload e :
  mac1_scan order m payload = inl e ->
  e = NewAuthenticationFailedError "mac1 verification failed"
  /\ forall pk k, pk ∈ order -> m !! pk = Some k -> mac1_equal k payload = false.
Proof.
  induction order as [|pk0 rest IH]; cbn [mac1_scan].
  - intros [= <-]. split; [done|]. intros pk k Hin. by apply elem_of_nil in Hin.
  - destruct (m !! pk0) as [k0|] eqn:Hk0.
    + destruct (mac1_equal k0 payload) eqn:Heq; [done|].
      intros Hscan. destruct (IH Hscan) as [-> Hrest]. split; [done|].
      intros pk k Hin Hk. apply elem_of_cons in Hin as [->|Hin]; [congruence|eauto].
    + intros Hscan. destruct (IH Hscan) as [-> Hrest]. split; [done|].
      intros pk k Hin Hk. apply elem_of_cons in Hin as [->|Hin]; [congruence|eauto].
Qed.

Lemma mac1_scan_inr order m payload pk :
  mac1_scan order m payload = inr pk ->
  pk ∈ order /\ exists k, m !! pk = Some k /\ mac1_equal k payload = true.
Proof.
  induction order as [|pk0 rest IH]; cbn [mac1_scan]; [done|].
  destruct (m !! pk0) as [k0|] eqn:Hk0.
  - destruct (mac1_equal k0 payload) eqn:Heq.
    + intros [= <-]. split; [apply elem_of_cons; by left|eauto].
    + intros Hscan. destruct (IH Hscan) as [Hin Hk]. split; [apply elem_of_cons; by right|done].
  - intros Hscan. destruct (IH Hscan) as [Hin Hk]. split; [apply elem_of_cons; by right|done].
Qed.

(** The authenticator returns only keys of [PublicKeyToMac1KeyMap]. *)
Lemma CheckMAC1AndGetPublicKey_admitted ctx order payload pm pk :
  CheckMAC1AndGetPublicKey ctx order payload pm = inr pk -> admitted pm pk.
Proof.
  unfold CheckMAC1AndGetPublicKey. destruct (ctx_Err ctx); [done|].
  intros Hscan. apply mac1_scan_inr in Hscan as (_ & k & Hk & _). by eexists.
Qed.

Lemma CheckMAC1AndGetPublicKey_inl ctx order payload pm e :
  CheckMAC1AndGetPublicKey ctx order payload pm = inl e ->
  is_InvalidPacket (Some e) = false.
Proof.
  unfold CheckMAC1AndGetPublicKey. destruct (ctx_Err ctx).
  - by intros [= <-].
  - intros Hscan. by apply mac1_scan_inl in Hscan as [-> _].
Qed.

(** ** The type and length gate *)

Lemma not_rejection_InvalidPacket e :
  not_rejection e -> is_InvalidPacket e = true -> False.
Proof. intros [? ?]; congruence. Qed.

(** C7. With a live context, [HandlePacket] returns [InvalidPacket]
    exactly when the payload is empty, its first byte is none of 1, 2, 3, 4,
    or its length is not the one its type requires (148 for type 1, 92 for
    type 2, 64 for type 3, at least 32 for type 4). *)
Theorem HandlePacket_InvalidPacket_iff ctx order now addr payload pm :
  ctx_Err ctx = None ->
  is_InvalidPacket (fst (HandlePacket ctx order now addr payload pm)) = true
  <-> invalid_packet payload.
Proof.
  intros Hctx. unfold HandlePacket. rewrite Hctx.
  destruct payload as [|t tl]; [done|].
  unfold invalid_packet.
  set (p := t :: tl). set (n := length p).
  destruct t;
    try (split; [intros _; left; repeat split; discriminate | reflexivity]).
  - destruct (Nat.eqb_spec n 148) as [Hn|Hn]; cbn [negb].
    + split.
      * intros Hinv. exfalso.
        destruct (CheckMAC1AndGetPublicKey ctx order p pm) as [e|pk] eqn:Hc.
        -- apply CheckMAC1AndGetPublicKey_inl in Hc. cbn [fst] in Hinv. congruence.
        -- eapply not_rejection_InvalidPacket; [|exact Hinv].
           apply HandleType1Packet_not_rejection.
      * intros [(?&?&?&?)|[(_ & Hl)|[(Ht & _)|[(Ht & _)|(Ht & _)]]]]; try done; by subst n.
    + split; [|done]. intros _. right; left. done.
  - destruct (Nat.eqb_spec n 92) as [Hn|Hn]; cbn [negb].
    + split.
      * intros Hinv. exfalso.
        destruct (CheckMAC1AndGetPublicKey ctx order p pm) as [e|pk] eqn:Hc.
        -- apply CheckMAC1AndGetPublicKey_inl in Hc. cbn [fst] in Hinv. congruence.
        -- eapply not_rejection_InvalidPacket; [|exact Hinv].
           apply HandleType2Packet_not_rejection.
      * intros [(?&?&?&?)|[(Ht & _)|[(_ & Hl)|[(Ht & _)|(Ht & _)]]]]; try done; by subst n.
    + split; [|done]. intros _. right; right; left. done.
  - destruct (Nat.eqb_spec n 64) as [Hn|Hn]; cbn [negb].
    + split.
      * intros Hinv. exfalso.
        eapply not_rejection_InvalidPacket; [|exact Hinv].
        apply HandleType3And4Packet_not_rejection.
      * intros [(?&?&?&?)|[(Ht & _)|[(Ht & _)|[(_ & Hl)|(Ht & _)]]]]; try done; by subst n.
    + split; [|done]. intros _. right; right; right; left. done.
  - destruct (Nat.ltb_spec n 32) as [Hn|Hn].
    + split; [|done]. intros _. right; right; right; right. done.
    + split.
      * intros Hinv. exfalso.
        eapply not_rejection_InvalidPacket; [|exact Hinv].
        apply HandleType3And4Packet_not_rejection.
      * intros [(?&?&?&?)|[(Ht & _)|[(Ht & _)|[(Ht & _)|(_ & Hl)]]]]; try done.
        subst n. lia.
Qed.

(** A rejected packet leaves the whole state as it was. *)
Lemma HandlePacket_rejected_unchanged ctx order now addr payload pm :
  is_InvalidPacket (fst (HandlePacket ctx order now addr payload pm)) = true
  \/ is_AuthenticationFailed (fst (HandlePacket ctx order now addr payload pm)) = true ->
  snd (HandlePacket ctx order now addr payload pm) = pm.
Proof.
  unfold HandlePacket.
  destruct (ctx_Err ctx) eqn:Hctx; [done|].
  destruct payload as [|t tl]; [done|].
  set (p := t :: tl). set (n := length p).
  assert (Hrej : forall r : option Error * PeerManager, not_rejection (fst r) ->
            is_InvalidPacket (fst r) = true \/ is_AuthenticationFailed (fst r) = true ->
            snd r = pm).
  { intros r [? ?] [?|?]; congruence. }
  destruct t; try done.
  - destruct (negb (n =? 148)%nat); [done|].
    destruct (CheckMAC1AndGetPublicKey ctx order p pm) as [e|pk]; [done|].
    apply Hrej, HandleType1Packet_not_rejection.
  - destruct (negb (n =? 92)%nat); [done|].
    destruct (CheckMAC1AndGetPublicKey ctx order p pm) as [e|pk]; [done|].
    apply Hrej, HandleType2Packet_not_rejection.
  - destruct (negb (n =? 64)%nat); [done|].
    apply Hrej, HandleType3And4Packet_not_rejection.
  - destruct (n <? 32)%nat; [done|].
    apply Hrej, HandleType3And4Packet_not_rejection.
Qed.

(** C8. When [HandlePacket] returns [InvalidPacket] or
    [AuthenticationFailed], the four mappings of the association table are
    what they were before the call (and so are the stored endpoints and the
    datagrams sent). *)
Theorem HandlePacket_rejected_no_mutation ctx order now addr payload pm :
  is_InvalidPacket (fst (HandlePacket ctx order now addr payload pm)) = true
  \/ is_AuthenticationFailed (fst (HandlePacket ctx order now addr payload pm)) = true ->
  PublicKeyToMac1KeyMap (snd (HandlePacket ctx order now addr payload pm))
    = PublicKeyToMac1KeyMap pm
  /\ PublicKeyToPairPublicKeysMap (snd (HandlePacket ctx order now addr payload pm))
    = PublicKeyToPairPublicKeysMap pm
  /\ PublicKeyToPeersMap (snd (HandlePacket ctx order now addr payload pm))
    = PublicKeyToPeersMap pm
  /\ ReceiverToPeerMap (snd (HandlePacket ctx order now addr payload pm))
    = ReceiverToPeerMap pm
  /\ heap (snd (HandlePacket ctx order now addr payload pm)) = heap pm
  /\ sent (snd (HandlePacket ctx order now addr payload pm)) = sent pm.
Proof.
  intros Hrej. by rewrite (HandlePacket_rejected_unchanged _ _ _ _ _ _ Hrej).
Qed.

(** ** The expiration sweep *)

(** A fold that rewrites or deletes only the entry it visits acts on every
    entry separately. *)
Lemma map_fold_pointwise {A}
    (f : list byte -> A -> gmap (list byte) A -> gmap (list byte) A)
    (g : list byte -> A -> option A) (b : gmap (list byte) A) :
  (forall i x acc, acc !! i = Some x -> f i x acc !! i = g i x) ->
  (forall i j x acc, i <> j -> f i x acc !! j = acc !! j) ->
  forall m, m ⊆ b ->
  forall k, map_fold f b m !! k = match m !! k with Some x => g k x | None => b !! k end.
Proof.
  intros Hat Hne m.
  apply (map_fold_weak_ind (fun r m' => m' ⊆ b ->
    forall k, r !! k = match m' !! k with Some x => g k x | None => b !! k end)).
  - intros _ k. by rewrite lookup_empty.
  - clear m. intros i x m r Hi IH Hsub k.
    assert (Hb : b !! i = Some x).
    { eapply lookup_weaken; [|exact Hsub]. apply lookup_insert_eq. }
    assert (Hm : m ⊆ b).
    { etrans; [|exact Hsub]. by apply insert_subseteq. }
    specialize (IH Hm).
    destruct (decide (i = k)) as [->|Hik].
    + rewrite lookup_insert_eq. apply Hat. by rewrite IH, Hi.
    + rewrite lookup_insert_ne by done. rewrite Hne by done. apply IH.
Qed.

Lemma CleanupPeers_invalid now pm :
  peerExpiration pm <= 0 ->
  CleanupPeers now pm = (Some (ErrInvalidPeerExpiration (peerExpiration pm)), pm).
Proof.
  intros Hle. unfold CleanupPeers.
  destruct (Z.leb_spec (peerExpiration pm) 0); [done|lia].
Qed.

(** What a sweep with a positive TTL leaves in each mapping. *)
Lemma CleanupPeers_valid now pm :
  0 < peerExpiration pm ->
  fst (CleanupPeers now pm) = None
  /\ (forall pk, PublicKeyToPeersMap (snd (CleanupPeers now pm)) !! pk =
        PublicKeyToPeersMap pm !! pk ≫= fun peers =>
          match List.filter (fresh_enough pm now) peers with
          | [] => None
          | remaining => Some remaining
          end)
  /\ (forall sid, ReceiverToPeerMap (snd (CleanupPeers now pm)) !! sid =
        ReceiverToPeerMap pm !! sid ≫= fun peer =>
          if fresh_enough pm now peer then Some peer else None)
  /\ PublicKeyToMac1KeyMap (snd (CleanupPeers now pm)) = PublicKeyToMac1KeyMap pm
  /\ PublicKeyToPairPublicKeysMap (snd (CleanupPeers now pm))
     = PublicKeyToPairPublicKeysMap pm
  /\ heap (snd (CleanupPeers now pm)) = heap pm
  /\ next_loc (snd (CleanupPeers now pm)) = next_loc pm
  /\ sent (snd (CleanupPeers now pm)) = sent pm
  /\ packetSender (snd (CleanupPeers now pm)) = packetSender pm
  /\ peerExpiration (snd (CleanupPeers now pm)) = peerExpiration pm.
Proof.
  intros Hpos. unfold CleanupPeers.
  destruct (Z.leb_spec (peerExpiration pm) 0); [lia|]. cbn.
  repeat split.
  - intros pk.
    rewrite (map_fold_pointwise _
      (fun _ peers => match List.filter (fresh_enough pm now) peers with
                      | [] => None | remaining => Some remaining end)); [| | |done].
    + by destruct (PublicKeyToPeersMap pm !! pk).
    + intros i x acc _. unfold fresh_enough.
      destruct (List.filter _ x); cbn; [apply lookup_delete_eq|apply lookup_insert_eq].
    + intros i j x acc Hij.
      destruct (length _ =? 0)%nat; [by apply lookup_delete_ne|by apply lookup_insert_ne].
  - intros sid.
    rewrite (map_fold_pointwise _
      (fun _ peer => if fresh_enough pm now peer then Some peer else None)); [| | |done].
    + by destruct (ReceiverToPeerMap pm !! sid).
    + intros i x acc Hacc. unfold fresh_enough.
      destruct (Z.geb_spec (time_Sub now (Timestamp (heap pm x))) (peerExpiration pm));
        destruct (Z.ltb_spec (time_Sub now (Timestamp (heap pm x))) (peerExpiration pm));
        try lia; [apply lookup_delete_eq|done].
    + intros i j x acc Hij.
      destruct (_ >=? _); [by apply lookup_delete_ne|done].
Qed.

Lemma fresh_enough_not_expired pm now pe :
  fresh_enough pm now pe = true <-> ~ expired pm now pe.
Proof. unfold fresh_enough, expired. rewrite Z.ltb_lt. lia. Qed.

(** C9. The sweep with a TTL that is not positive returns an error and
    leaves the state as it was.  With a positive TTL it returns no error
    and afterwards no endpoint with [now - last_seen >= peer_expiration] is
    in a list of [endpoints_by_pk] or in [endpoint_by_sid]; no list of
    [endpoints_by_pk] is empty, and a key all of whose endpoints were
    expired is no longer a key. *)
Theorem CleanupPeers_sweeps now pm :
  (peerExpiration pm <= 0 ->
     is_Some (fst (CleanupPeers now pm)) /\ snd (CleanupPeers now pm) = pm)
  /\ (0 < peerExpiration pm ->
      fst (CleanupPeers now pm) = None
      /\ (forall pk peers pe,
            PublicKeyToPeersMap (snd (CleanupPeers now pm)) !! pk = Some peers ->
            pe ∈ peers -> ~ expired (snd (CleanupPeers now pm)) now pe)
      /\ (forall sid pe,
            ReceiverToPeerMap (snd (CleanupPeers now pm)) !! sid = Some pe ->
            ~ expired (snd (CleanupPeers now pm)) now pe)
      /\ (forall pk peers,
            PublicKeyToPeersMap (snd (CleanupPeers now pm)) !! pk = Some peers ->
            peers <> [])
      /\ (forall pk peers,
            PublicKeyToPeersMap pm !! pk = Some peers ->
            (forall pe, pe ∈ peers -> expired pm now pe) ->
            PublicKeyToPeersMap (snd (CleanupPeers now pm)) !! pk = None)).
Proof.
  split.
  - intros Hle. rewrite (CleanupPeers_invalid _ _ Hle). split; [by eexists|done].
  - intros Hpos.
    destruct (CleanupPeers_valid now pm Hpos)
      as (Herr & Hpeers & Hrecv & _ & _ & Hheap & _ & _ & _ & Hexp).
    assert (Hexpired : forall pe, expired (snd (CleanupPeers now pm)) now pe
                                  <-> expired pm now pe).
    { intros pe. unfold expired. by rewrite Hheap, Hexp. }
    split; [done|]. repeat split.
    + intros pk peers pe Hpk Hin. rewrite Hexpired, <- fresh_enough_not_expired.
      rewrite Hpeers in Hpk.
      destruct (PublicKeyToPeersMap pm !! pk) as [peers0|]; [|done]. cbn in Hpk.
      assert (Hf : List.filter (fresh_enough pm now) peers0 = peers).
      { destruct (List.filter _ peers0); congruence. }
      apply list_elem_of_In in Hin. rewrite <- Hf in Hin.
      by apply filter_In in Hin as [_ ?].
    + intros sid pe Hsid. rewrite Hexpired, <- fresh_enough_not_expired.
      rewrite Hrecv in Hsid.
      destruct (ReceiverToPeerMap pm !! sid) as [pe0|]; [|done]. cbn in Hsid.
      destruct (fresh_enough pm now pe0) eqn:Hf; congruence.
    + intros pk peers Hpk ->. rewrite Hpeers in Hpk.
      destruct (PublicKeyToPeersMap pm !! pk) as [peers0|]; [|done]. cbn in Hpk.
      by destruct (List.filter _ peers0).
    + intros pk peers Hpk Hall. rewrite Hpeers, Hpk. cbn.
      destruct (List.filter (fresh_enough pm now) peers) as [|pe rest] eqn:Hf; [done|].
      assert (Hin : In pe (List.filter (fresh_enough pm now) peers)).
      { rewrite Hf. by left. }
      apply filter_In in Hin as [Hin Hfresh].
      apply fresh_enough_not_expired in Hfresh.
      destruct Hfresh. apply Hall. by apply list_elem_of_In.
Qed.

(** ** What the operations change *)

Create HintDb relay.

Lemma table_unchanged_refl pm : table_unchanged pm pm.
Proof. by repeat split. Qed.

#[local] Hint Resolve table_unchanged_refl : relay.

Lemma table_unchanged_trans pm1 pm2 pm3 :
  table_unchanged pm1 pm2 -> table_unchanged pm2 pm3 -> table_unchanged pm1 pm3.
Proof.
  unfold table_unchanged. intros (?&?&?&?&?&?&?&?) (?&?&?&?&?&?&?&?).
  repeat split; congruence.
Qed.

Lemma ForwardPacket_table ctx to payload pm :
  table_unchanged pm (snd (ForwardPacket ctx to payload pm)).
Proof.
  unfold ForwardPacket, call_SendPacket.
  destruct (ctx_Err ctx); [auto with relay|].
  by destruct (SendPacket _ _ _ _).
Qed.

Lemma forward_to_peers_table ctx peers payload pm :
  table_unchanged pm (snd (forward_to_peers ctx peers payload pm)).
Proof.
  revert pm. induction peers as [|peer rest IH]; intros pm;
    [auto with relay|].
  cbn [forward_to_peers].
  pose proof (ForwardPacket_table ctx (Addr (heap pm peer)) payload pm) as Hf.
  destruct (ForwardPacket ctx (Addr (heap pm peer)) payload pm) as [[err|] pm1]; [done|].
  eapply table_unchanged_trans; [exact Hf|apply IH].
Qed.

Lemma ForwardPacketToReceiver_table ctx receiverID payload pm :
  table_unchanged pm (snd (ForwardPacketToReceiver ctx receiverID payload pm)).
Proof.
  unfold ForwardPacketToReceiver.
  destruct (ctx_Err ctx); [auto with relay|].
  destruct (ReceiverToPeerMap pm !! receiverID); [|auto with relay].
  apply ForwardPacket_table.
Qed.

Lemma set_ReceiverToPeerMap_id pm senderID peer :
  ReceiverToPeerMap pm !! senderID = Some peer ->
  set_ReceiverToPeerMap (<[senderID := peer]> (ReceiverToPeerMap pm)) pm = pm.
Proof.
  intros Hpeer. unfold set_ReceiverToPeerMap. rewrite (insert_id _ _ _ Hpeer).
  by destruct pm.
Qed.

(** On a session index already in the table [AddPeerByPublicKey] changes
    nothing at all. *)
Lemma AddPeerByPublicKey_known ctx now addr senderID pk pm peer :
  ReceiverToPeerMap pm !! senderID = Some peer ->
  snd (AddPeerByPublicKey ctx now addr senderID pk pm) = pm.
Proof.
  intros Hpeer. unfold AddPeerByPublicKey.
  destruct (ctx_Err ctx); [done|]. rewrite Hpeer. cbn [snd].
  by apply set_ReceiverToPeerMap_id.
Qed.

Lemma AddPeerByPublicKey_effect ctx now addr senderID pk pm :
  sent (snd (AddPeerByPublicKey ctx now addr senderID pk pm)) = sent pm
  /\ (table_unchanged pm (snd (AddPeerByPublicKey ctx now addr senderID pk pm))
      \/ session_added pm (snd (AddPeerByPublicKey ctx now addr senderID pk pm))).
Proof.
  destruct (ReceiverToPeerMap pm !! senderID) as [peer|] eqn:Hpeer.
  { rewrite (AddPeerByPublicKey_known _ _ _ _ _ _ _ Hpeer).
    auto with relay. }
  unfold AddPeerByPublicKey.
  destruct (ctx_Err ctx); [auto with relay|].
  rewrite Hpeer.
  destruct (PublicKeyToPairPublicKeysMap pm !! pk) as [partners|];
    [|auto with relay].
  split; [by destruct partners as [|q [|]]|].
  right. exists senderID, {| Addr := addr; Timestamp := now |}.
  destruct partners as [|q [|q' rest]]; cbn; repeat split; eauto.
Qed.

Lemma AddPeerBySenderID_effect ctx now addr senderID pk pm :
  sent (snd (AddPeerBySenderID ctx now addr senderID pk pm)) = sent pm
  /\ (table_unchanged pm (snd (AddPeerBySenderID ctx now addr senderID pk pm))
      \/ session_added pm (snd (AddPeerBySenderID ctx now addr senderID pk pm))).
Proof.
  unfold AddPeerBySenderID.
  destruct (ctx_Err ctx); [auto with relay|].
  destruct (ReceiverToPeerMap pm !! senderID) as [peer|] eqn:Hpeer;
    [auto with relay|].
  split; [done|].
  right. exists senderID, {| Addr := addr; Timestamp := now |}.
  cbn; repeat split; eauto.
Qed.

Lemma session_added_then_unchanged pm1 pm2 pm3 :
  session_added pm1 pm2 -> table_unchanged pm2 pm3 -> session_added pm1 pm3.
Proof.
  intros (sid & peer & Hnone & Hrecv & Hpeers & Hmac & Hpair & Hheap & Hnext & Hs & He)
         (Hrecv' & Hpeers' & Hmac' & Hpair' & Hheap' & Hnext' & Hs' & He').
  exists sid, peer. rewrite Hrecv', Hpeers', Hmac', Hpair', Hheap', Hnext', Hs', He'.
  by repeat split.
Qed.

(** One call of [HandlePacket] either leaves the table as it was or adds
    one session. *)
Lemma HandlePacket_effect ctx order now addr payload pm :
  table_unchanged pm (snd (HandlePacket ctx order now addr payload pm))
  \/ session_added pm (snd (HandlePacket ctx order now addr payload pm)).
Proof.
  unfold HandlePacket.
  destruct (ctx_Err ctx) eqn:Hctx; [auto with relay|].
  destruct payload as [|t tl]; [auto with relay|].
  set (p := t :: tl). set (n := length p).
  destruct t; try (by auto with relay).
  - destruct (negb (n =? 148)%nat); [auto with relay|].
    destruct (CheckMAC1AndGetPublicKey ctx order p pm) as [e|pk];
      [auto with relay|].
    unfold HandleType1Packet. rewrite Hctx.
    destruct (AddPeerByPublicKey_effect ctx now addr (slice p 4 8) pk pm) as [_ Ha].
    destruct (AddPeerByPublicKey ctx now addr (slice p 4 8) pk pm) as [[err|] pm1];
      [done|]. cbn [snd] in Ha.
    unfold GetPublicKeyToPeers. rewrite Hctx.
    destruct (PublicKeyToPeersMap pm1 !! pk) as [peers|]; [|done].
    pose proof (forward_to_peers_table ctx peers p pm1) as Hf.
    destruct Ha as [Ha|Ha]; [left|right].
    + eapply table_unchanged_trans; eauto.
    + eapply session_added_then_unchanged; eauto.
  - destruct (negb (n =? 92)%nat); [auto with relay|].
    destruct (CheckMAC1AndGetPublicKey ctx order p pm) as [e|pk];
      [auto with relay|].
    unfold HandleType2Packet. rewrite Hctx.
    destruct (AddPeerBySenderID_effect ctx now addr (slice p 4 8) pk pm) as [_ Ha].
    destruct (AddPeerBySenderID ctx now addr (slice p 4 8) pk pm) as [[err|] pm1];
      [done|]. cbn [snd] in Ha.
    pose proof (ForwardPacketToReceiver_table ctx (slice p 8 12) p pm1) as Hf.
    destruct Ha as [Ha|Ha]; [left|right].
    + eapply table_unchanged_trans; eauto.
    + eapply session_added_then_unchanged; eauto.
  - destruct (negb (n =? 64)%nat); [auto with relay|].
    unfold HandleType3And4Packet. rewrite Hctx.
    left. apply ForwardPacketToReceiver_table.
  - destruct (n <? 32)%nat; [auto with relay|].
    unfold HandleType3And4Packet. rewrite Hctx.
    left. apply ForwardPacketToReceiver_table.
Qed.

(** ** [AppendUniqueValue] *)

Section AppendUnique.
Context {T : Type} `{Countable T} {V : Type}.
Implicit Types (m : gmap T (list V)) (equal : V -> V -> bool).

Lemma AppendUniqueValue_lookup_ne m key value equal j :
  key <> j -> AppendUniqueValue m key value equal !! j = m !! j.
Proof.
  intros Hne. unfold AppendUniqueValue.
  destruct (existsb _ _); [done|]. by apply lookup_insert_ne.
Qed.

Lemma AppendUniqueValue_lookup m key value equal :
  AppendUniqueValue m key value equal !! key =
    Some (if existsb (fun v => equal v value) (default [] (m !! key))
          then default [] (m !! key)
          else default [] (m !! key) ++ [value]).
Proof.
  unfold AppendUniqueValue.
  destruct (existsb _ _) eqn:Hex; [|apply lookup_insert_eq].
  destruct (m !! key); [done|discriminate].
Qed.

Lemma AppendUniqueValue_nonempty m key value equal l :
  AppendUniqueValue m key value equal !! key = Some l -> l <> [].
Proof.
  rewrite AppendUniqueValue_lookup. intros [= <-].
  destruct (existsb _ _) eqn:Hex.
  - by destruct (default [] (m !! key)).
  - by destruct (default [] (m !! key)).
Qed.

Lemma AppendUniqueValue_elem_of m key value equal j l x :
  AppendUniqueValue m key value equal !! j = Some l -> x ∈ l ->
  (m !! j = Some l) \/ (j = key /\ l = default [] (m !! key) ++ [value]).
Proof.
  destruct (decide (key = j)) as [<-|Hne].
  - rewrite AppendUniqueValue_lookup.
    destruct (existsb _ _); intros [= <-] Hin; [left|by right].
    destruct (m !! key); [done|]. by apply elem_of_nil in Hin.
  - rewrite AppendUniqueValue_lookup_ne by done. by left.
Qed.

End AppendUnique.

(** ** Invariants of a run *)

Lemma AddPublicKeyPair_table ctx pk1 pk2 pm :
  ReceiverToPeerMap (snd (AddPublicKeyPair ctx pk1 pk2 pm)) = ReceiverToPeerMap pm
  /\ PublicKeyToPeersMap (snd (AddPublicKeyPair ctx pk1 pk2 pm)) = PublicKeyToPeersMap pm
  /\ heap (snd (AddPublicKeyPair ctx pk1 pk2 pm)) = heap pm
  /\ next_loc (snd (AddPublicKeyPair ctx pk1 pk2 pm)) = next_loc pm
  /\ sent (snd (AddPublicKeyPair ctx pk1 pk2 pm)) = sent pm.
Proof. unfold AddPublicKeyPair. by destruct (ctx_Err ctx). Qed.

Lemma AddPublicKeyPair_mac1_keys_derived ctx pk1 pk2 pm :
  mac1_keys_derived pm -> mac1_keys_derived (snd (AddPublicKeyPair ctx pk1 pk2 pm)).
Proof.
  intros Hinv. unfold AddPublicKeyPair. destruct (ctx_Err ctx); [done|].
  intros pk k. cbn.
  rewrite lookup_insert. case_decide as H2; [by intros [= <-]; subst|].
  rewrite lookup_insert. case_decide as H1; [by intros [= <-]; subst|].
  apply Hinv.
Qed.

Lemma AddPublicKeyPair_admitted_keys_paired ctx pk1 pk2 pm :
  admitted_keys_paired pm -> admitted_keys_paired (snd (AddPublicKeyPair ctx pk1 pk2 pm)).
Proof.
  intros Hinv. unfold AddPublicKeyPair. destruct (ctx_Err ctx); [done|].
  intros pk. cbn. set (isEqual := fun a b : list byte => bool_decide (a = b)).
  set (m1 := AppendUniqueValue (PublicKeyToPairPublicKeysMap pm) pk1 pk2 isEqual).
  assert (Hm1 : forall j, (j = pk1 \/ is_Some (PublicKeyToMac1KeyMap pm !! j)) ->
            exists ps, m1 !! j = Some ps /\ ps <> []).
  { intros j Hj. destruct (decide (pk1 = j)) as [<-|Hne].
    - subst m1. rewrite AppendUniqueValue_lookup. eexists; split; [done|].
      eapply AppendUniqueValue_nonempty. apply AppendUniqueValue_lookup.
    - subst m1. rewrite AppendUniqueValue_lookup_ne by done.
      destruct Hj as [->|Hj]; [done|]. by apply Hinv. }
  intros Hpk.
  assert (Hcase : pk = pk2 \/ pk = pk1 \/ is_Some (PublicKeyToMac1KeyMap pm !! pk)).
  { rewrite lookup_insert in Hpk. case_decide; [by left|].
    rewrite lookup_insert in Hpk. case_decide; [by right; left|]. by right; right. }
  destruct (decide (pk2 = pk)) as [<-|Hne].
  - rewrite AppendUniqueValue_lookup. eexists; split; [done|].
    eapply AppendUniqueValue_nonempty. apply AppendUniqueValue_lookup.
  - rewrite AppendUniqueValue_lookup_ne by done. apply Hm1.
    destruct Hcase as [->|[->|?]]; [done|by left|by right].
Qed.

Lemma NewPeerManager_fold (P : PeerManager -> Prop) pairs pm :
  (forall pk1 pk2 pm, P pm -> P (snd (AddPublicKeyPair Background pk1 pk2 pm))) ->
  P pm ->
  P (foldl (fun pm pair =>
              snd (AddPublicKeyPair Background (PublicKey1 pair) (PublicKey2 pair) pm))
       pm pairs).
Proof.
  intros Hstep. revert pm. induction pairs as [|pair rest IH]; intros pm Hpm; [done|].
  cbn [foldl]. apply IH, Hstep, Hpm.
Qed.

Lemma CleanupPeers_config now pm :
  PublicKeyToMac1KeyMap (snd (CleanupPeers now pm)) = PublicKeyToMac1KeyMap pm
  /\ PublicKeyToPairPublicKeysMap (snd (CleanupPeers now pm))
     = PublicKeyToPairPublicKeysMap pm
  /\ heap (snd (CleanupPeers now pm)) = heap pm
  /\ next_loc (snd (CleanupPeers now pm)) = next_loc pm.
Proof.
  destruct (Z.le_gt_cases (peerExpiration pm) 0) as [Hle|Hgt].
  - by rewrite (CleanupPeers_invalid _ _ Hle).
  - destruct (CleanupPeers_valid now pm) as (_&_&_&?&?&?&?&_); [lia|done].
Qed.

(** What is in the table after a sweep was there before. *)
Lemma CleanupPeers_subset now pm :
  (forall sid pe, ReceiverToPeerMap (snd (CleanupPeers now pm)) !! sid = Some pe ->
     ReceiverToPeerMap pm !! sid = Some pe)
  /\ (forall pk peers pe,
        PublicKeyToPeersMap (snd (CleanupPeers now pm)) !! pk = Some peers -> pe ∈ peers ->
        exists peers0, PublicKeyToPeersMap pm !! pk = Some peers0 /\ pe ∈ peers0).
Proof.
  destruct (Z.le_gt_cases (peerExpiration pm) 0) as [Hle|Hgt].
  - rewrite (CleanupPeers_invalid _ _ Hle). eauto.
  - destruct (CleanupPeers_valid now pm) as (_&Hpeers&Hrecv&_); [lia|]. split.
    + intros sid pe. rewrite Hrecv.
      destruct (ReceiverToPeerMap pm !! sid) as [pe0|]; [|done]. cbn.
      destruct (fresh_enough pm now pe0); congruence.
    + intros pk peers pe. rewrite Hpeers.
      destruct (PublicKeyToPeersMap pm !! pk) as [peers0|]; [|done]. cbn.
      intros Hf Hin. exists peers0. split; [done|].
      assert (Hf' : List.filter (fresh_enough pm now) peers0 = peers).
      { destruct (List.filter _ peers0); congruence. }
      apply list_elem_of_In in Hin. rewrite <- Hf' in Hin.
      apply filter_In in Hin as [Hin _]. by apply list_elem_of_In.
Qed.

Lemma step_mac1_keys_derived pm pm' :
  step pm pm' -> mac1_keys_derived pm -> mac1_keys_derived pm'.
Proof.
  intros [ctx pk1 pk2 pm0|ctx order now addr payload pm0 _|now pm0] Hinv.
  - by apply AddPublicKeyPair_mac1_keys_derived.
  - unfold mac1_keys_derived.
    destruct (HandlePacket_effect ctx order now addr payload pm0)
      as [(_&_&->&_)|(?&?&_&_&_&->&_)]; done.
  - unfold mac1_keys_derived.
    by destruct (CleanupPeers_config now pm0) as (->&_).
Qed.

Lemma step_admitted_keys_paired pm pm' :
  step pm pm' -> admitted_keys_paired pm -> admitted_keys_paired pm'.
Proof.
  intros [ctx pk1 pk2 pm0|ctx order now addr payload pm0 _|now pm0] Hinv.
  - by apply AddPublicKeyPair_admitted_keys_paired.
  - unfold admitted_keys_paired.
    destruct (HandlePacket_effect ctx order now addr payload pm0)
      as [(_&_&->&->&_)|(?&?&_&_&_&->&->&_)]; done.
  - unfold admitted_keys_paired.
    by destruct (CleanupPeers_config now pm0) as (->&->&_).
Qed.

Lemma session_added_locs_allocated pm pm' :
  session_added pm pm' -> locs_allocated pm -> locs_allocated pm'.
Proof.
  intros (sid & peer & Hnone & Hrecv & Hpeers & _ & _ & _ & Hnext & _) [Hr Hp].
  unfold locs_allocated. rewrite Hrecv, Hnext. split.
  - intros sid' pe. rewrite lookup_insert. case_decide.
    + intros [= <-]. lia.
    + intros Hsid'. apply Hr in Hsid'. lia.
  - intros pk peers pe Hpk Hin.
    destruct Hpeers as [Hpeers|[q Hpeers]]; rewrite Hpeers in Hpk.
    + specialize (Hp _ _ _ Hpk Hin). lia.
    + destruct (AppendUniqueValue_elem_of _ _ _ _ _ _ _ Hpk Hin) as [Hold|[-> ->]].
      * specialize (Hp _ _ _ Hold Hin). lia.
      * apply elem_of_app in Hin as [Hin|Hin].
        -- destruct (PublicKeyToPeersMap pm !! q) as [l0|] eqn:Hq;
             [|by apply elem_of_nil in Hin].
           specialize (Hp _ _ _ Hq Hin). lia.
        -- apply list_elem_of_singleton in Hin as ->. lia.
Qed.

Lemma step_locs_allocated pm pm' :
  step pm pm' -> locs_allocated pm -> locs_allocated pm'.
Proof.
  intros [ctx pk1 pk2 pm0|ctx order now addr payload pm0 _|now pm0] Hinv.
  - unfold locs_allocated.
    by destruct (AddPublicKeyPair_table ctx pk1 pk2 pm0) as (->&->&_&->&_).
  - destruct (HandlePacket_effect ctx order now addr payload pm0) as [Hu|Ha].
    + unfold locs_allocated. by destruct Hu as (->&->&_&_&_&->&_).
    + by eapply session_added_locs_allocated.
  - destruct Hinv as [Hr Hp].
    destruct (CleanupPeers_subset now pm0) as [Hsr Hsp].
    destruct (CleanupPeers_config now pm0) as (_&_&_&Hnext).
    split; rewrite Hnext.
    + intros sid pe Hsid. eauto.
    + intros pk peers pe Hpk Hin.
      destruct (Hsp _ _ _ Hpk Hin) as (peers0 & Hpk0 & Hin0). eauto.
Qed.

Lemma session_added_pk_lists_in_sid_entries pm pm' :
  session_added pm pm' -> pk_lists_in_sid_entries pm -> pk_lists_in_sid_entries pm'.
Proof.
  intros (sid & peer & Hnone & Hrecv & Hpeers & _) Hinv.
  assert (Hold : forall pe sid', ReceiverToPeerMap pm !! sid' = Some pe ->
            exists sid'', ReceiverToPeerMap pm' !! sid'' = Some pe).
  { intros pe sid' Hsid'. exists sid'. rewrite Hrecv, lookup_insert_ne; [done|].
    intros ->. congruence. }
  assert (Hnew : exists sid'', ReceiverToPeerMap pm' !! sid'' = Some (next_loc pm)).
  { exists sid. by rewrite Hrecv, lookup_insert_eq. }
  intros pk peers pe Hpk Hin.
  destruct Hpeers as [Hpeers|[q Hpeers]]; rewrite Hpeers in Hpk.
  - destruct (Hinv _ _ _ Hpk Hin) as [sid' Hsid']. eauto.
  - destruct (AppendUniqueValue_elem_of _ _ _ _ _ _ _ Hpk Hin) as [Hpk0|[-> ->]].
    + destruct (Hinv _ _ _ Hpk0 Hin) as [sid' Hsid']. eauto.
    + apply elem_of_app in Hin as [Hin|Hin].
      * destruct (PublicKeyToPeersMap pm !! q) as [l0|] eqn:Hq;
          [|by apply elem_of_nil in Hin].
        destruct (Hinv _ _ _ Hq Hin) as [sid' Hsid']. eauto.
      * by apply list_elem_of_singleton in Hin as ->.
Qed.

Lemma CleanupPeers_pk_lists_in_sid_entries now pm :
  pk_lists_in_sid_entries pm -> pk_lists_in_sid_entries (snd (CleanupPeers now pm)).
Proof.
  intros Hinv.
  destruct (Z.le_gt_cases (peerExpiration pm) 0) as [Hle|Hgt].
  { by rewrite (CleanupPeers_invalid _ _ Hle). }
  destruct (CleanupPeers_valid now pm) as (_&Hpeers&Hrecv&_); [lia|].
  intros pk peers pe Hpk Hin. rewrite Hpeers in Hpk.
  destruct (PublicKeyToPeersMap pm !! pk) as [peers0|] eqn:Hpk0; [|done]. cbn in Hpk.
  assert (Hf : List.filter (fresh_enough pm now) peers0 = peers).
  { destruct (List.filter _ peers0); congruence. }
  apply list_elem_of_In in Hin. rewrite <- Hf in Hin.
  apply filter_In in Hin as [Hin Hfresh]. apply list_elem_of_In in Hin.
  destruct (Hinv _ _ _ Hpk0 Hin) as [sid Hsid].
  exists sid. by rewrite Hrecv, Hsid; cbn; rewrite Hfresh.
Qed.

Lemma AddPublicKeyPair_pk_lists_in_sid_entries ctx pk1 pk2 pm :
  pk_lists_in_sid_entries pm ->
  pk_lists_in_sid_entries (snd (AddPublicKeyPair ctx pk1 pk2 pm)).
Proof.
  unfold pk_lists_in_sid_entries.
  by destruct (AddPublicKeyPair_table ctx pk1 pk2 pm) as (->&->&_).
Qed.

Lemma AddPublicKeyPair_locs_allocated ctx pk1 pk2 pm :
  locs_allocated pm -> locs_allocated (snd (AddPublicKeyPair ctx pk1 pk2 pm)).
Proof.
  unfold locs_allocated.
  by destruct (AddPublicKeyPair_table ctx pk1 pk2 pm) as (->&->&_&->&_).
Qed.

Lemma NewPeerManager_pk_lists_in_sid_entries sender pairs expiration :
  pk_lists_in_sid_entries (NewPeerManager sender pairs expiration).
Proof.
  unfold NewPeerManager.
  apply (NewPeerManager_fold pk_lists_in_sid_entries).
  - intros. by apply AddPublicKeyPair_pk_lists_in_sid_entries.
  - intros pk peers pe Hpk. cbn in Hpk. by rewrite lookup_empty in Hpk.
Qed.

Lemma step_keeps_pk_lists_covered pm pm' :
  step pm pm' -> pk_lists_in_sid_entries pm -> pk_lists_in_sid_entries pm'.
Proof.
  intros Hstep.
  destruct Hstep as [ctx pk1 pk2 pm0|ctx order now addr payload pm0 _|now pm0];
    intros Hinv.
  - by apply AddPublicKeyPair_pk_lists_in_sid_entries.
  - destruct (HandlePacket_effect ctx order now addr payload pm0) as [Hu|Ha].
    + unfold pk_lists_in_sid_entries. by destruct Hu as (->&->&_).
    + by eapply session_added_pk_lists_in_sid_entries.
  - by apply CleanupPeers_pk_lists_in_sid_entries.
Qed.

(** The invariants of every state of a run. *)
Lemma reachable_invariants pm :
  reachable pm ->
  mac1_keys_derived pm /\ admitted_keys_paired pm /\ locs_allocated pm
  /\ pk_lists_in_sid_entries pm.
Proof.
  induction 1 as [sender pairs expiration|pm pm' _ (I1 & I2 & I3 & I4) Hstep].
  - repeat split.
    + unfold NewPeerManager. apply (NewPeerManager_fold mac1_keys_derived).
      * intros. by apply AddPublicKeyPair_mac1_keys_derived.
      * intros pk k Hpk. cbn in Hpk. by rewrite lookup_empty in Hpk.
    + unfold NewPeerManager. apply (NewPeerManager_fold admitted_keys_paired).
      * intros. by apply AddPublicKeyPair_admitted_keys_paired.
      * intros pk Hpk. cbn in Hpk. rewrite lookup_empty in Hpk. by destruct Hpk.
    + unfold NewPeerManager.
      apply (NewPeerManager_fold (fun pm => forall sid pe,
               ReceiverToPeerMap pm !! sid = Some pe -> (pe < next_loc pm)%nat)).
      * intros pk1 pk2 pm0.
        by destruct (AddPublicKeyPair_table Background pk1 pk2 pm0) as (->&_&_&->&_).
      * intros sid pe Hsid. cbn in Hsid. by rewrite lookup_empty in Hsid.
    + unfold NewPeerManager.
      apply (NewPeerManager_fold (fun pm => forall pk peers pe,
               PublicKeyToPeersMap pm !! pk = Some peers -> pe ∈ peers ->
               (pe < next_loc pm)%nat)).
      * intros pk1 pk2 pm0.
        by destruct (AddPublicKeyPair_table Background pk1 pk2 pm0) as (_&->&_&->&_).
      * intros pk peers pe Hpk. cbn in Hpk. by rewrite lookup_empty in Hpk.
    + apply NewPeerManager_pk_lists_in_sid_entries.
  - repeat split.
    + by eapply step_mac1_keys_derived.
    + by eapply step_admitted_keys_paired.
    + by eapply step_locs_allocated.
    + by eapply step_locs_allocated.
    + by eapply step_keeps_pk_lists_covered.
Qed.

(** C4, amended.  Every operation on the table ([AddPublicKeyPair],
    [HandlePacket], [CleanupPeers]) preserves the invariant that every
    endpoint in a list of [endpoints_by_pk] is the endpoint of some entry of
    [endpoint_by_sid]. *)
Theorem step_pk_lists_in_sid_entries pm pm' :
  pk_lists_in_sid_entries pm -> step pm pm' -> pk_lists_in_sid_entries pm'.
Proof. intros Hinv Hstep. by apply (step_keeps_pk_lists_covered pm pm'). Qed.

(** ** The authenticator *)

Lemma range_order_elem_of {V} (order : list (list byte)) (m : gmap (list byte) V)
    (pk : list byte) :
  range_order order m -> pk ∈ order <-> is_Some (m !! pk).
Proof.
  unfold range_order. intros ->. rewrite list_elem_of_fmap. split.
  - intros ([pk' v] & -> & Hin). apply elem_of_map_to_list in Hin. by eexists.
  - intros [v Hv]. exists (pk, v). split; [done|]. by apply elem_of_map_to_list.
Qed.

Lemma mac1_equal_matches pk payload :
  (32 <= length payload)%nat ->
  mac1_equal (CalculateMac1Key pk) payload = true <-> mac1_matches pk payload.
Proof.
  intros Hlen. unfold mac1_equal, mac1_matches, CalculateMac1Key, WGLabelMAC1, slice.
  rewrite bool_decide_eq_true.
  replace (length payload - 16 - 16)%nat with (length payload - 32)%nat by lia.
  replace (length payload - 16 - (length payload - 32))%nat with 16%nat by lia.
  done.
Qed.

(** C2. In a state of a run, for a payload of 148 or 92 bytes, the MAC1
    authenticator returns a public key exactly when some admitted key [pk]
    satisfies BLAKE2s-128(key = BLAKE2s-256("mac1----" ‖ pk),
    p[0..len−32]) = p[len−32..len−16]; the key it returns is an admitted key
    that satisfies this equation; and when no admitted key does, it returns
    [AuthenticationFailed]. *)
Theorem CheckMAC1AndGetPublicKey_correct ctx order payload pm :
  reachable pm ->
  ctx_Err ctx = None ->
  range_order order (PublicKeyToMac1KeyMap pm) ->
  length payload = 148%nat \/ length payload = 92%nat ->
  (forall pk, CheckMAC1AndGetPublicKey ctx order payload pm = inr pk ->
     admitted pm pk /\ mac1_matches pk payload)
  /\ ((exists pk, CheckMAC1AndGetPublicKey ctx order payload pm = inr pk)
      <-> (exists pk, admitted pm pk /\ mac1_matches pk payload))
  /\ ((forall pk, admitted pm pk -> ~ mac1_matches pk payload) ->
      exists details,
        CheckMAC1AndGetPublicKey ctx order payload pm
        = inl (ErrAuthenticationFailed details)).
Proof.
  intros Hreach Hctx Horder Hlen.
  destruct (reachable_invariants pm Hreach) as (Hderived & _).
  assert (Hlen32 : (32 <= length payload)%nat) by lia.
  unfold CheckMAC1AndGetPublicKey. rewrite Hctx.
  assert (Hsound : forall pk,
            mac1_scan order (PublicKeyToMac1KeyMap pm) payload = inr pk ->
            admitted pm pk /\ mac1_matches pk payload).
  { intros pk Hscan. apply mac1_scan_inr in Hscan as (_ & k & Hk & Heq).
    split; [by eexists|].
    apply mac1_equal_matches; [done|]. by rewrite <- (Hderived _ _ Hk). }
  assert (Hcomplete : forall e,
            mac1_scan order (PublicKeyToMac1KeyMap pm) payload = inl e ->
            e = NewAuthenticationFailedError "mac1 verification failed"
            /\ forall pk, admitted pm pk -> ~ mac1_matches pk payload).
  { intros e Hscan. apply mac1_scan_inl in Hscan as [-> Hnone]. split; [done|].
    intros pk [k Hk] Hmatch.
    assert (Hin : pk ∈ order).
    { apply (range_order_elem_of _ _ _ Horder). by eexists. }
    specialize (Hnone _ _ Hin Hk).
    rewrite (Hderived _ _ Hk) in Hnone.
    apply mac1_equal_matches in Hmatch; [congruence|done]. }
  split; [exact Hsound|]. split.
  - split.
    + intros [pk Hscan]. exists pk. by apply Hsound.
    + intros (pk & Hadm & Hmatch).
      destruct (mac1_scan order (PublicKeyToMac1KeyMap pm) payload) as [e|pk'] eqn:Hscan;
        [|by eexists].
      destruct (Hcomplete e eq_refl) as [_ Hnone]. by destruct (Hnone pk).
  - intros Hnone.
    destruct (mac1_scan order (PublicKeyToMac1KeyMap pm) payload) as [e|pk'] eqn:Hscan.
    + destruct (Hcomplete e eq_refl) as [-> _]. by eexists.
    + destruct (Hsound pk' eq_refl) as [Hadm Hmatch]. by destruct (Hnone pk').
Qed.

(** ** Admitted keys have partners *)

(** C10. In every state of a run (from [NewPeerManager] on), every key of
    [PublicKeyToMac1KeyMap] is a key of [PublicKeyToPairPublicKeysMap] with
    a non-empty list of partners; hence for a key returned by the MAC1
    authenticator, [AddPeerByPublicKey] never returns [PeerNotFound]. *)
Theorem reachable_admitted_keys_paired pm :
  reachable pm ->
  admitted_keys_paired pm
  /\ (forall ctx order payload pk,
        CheckMAC1AndGetPublicKey ctx order payload pm = inr pk ->
        forall ctx' now addr senderID,
          is_PeerNotFound (fst (AddPeerByPublicKey ctx' now addr senderID pk pm)) = false).
Proof.
  intros Hreach.
  destruct (reachable_invariants pm Hreach) as (_ & Hpaired & _).
  split; [done|].
  intros ctx order payload pk Hcheck ctx' now addr senderID.
  destruct (Hpaired pk (CheckMAC1AndGetPublicKey_admitted _ _ _ _ _ Hcheck))
    as (partners & Hpartners & _).
  unfold AddPeerByPublicKey.
  destruct (ctx_Err ctx'); [done|].
  destruct (ReceiverToPeerMap pm !! senderID); [done|].
  by rewrite Hpartners.
Qed.

(** ** Handling handshake messages *)

Lemma HandlePacket_Type1 ctx order now addr payload pm pk :
  ctx_Err ctx = None ->
  length payload = 148%nat -> head payload = Some x01 ->
  CheckMAC1AndGetPublicKey ctx order payload pm = inr pk ->
  HandlePacket ctx order now addr payload pm
  = HandleType1Packet ctx now addr (slice payload 4 8) pk payload pm.
Proof.
  intros Hctx Hlen Hhead Hcheck. unfold HandlePacket. rewrite Hctx.
  destruct payload as [|t tl]; [done|]. injection Hhead as ->.
  by rewrite Hlen, Hcheck.
Qed.

Lemma HandlePacket_Type2 ctx order now addr payload pm pk :
  ctx_Err ctx = None ->
  length payload = 92%nat -> head payload = Some x02 ->
  CheckMAC1AndGetPublicKey ctx order payload pm = inr pk ->
  HandlePacket ctx order now addr payload pm
  = HandleType2Packet ctx now addr (slice payload 4 8) (slice payload 8 12) pk payload pm.
Proof.
  intros Hctx Hlen Hhead Hcheck. unfold HandlePacket. rewrite Hctx.
  destruct payload as [|t tl]; [done|]. injection Hhead as ->.
  by rewrite Hlen, Hcheck.
Qed.

(** [AddPeerByPublicKey] on a session index not in the table, for a key
    with a list of partners. *)
Lemma AddPeerByPublicKey_new ctx now addr senderID pk pm partners :
  ctx_Err ctx = None ->
  ReceiverToPeerMap pm !! senderID = None ->
  PublicKeyToPairPublicKeysMap pm !! pk = Some partners ->
  forall pm1, pm1 = snd (AddPeerByPublicKey ctx now addr senderID pk pm) ->
  fst (AddPeerByPublicKey ctx now addr senderID pk pm) = None
  /\ ReceiverToPeerMap pm1 = <[senderID := next_loc pm]> (ReceiverToPeerMap pm)
  /\ heap pm1 = (fun l => if Nat.eqb l (next_loc pm)
                          then {| Addr := addr; Timestamp := now |} else heap pm l)
  /\ next_loc pm1 = S (next_loc pm)
  /\ PublicKeyToPeersMap pm1 =
       match partners with
       | [partner] =>
         AppendUniqueValue (PublicKeyToPeersMap pm) partner (next_loc pm)
           (peer_isEqual (heap pm1))
       | _ => PublicKeyToPeersMap pm
       end
  /\ PublicKeyToMac1KeyMap pm1 = PublicKeyToMac1KeyMap pm
  /\ PublicKeyToPairPublicKeysMap pm1 = PublicKeyToPairPublicKeysMap pm
  /\ packetSender pm1 = packetSender pm
  /\ sent pm1 = sent pm.
Proof.
  intros Hctx Hnone Hpartners pm1 ->. unfold AddPeerByPublicKey.
  rewrite Hctx, Hnone, Hpartners.
  by destruct partners as [|partner [|partner' rest]].
Qed.

Lemma HandleType1Packet_forward ctx now addr senderID pk payload pm :
  ctx_Err ctx = None ->
  fst (AddPeerByPublicKey ctx now addr senderID pk pm) = None ->
  forall pm1, pm1 = snd (AddPeerByPublicKey ctx now addr senderID pk pm) ->
  HandleType1Packet ctx now addr senderID pk payload pm =
    match PublicKeyToPeersMap pm1 !! pk with
    | Some peers => forward_to_peers ctx peers payload pm1
    | None => (None, pm1)
    end.
Proof.
  intros Hctx Hadd pm1 ->. unfold HandleType1Packet. rewrite Hctx.
  destruct (AddPeerByPublicKey ctx now addr senderID pk pm) as [[err|] pm1]; [done|].
  unfold GetPublicKeyToPeers. rewrite Hctx. cbn [snd].
  by destruct (PublicKeyToPeersMap pm1 !! pk).
Qed.

Lemma AddPeerByPublicKey_known_eq ctx now addr senderID pk pm (peer : loc) :
  ctx_Err ctx = None ->
  ReceiverToPeerMap pm !! senderID = Some peer ->
  AddPeerByPublicKey ctx now addr senderID pk pm = (None, pm).
Proof.
  intros Hctx Hpeer.
  pose proof (AddPeerByPublicKey_known ctx now addr senderID pk pm peer Hpeer) as Hsnd.
  unfold AddPeerByPublicKey in *. rewrite Hctx, Hpeer in *. cbn [snd] in Hsnd.
  by rewrite Hsnd.
Qed.

(** Handling an authenticated Initiation is [AddPeerByPublicKey] followed,
    when it succeeds, by calls of [SendPacket] only. *)
Lemma HandlePacket_Initiation ctx order now addr payload pm pk :
  ctx_Err ctx = None ->
  length payload = 148%nat -> head payload = Some x01 ->
  CheckMAC1AndGetPublicKey ctx order payload pm = inr pk ->
  fst (AddPeerByPublicKey ctx now addr (slice payload 4 8) pk pm) = None ->
  table_unchanged (snd (AddPeerByPublicKey ctx now addr (slice payload 4 8) pk pm))
    (snd (HandlePacket ctx order now addr payload pm)).
Proof.
  intros Hctx Hlen Hhead Hcheck Hadd.
  rewrite (HandlePacket_Type1 _ _ _ _ _ _ _ Hctx Hlen Hhead Hcheck).
  rewrite (HandleType1Packet_forward _ _ _ _ _ _ _ Hctx Hadd _ eq_refl).
  destruct (PublicKeyToPeersMap _ !! pk);
    [apply forward_to_peers_table|apply table_unchanged_refl].
Qed.

Lemma ForwardPacket_sent ctx to payload pm :
  ctx_Err ctx = None ->
  sent (snd (ForwardPacket ctx to payload pm)) = sent pm ++ [(to, payload)]
  /\ (SendPacket (packetSender pm) (sent pm) to payload = None ->
      fst (ForwardPacket ctx to payload pm) = None).
Proof.
  intros Hctx. unfold ForwardPacket, call_SendPacket. rewrite Hctx.
  by destruct (SendPacket _ _ _ _).
Qed.

Lemma ForwardPacketToReceiver_found ctx receiverID payload pm peer :
  ctx_Err ctx = None ->
  ReceiverToPeerMap pm !! receiverID = Some peer ->
  sent (snd (ForwardPacketToReceiver ctx receiverID payload pm))
  = sent pm ++ [(Addr (heap pm peer), payload)]
  /\ (SendPacket (packetSender pm) (sent pm) (Addr (heap pm peer)) payload = None ->
      fst (ForwardPacketToReceiver ctx receiverID payload pm) = None).
Proof.
  intros Hctx Hpeer. unfold ForwardPacketToReceiver. rewrite Hctx, Hpeer.
  by apply ForwardPacket_sent.
Qed.

(** C3, amended.  For an authenticated Initiation whose sender index
    already has an entry in [endpoint_by_sid], handling the packet leaves
    the entry as it was: it holds the same endpoint, whose address is not
    replaced (whatever the source address of the packet) and whose
    [last_seen] is the time it had, not [now]. *)
Theorem Initiation_known_sid_entry_unchanged ctx order now addr payload pm pk (pe : loc) :
  ctx_Err ctx = None ->
  length payload = 148%nat -> head payload = Some x01 ->
  CheckMAC1AndGetPublicKey ctx order payload pm = inr pk ->
  ReceiverToPeerMap pm !! slice payload 4 8 = Some pe ->
  ReceiverToPeerMap (snd (HandlePacket ctx order now addr payload pm))
    !! slice payload 4 8 = Some pe
  /\ Addr (heap (snd (HandlePacket ctx order now addr payload pm)) pe)
     = Addr (heap pm pe)
  /\ Timestamp (heap (snd (HandlePacket ctx order now addr payload pm)) pe)
     = Timestamp (heap pm pe).
Proof.
  intros Hctx Hlen Hhead Hcheck Hpe.
  pose proof (AddPeerByPublicKey_known_eq ctx now addr _ pk pm pe Hctx Hpe) as Hadd.
  pose proof (HandlePacket_Initiation ctx order now addr payload pm pk
                Hctx Hlen Hhead Hcheck (f_equal fst Hadd)) as Htable.
  rewrite Hadd in Htable. cbn [snd] in Htable.
  by destruct Htable as (-> & _ & _ & _ & -> & _).
Qed.

(** C5. After handling an authenticated Initiation whose sender index is
    not in [endpoint_by_sid], the new endpoint (source address, [now]) is
    stored under that index.  When the authenticated key has exactly one
    partner, the endpoint is appended to [endpoints_by_pk[partner]] unless
    an endpoint with the same address string is already there, so that the
    list has an endpoint with that address; when it has several partners
    [endpoints_by_pk] is left as it was; and the new endpoint is in a list
    of [endpoints_by_pk] only if the key has exactly one partner, whose list
    it is. *)
Theorem Initiation_new_sid_recorded ctx order now addr payload pm pk :
  reachable pm ->
  ctx_Err ctx = None ->
  length payload = 148%nat -> head payload = Some x01 ->
  CheckMAC1AndGetPublicKey ctx order payload pm = inr pk ->
  ReceiverToPeerMap pm !! slice payload 4 8 = None ->
  forall pm', pm' = snd (HandlePacket ctx order now addr payload pm) ->
  ReceiverToPeerMap pm' !! slice payload 4 8 = Some (next_loc pm)
  /\ heap pm' (next_loc pm) = {| Addr := addr; Timestamp := now |}
  /\ (forall partner,
        PublicKeyToPairPublicKeysMap pm !! pk = Some [partner] ->
        PublicKeyToPeersMap pm'
        = AppendUniqueValue (PublicKeyToPeersMap pm) partner (next_loc pm)
            (peer_isEqual (heap pm'))
        /\ exists peers pe,
             PublicKeyToPeersMap pm' !! partner = Some peers /\ pe ∈ peers
             /\ UDPAddr_String (Addr (heap pm' pe)) = UDPAddr_String addr)
  /\ ((forall partner, PublicKeyToPairPublicKeysMap pm !! pk <> Some [partner]) ->
      PublicKeyToPeersMap pm' = PublicKeyToPeersMap pm)
  /\ (forall k peers,
        PublicKeyToPeersMap pm' !! k = Some peers -> next_loc pm ∈ peers ->
        PublicKeyToPairPublicKeysMap pm !! pk = Some [k]).
Proof.
  intros Hreach Hctx Hlen Hhead Hcheck Hnone pm' ->.
  destruct (reachable_invariants pm Hreach) as (_ & Hpaired & [_ Halloc] & _).
  destruct (Hpaired pk (CheckMAC1AndGetPublicKey_admitted _ _ _ _ _ Hcheck))
    as (partners & Hpartners & _).
  destruct (AddPeerByPublicKey_new ctx now addr _ pk pm partners Hctx Hnone Hpartners
              _ eq_refl)
    as (Hadd & Hrecv & Hheap & _ & Hpeers & _).
  pose proof (HandlePacket_Initiation ctx order now addr payload pm pk
                Hctx Hlen Hhead Hcheck Hadd) as Htable.
  set (pm1 := snd (AddPeerByPublicKey ctx now addr (slice payload 4 8) pk pm)) in *.
  destruct Htable as (-> & -> & _ & _ & -> & _).
  assert (Hnew : heap pm1 (next_loc pm) = {| Addr := addr; Timestamp := now |}).
  { by rewrite Hheap, Nat.eqb_refl. }
  split; [by rewrite Hrecv, lookup_insert_eq|]. split; [done|].
  rewrite Hpeers, Hpartners. split; [|split].
  - intros partner [= ->]. split; [done|].
    rewrite AppendUniqueValue_lookup.
    destruct (existsb _ _) eqn:Hex.
    + apply existsb_exists in Hex as (pe & Hin & Heq).
      exists (default [] (PublicKeyToPeersMap pm !! partner)), pe.
      split; [done|]. split; [by apply list_elem_of_In|].
      unfold peer_isEqual in Heq. apply bool_decide_eq_true in Heq.
      by rewrite Heq, Hnew.
    + eexists _, (next_loc pm). split; [done|].
      split; [apply elem_of_app; right; by apply list_elem_of_singleton|].
      by rewrite Hnew.
  - intros Hmany. destruct partners as [|partner [|partner' rest]]; [done| |done].
    by destruct (Hmany partner).
  - intros k peers Hk Hin.
    destruct partners as [|partner [|partner' rest]].
    + specialize (Halloc _ _ _ Hk Hin). lia.
    + destruct (AppendUniqueValue_elem_of _ _ _ _ _ _ _ Hk Hin) as [Hold|[-> _]];
        [|done].
      specialize (Halloc _ _ _ Hold Hin). lia.
    + specialize (Halloc _ _ _ Hk Hin). lia.
Qed.

Lemma AddPeerBySenderID_keeps ctx now addr senderID pk pm receiverID (pe : loc) :
  ctx_Err ctx = None ->
  ReceiverToPeerMap pm !! receiverID = Some pe ->
  (pe < next_loc pm)%nat ->
  fst (AddPeerBySenderID ctx now addr senderID pk pm) = None
  /\ ReceiverToPeerMap (snd (AddPeerBySenderID ctx now addr senderID pk pm)) !! receiverID
     = Some pe
  /\ heap (snd (AddPeerBySenderID ctx now addr senderID pk pm)) pe = heap pm pe
  /\ sent (snd (AddPeerBySenderID ctx now addr senderID pk pm)) = sent pm
  /\ packetSender (snd (AddPeerBySenderID ctx now addr senderID pk pm)) = packetSender pm.
Proof.
  intros Hctx Hpe Hlt. unfold AddPeerBySenderID. rewrite Hctx.
  destruct (ReceiverToPeerMap pm !! senderID) as [peer|] eqn:Hsender; [done|].
  cbn. repeat split.
  - rewrite lookup_insert_ne; [done|]. intros ->. rewrite Hsender in Hpe. discriminate.
  - destruct (Nat.eqb_spec pe (next_loc pm)); [lia|done].
Qed.

(** The endpoint under the sender index of an authenticated Initiation
    once it is handled: the one that was there, or a new one with the
    source address of the packet. *)
Lemma Initiation_sid_entry ctx order now addr payload pm pk :
  reachable pm ->
  ctx_Err ctx = None ->
  length payload = 148%nat -> head payload = Some x01 ->
  CheckMAC1AndGetPublicKey ctx order payload pm = inr pk ->
  forall pm1, pm1 = snd (HandlePacket ctx order now addr payload pm) ->
  exists pe : loc,
    ReceiverToPeerMap pm1 !! slice payload 4 8 = Some pe
    /\ (pe < next_loc pm1)%nat
    /\ (ReceiverToPeerMap pm !! slice payload 4 8 = None ->
        heap pm1 pe = {| Addr := addr; Timestamp := now |})
    /\ (forall pe0 : loc, ReceiverToPeerMap pm !! slice payload 4 8 = Some pe0 ->
        pe = pe0 /\ heap pm1 pe = heap pm pe0).
Proof.
  intros Hreach Hctx Hlen Hhead Hcheck pm1 ->.
  destruct (reachable_invariants pm Hreach) as (_ & Hpaired & [Halloc _] & _).
  destruct (ReceiverToPeerMap pm !! slice payload 4 8) as [pe0|] eqn:Hsid.
  - pose proof (AddPeerByPublicKey_known_eq ctx now addr _ pk pm pe0 Hctx Hsid) as Hadd.
    pose proof (HandlePacket_Initiation ctx order now addr payload pm pk
                  Hctx Hlen Hhead Hcheck (f_equal fst Hadd)) as Htable.
    rewrite Hadd in Htable. cbn [snd] in Htable.
    destruct Htable as (-> & _ & _ & _ & -> & -> & _).
    exists pe0. split; [done|]. split; [by eapply Halloc|].
    split; [done|]. by intros pe [= ->].
  - destruct (Hpaired pk (CheckMAC1AndGetPublicKey_admitted _ _ _ _ _ Hcheck))
      as (partners & Hpartners & _).
    destruct (AddPeerByPublicKey_new ctx now addr _ pk pm partners Hctx Hsid Hpartners
                _ eq_refl)
      as (Hadd & Hrecv & Hheap & Hnext & _).
    pose proof (HandlePacket_Initiation ctx order now addr payload pm pk
                  Hctx Hlen Hhead Hcheck Hadd) as Htable.
    set (pm0 := snd (AddPeerByPublicKey ctx now addr (slice payload 4 8) pk pm)) in *.
    destruct Htable as (-> & _ & _ & _ & -> & -> & _).
    exists (next_loc pm). split; [by rewrite Hrecv, lookup_insert_eq|].
    split; [lia|]. split; [|done].
    intros _. by rewrite Hheap, Nat.eqb_refl.
Qed.

(** An authenticated Response whose receiver index is in the table is
    passed to [SendPacket] with the address of the endpoint under that
    index. *)
Lemma Response_forwarded ctx order now addr payload pm pk (pe : loc) :
  ctx_Err ctx = None ->
  length payload = 92%nat -> head payload = Some x02 ->
  CheckMAC1AndGetPublicKey ctx order payload pm = inr pk ->
  ReceiverToPeerMap pm !! slice payload 8 12 = Some pe ->
  (pe < next_loc pm)%nat ->
  sent (snd (HandlePacket ctx order now addr payload pm))
  = sent pm ++ [(Addr (heap pm pe), payload)]
  /\ (SendPacket (packetSender pm) (sent pm) (Addr (heap pm pe)) payload = None ->
      fst (HandlePacket ctx order now addr payload pm) = None).
Proof.
  intros Hctx Hlen Hhead Hcheck Hpe Hlt.
  rewrite (HandlePacket_Type2 _ _ _ _ _ _ _ Hctx Hlen Hhead Hcheck).
  destruct (AddPeerBySenderID_keeps ctx now addr (slice payload 4 8) pk pm
              (slice payload 8 12) pe Hctx Hpe Hlt)
    as (Hadd & Hpe2 & Hheap2 & Hsent2 & Hsender2).
  unfold HandleType2Packet. rewrite Hctx.
  destruct (AddPeerBySenderID ctx now addr (slice payload 4 8) pk pm) as [err2 pm2].
  cbn [fst snd] in *. subst err2.
  destruct (ForwardPacketToReceiver_found ctx (slice payload 8 12) payload pm2 _ Hctx Hpe2)
    as [Hsent Hok].
  rewrite Hheap2, Hsent2, Hsender2 in *. done.
Qed.

(** C6. In a state of a run, once an authenticated Initiation from source
    address [addrA] is handled, its sender index maps to an endpoint: a new
    one with address [addrA] when the index was not in the table, the one
    already there otherwise.  Handling next an authenticated Response whose
    receiver index is that sender index calls [SendPacket] once, with the
    address of that endpoint and the Response as payload, and returns no
    error when the call succeeds. *)
Theorem Initiation_then_Response_round_trip
    ctx order1 order2 nowA nowB addrA addrB pInit pResp pkI pkR pm pm1 :
  reachable pm ->
  ctx_Err ctx = None ->
  length pInit = 148%nat -> head pInit = Some x01 ->
  CheckMAC1AndGetPublicKey ctx order1 pInit pm = inr pkI ->
  pm1 = snd (HandlePacket ctx order1 nowA addrA pInit pm) ->
  length pResp = 92%nat -> head pResp = Some x02 ->
  CheckMAC1AndGetPublicKey ctx order2 pResp pm1 = inr pkR ->
  slice pResp 8 12 = slice pInit 4 8 ->
  exists pe : loc,
    ReceiverToPeerMap pm1 !! slice pInit 4 8 = Some pe
    /\ (ReceiverToPeerMap pm !! slice pInit 4 8 = None -> Addr (heap pm1 pe) = addrA)
    /\ (forall pe0 : loc, ReceiverToPeerMap pm !! slice pInit 4 8 = Some pe0 ->
        pe = pe0 /\ Addr (heap pm1 pe) = Addr (heap pm pe0))
    /\ sent (snd (HandlePacket ctx order2 nowB addrB pResp pm1))
       = sent pm1 ++ [(Addr (heap pm1 pe), pResp)]
    /\ (SendPacket (packetSender pm1) (sent pm1) (Addr (heap pm1 pe)) pResp = None ->
        fst (HandlePacket ctx order2 nowB addrB pResp pm1) = None).
Proof.
  intros Hreach Hctx Hlen1 Hhead1 Hcheck1 Hpm1 Hlen2 Hhead2 Hcheck2 Hrid.
  destruct (Initiation_sid_entry ctx order1 nowA addrA pInit pm pkI
              Hreach Hctx Hlen1 Hhead1 Hcheck1 pm1 Hpm1)
    as (pe & Hpe & Hlt & Hnew & Hold).
  exists pe. split; [done|].
  split; [intros Hnone; by rewrite (Hnew Hnone)|].
  split.
  { intros pe0 Hpe0. destruct (Hold pe0 Hpe0) as [-> ->]. done. }
  rewrite <- Hrid in Hpe.
  exact (Response_forwarded ctx order2 nowB addrB pResp pm1 pkR pe
           Hctx Hlen2 Hhead2 Hcheck2 Hpe Hlt).
Qed.

(** C1, amended.  Scenario S4: the pair (pkA, pkB) is configured,
    [endpoints_by_pk[pkA]] holds one endpoint with address 10.0.0.1:1111
    and [endpoints_by_pk[pkB]] is absent.  Handling a 148-byte Initiation
    from 1.2.3.4:5000 with sender index 11 22 33 44 whose MAC1
    authenticates as pkB returns no error and sends nothing (the packet
    goes to the endpoints of [endpoints_by_pk[pkB]], of which there are
    none); afterwards [endpoint_by_sid[11223344]] is the new endpoint
    (1.2.3.4:5000, now), and [endpoints_by_pk[pkA]] holds the old endpoint
    followed by the new one. *)
Theorem S4_initiation_recorded_not_sent
    ctx order now addr payload pm pkA pkB (pe : loc) :
  ctx_Err ctx = None ->
  pkA <> pkB ->
  PublicKeyToPairPublicKeysMap pm !! pkB = Some [pkA] ->
  PublicKeyToPeersMap pm !! pkA = Some [pe] ->
  PublicKeyToPeersMap pm !! pkB = None ->
  (pe < next_loc pm)%nat ->
  UDPAddr_String (Addr (heap pm pe)) = "10.0.0.1:1111"%string ->
  UDPAddr_String addr = "1.2.3.4:5000"%string ->
  length payload = 148%nat -> head payload = Some x01 ->
  slice payload 4 8 = [x11; x22; x33; x44] ->
  ReceiverToPeerMap pm !! [x11; x22; x33; x44] = None ->
  CheckMAC1AndGetPublicKey ctx order payload pm = inr pkB ->
  fst (HandlePacket ctx order now addr payload pm) = None
  /\ sent (snd (HandlePacket ctx order now addr payload pm)) = sent pm
  /\ ReceiverToPeerMap (snd (HandlePacket ctx order now addr payload pm))
       !! [x11; x22; x33; x44] = Some (next_loc pm)
  /\ heap (snd (HandlePacket ctx order now addr payload pm)) (next_loc pm)
     = {| Addr := addr; Timestamp := now |}
  /\ PublicKeyToPeersMap (snd (HandlePacket ctx order now addr payload pm)) !! pkA
     = Some [pe; next_loc pm].
Proof.
  intros Hctx Hne Hpartners HpkA HpkB Hlt Haddr1 Haddr2 Hlen Hhead Hsid Hnone Hcheck.
  rewrite (HandlePacket_Type1 _ _ _ _ _ _ _ Hctx Hlen Hhead Hcheck), Hsid.
  destruct (AddPeerByPublicKey_new ctx now addr _ pkB pm [pkA] Hctx Hnone Hpartners
              _ eq_refl)
    as (Hadd & Hrecv & Hheap & _ & Hpeers & _ & _ & _ & Hsent).
  rewrite (HandleType1Packet_forward _ _ _ _ _ _ _ Hctx Hadd _ eq_refl).
  set (pm1 := snd (AddPeerByPublicKey ctx now addr [x11; x22; x33; x44] pkB pm)) in *.
  rewrite Hpeers, AppendUniqueValue_lookup_ne, HpkB by done. cbn [fst snd].
  split; [done|]. split; [done|].
  split; [by rewrite Hrecv, lookup_insert_eq|].
  split; [by rewrite Hheap, Nat.eqb_refl|].
  rewrite Hpeers, AppendUniqueValue_lookup, HpkA. cbn [from_option id existsb].
  unfold peer_isEqual. rewrite Hheap, Nat.eqb_refl.
  destruct (Nat.eqb_spec pe (next_loc pm)); [lia|]. cbn [Addr].
  rewrite Haddr1, Haddr2. done.
Qed.

(** * Further properties of the peer manager *)

(** ** The dispatch of [HandlePacket] *)

(** To prove a property of the result of [HandlePacket] it suffices to
    prove it of an early return, which leaves the state as it is, and of
    each of the three handlers, called under the conditions of its case. *)
Lemma HandlePacket_cases (P : option Error * PeerManager -> Prop)
    ctx order now addr payload pm :
  (forall e, P (Some e, pm)) ->
  (forall pk, ctx_Err ctx = None -> head payload = Some x01 ->
     length payload = 148%nat ->
     CheckMAC1AndGetPublicKey ctx order payload pm = inr pk ->
     P (HandleType1Packet ctx now addr (slice payload 4 8) pk payload pm)) ->
  (forall pk, ctx_Err ctx = None -> head payload = Some x02 ->
     length payload = 92%nat ->
     CheckMAC1AndGetPublicKey ctx order payload pm = inr pk ->
     P (HandleType2Packet ctx now addr (slice payload 4 8) (slice payload 8 12)
          pk payload pm)) ->
  (ctx_Err ctx = None -> is_type3or4 payload ->
     P (HandleType3And4Packet ctx (slice payload 4 8) payload pm)) ->
  P (HandlePacket ctx order now addr payload pm).
Proof.
  intros Hearly H1 H2 H34. unfold HandlePacket.
  destruct (ctx_Err ctx) eqn:Hctx; [done|].
  destruct payload as [|t tl]; [done|].
  set (p := t :: tl) in *.
  destruct t; try done.
  - destruct (Nat.eqb_spec (length p) 148) as [Hn|Hn]; cbn [negb]; [|done].
    destruct (CheckMAC1AndGetPublicKey ctx order p pm) as [e|pk] eqn:Hc; [done|].
    by apply H1.
  - destruct (Nat.eqb_spec (length p) 92) as [Hn|Hn]; cbn [negb]; [|done].
    destruct (CheckMAC1AndGetPublicKey ctx order p pm) as [e|pk] eqn:Hc; [done|].
    by apply H2.
  - destruct (Nat.eqb_spec (length p) 64) as [Hn|Hn]; cbn [negb]; [|done].
    apply H34; [done|]. by left.
  - destruct (Nat.ltb_spec (length p) 32) as [Hn|Hn]; [done|].
    apply H34; [done|]. by right.
Qed.

Lemma HandlePacket_Type3or4 ctx order now addr payload pm :
  ctx_Err ctx = None -> is_type3or4 payload ->
  HandlePacket ctx order now addr payload pm
  = ForwardPacketToReceiver ctx (slice payload 4 8) payload pm.
Proof.
  intros Hctx Hty. unfold HandlePacket, HandleType3And4Packet. rewrite Hctx.
  destruct payload as [|t tl]; [by destruct Hty as [[? _]|[? _]]|].
  destruct Hty as [[[= ->] Hlen]|[[= ->] Hlen]].
  - by rewrite Hlen.
  - destruct (Nat.ltb_spec (length (x04 :: tl)) 32); [lia|done].
Qed.

(** ** Partners *)

Section AppendUniqueEq.
Context {T : Type} `{Countable T} {V : Type} `{EqDecision V}.
Implicit Types (m : gmap T (list V)).

(** With equality as the test, the list of [key] gains [value] and nothing
    else changes. *)
Lemma AppendUniqueValue_eq_elem_of m key value j x :
  x ∈ default [] (AppendUniqueValue m key value
                    (fun a b => bool_decide (a = b)) !! j)
  <-> x ∈ default [] (m !! j) \/ (j = key /\ x = value).
Proof.
  destruct (decide (key = j)) as [<-|Hne].
  - rewrite AppendUniqueValue_lookup. cbn.
    destruct (existsb _ _) eqn:Hex.
    + apply existsb_exists in Hex as (v & Hin & Heq).
      apply bool_decide_eq_true in Heq as ->. apply list_elem_of_In in Hin.
      split; [by left|]. intros [?|[_ ->]]; done.
    + rewrite elem_of_app, list_elem_of_singleton. tauto.
  - rewrite AppendUniqueValue_lookup_ne by done.
    split; [by left|]. intros [?|[-> _]]; done.
Qed.

Lemma AppendUniqueValue_eq_NoDup m key value j :
  NoDup (default [] (m !! j)) ->
  NoDup (default [] (AppendUniqueValue m key value
                       (fun a b => bool_decide (a = b)) !! j)).
Proof.
  intros Hnd. destruct (decide (key = j)) as [<-|Hne].
  - rewrite AppendUniqueValue_lookup. cbn.
    destruct (existsb _ _) eqn:Hex; [done|].
    apply NoDup_app. split; [done|]. split; [|apply NoDup_singleton].
    intros x Hin Hx. apply list_elem_of_singleton in Hx as ->.
    assert (Htrue : existsb (fun v => bool_decide (v = value))
                      (default [] (m !! key)) = true).
    { apply existsb_exists. exists value. split; [by apply list_elem_of_In|].
      by apply bool_decide_eq_true. }
    congruence.
  - by rewrite AppendUniqueValue_lookup_ne.
Qed.

End AppendUniqueEq.

Lemma AddPublicKeyPair_partners ctx pk1 pk2 pm a b :
  ctx_Err ctx = None ->
  b ∈ partners (snd (AddPublicKeyPair ctx pk1 pk2 pm)) a
  <-> b ∈ partners pm a \/ (a = pk1 /\ b = pk2) \/ (a = pk2 /\ b = pk1).
Proof.
  intros Hctx. unfold AddPublicKeyPair, partners. rewrite Hctx. cbn.
  rewrite !AppendUniqueValue_eq_elem_of.
  split; [intros [[?|?]|?]|intros [?|[?|?]]]; auto.
Qed.

Lemma AddPublicKeyPair_partners_NoDup ctx pk1 pk2 pm a :
  NoDup (partners pm a) -> NoDup (partners (snd (AddPublicKeyPair ctx pk1 pk2 pm)) a).
Proof.
  intros Hnd. unfold AddPublicKeyPair, partners in *.
  destruct (ctx_Err ctx); [done|]. cbn.
  by do 2 apply AppendUniqueValue_eq_NoDup.
Qed.

Lemma AddPublicKeyPair_admitted ctx pk1 pk2 pm pk :
  ctx_Err ctx = None ->
  admitted (snd (AddPublicKeyPair ctx pk1 pk2 pm)) pk
  <-> admitted pm pk \/ pk = pk1 \/ pk = pk2.
Proof.
  intros Hctx. unfold AddPublicKeyPair, admitted. rewrite Hctx. cbn.
  rewrite lookup_insert. case_decide as H2; [subst; split; [auto|by eexists]|].
  rewrite lookup_insert. case_decide as H1; [subst; split; [auto|by eexists]|].
  split; [by left|]. intros [?|[-> | ->]]; done.
Qed.

Lemma AddPublicKeyPair_cancelled ctx pk1 pk2 pm e :
  ctx_Err ctx = Some e -> snd (AddPublicKeyPair ctx pk1 pk2 pm) = pm.
Proof. intros Hctx. unfold AddPublicKeyPair. by rewrite Hctx. Qed.

Lemma NewPeerManager_partners_fold pairs pm a b :
  b ∈ partners
        (foldl (fun pm pair =>
                  snd (AddPublicKeyPair Background (PublicKey1 pair) (PublicKey2 pair) pm))
           pm pairs) a
  <-> b ∈ partners pm a \/ configured_pair pairs a b.
Proof.
  revert pm. induction pairs as [|pair rest IH]; intros pm; cbn [foldl].
  - split; [by left|]. intros [?|(p & Hin & _)]; [done|]. by apply elem_of_nil in Hin.
  - rewrite IH, AddPublicKeyPair_partners by done. unfold configured_pair. split.
    + intros [[?|Hpair]|(p & Hin & Hp)].
      * by left.
      * right. exists pair. split; [apply elem_of_cons; by left|].
        destruct Hpair as [[-> ->]|[-> ->]]; auto.
      * right. exists p. split; [apply elem_of_cons; by right|done].
    + intros [?|(p & Hin & Hp)]; [by left; left|].
      apply elem_of_cons in Hin as [->|Hin].
      * left; right. destruct Hp as [[<- <-]|[<- <-]]; auto.
      * right. by exists p.
Qed.

Lemma NewPeerManager_admitted_fold pairs pm pk :
  admitted
    (foldl (fun pm pair =>
              snd (AddPublicKeyPair Background (PublicKey1 pair) (PublicKey2 pair) pm))
       pm pairs) pk
  <-> admitted pm pk
      \/ exists p, p ∈ pairs /\ (PublicKey1 p = pk \/ PublicKey2 p = pk).
Proof.
  revert pm. induction pairs as [|pair rest IH]; intros pm; cbn [foldl].
  - split; [by left|]. intros [?|(p & Hin & _)]; [done|]. by apply elem_of_nil in Hin.
  - rewrite IH, AddPublicKeyPair_admitted by done. split.
    + intros [[?|Hpair]|(p & Hin & Hp)].
      * by left.
      * right. exists pair. split; [apply elem_of_cons; by left|].
        destruct Hpair as [-> | ->]; auto.
      * right. exists p. split; [apply elem_of_cons; by right|done].
    + intros [?|(p & Hin & Hp)]; [by left; left|].
      apply elem_of_cons in Hin as [->|Hin].
      * left; right. destruct Hp as [<- | <-]; auto.
      * right. by exists p.
Qed.

Lemma NewPeerManager_partners_configured sender pairs expiration a b :
  b ∈ partners (NewPeerManager sender pairs expiration) a <-> configured_pair pairs a b.
Proof.
  unfold NewPeerManager.
  rewrite NewPeerManager_partners_fold. unfold partners. cbn.
  rewrite lookup_empty. cbn. split; [|by right].
  intros [Hin|?]; [|done]. by apply elem_of_nil in Hin.
Qed.

(** X1. After [NewPeerManager], [b] is a partner of [a] exactly when the
    list of pairs has [(a, b)] or [(b, a)], and a key is admitted exactly
    when it is a member of some pair of the list. *)
Theorem NewPeerManager_partners sender pairs expiration a b :
  (b ∈ partners (NewPeerManager sender pairs expiration) a
   <-> configured_pair pairs a b)
  /\ (admitted (NewPeerManager sender pairs expiration) a
      <-> exists p, p ∈ pairs /\ (PublicKey1 p = a \/ PublicKey2 p = a)).
Proof.
  split; [apply NewPeerManager_partners_configured|].
  unfold NewPeerManager.
  rewrite NewPeerManager_admitted_fold. unfold admitted. cbn.
  rewrite lookup_empty. split; [|by right].
  intros [[? ?]|?]; done.
Qed.

Lemma HandlePacket_config ctx order now addr payload pm :
  PublicKeyToMac1KeyMap (snd (HandlePacket ctx order now addr payload pm))
  = PublicKeyToMac1KeyMap pm
  /\ PublicKeyToPairPublicKeysMap (snd (HandlePacket ctx order now addr payload pm))
     = PublicKeyToPairPublicKeysMap pm
  /\ packetSender (snd (HandlePacket ctx order now addr payload pm)) = packetSender pm
  /\ peerExpiration (snd (HandlePacket ctx order now addr payload pm))
     = peerExpiration pm.
Proof.
  destruct (HandlePacket_effect ctx order now addr payload pm)
    as [(_&_&->&->&_&_&->&->)|(?&?&_&_&_&->&->&_&_&->&->)]; done.
Qed.

Lemma CleanupPeers_sender now pm :
  packetSender (snd (CleanupPeers now pm)) = packetSender pm
  /\ peerExpiration (snd (CleanupPeers now pm)) = peerExpiration pm
  /\ sent (snd (CleanupPeers now pm)) = sent pm.
Proof.
  destruct (Z.le_gt_cases (peerExpiration pm) 0) as [Hle|Hgt].
  - by rewrite (CleanupPeers_invalid _ _ Hle).
  - destruct (CleanupPeers_valid now pm) as (_&_&_&_&_&_&_&?&?&?); [lia|done].
Qed.

(** X4. [HandlePacket] and [CleanupPeers] never change the MAC1 keys, the
    partner lists, the sender or the TTL: after [NewPeerManager] only
    [AddPublicKeyPair] writes them. *)
Theorem configuration_not_changed ctx order now addr payload pm :
  (PublicKeyToMac1KeyMap (snd (HandlePacket ctx order now addr payload pm))
   = PublicKeyToMac1KeyMap pm
   /\ PublicKeyToPairPublicKeysMap (snd (HandlePacket ctx order now addr payload pm))
      = PublicKeyToPairPublicKeysMap pm
   /\ packetSender (snd (HandlePacket ctx order now addr payload pm)) = packetSender pm
   /\ peerExpiration (snd (HandlePacket ctx order now addr payload pm))
      = peerExpiration pm)
  /\ (PublicKeyToMac1KeyMap (snd (CleanupPeers now pm)) = PublicKeyToMac1KeyMap pm
      /\ PublicKeyToPairPublicKeysMap (snd (CleanupPeers now pm))
         = PublicKeyToPairPublicKeysMap pm
      /\ packetSender (snd (CleanupPeers now pm)) = packetSender pm
      /\ peerExpiration (snd (CleanupPeers now pm)) = peerExpiration pm).
Proof.
  split; [apply HandlePacket_config|].
  destruct (CleanupPeers_config now pm) as (? & ? & _).
  destruct (CleanupPeers_sender now pm) as (? & ? & _). done.
Qed.

(** A step other than a live [AddPublicKeyPair] keeps both configuration
    maps. *)
Lemma step_config pm pm' :
  step pm pm' ->
  (exists ctx pk1 pk2, ctx_Err ctx = None /\ pm' = snd (AddPublicKeyPair ctx pk1 pk2 pm))
  \/ (PublicKeyToMac1KeyMap pm' = PublicKeyToMac1KeyMap pm
      /\ PublicKeyToPairPublicKeysMap pm' = PublicKeyToPairPublicKeysMap pm).
Proof.
  intros [ctx pk1 pk2 pm0|ctx order now addr payload pm0 _|now pm0].
  - destruct (ctx_Err ctx) as [e|] eqn:Hctx.
    + right. by rewrite (AddPublicKeyPair_cancelled _ _ _ _ _ Hctx).
    + left. by exists ctx, pk1, pk2.
  - right. by destruct (HandlePacket_config ctx order now addr payload pm0) as (?&?&_).
  - right. by destruct (CleanupPeers_config now pm0) as (?&?&_).
Qed.

Lemma reachable_partners pm :
  reachable pm ->
  (forall a, NoDup (partners pm a))
  /\ (forall a b, b ∈ partners pm a -> a ∈ partners pm b).
Proof.
  induction 1 as [sender pairs expiration|pm pm' _ [Hnd Hsym] Hstep].
  - split.
    + intros a. unfold NewPeerManager.
      apply (NewPeerManager_fold (fun pm => NoDup (partners pm a))).
      * intros. by apply AddPublicKeyPair_partners_NoDup.
      * unfold partners. cbn. rewrite lookup_empty. apply NoDup_nil_2.
    + intros a b Hb.
      apply NewPeerManager_partners_configured in Hb.
      apply NewPeerManager_partners_configured.
      destruct Hb as (p & Hin & Hp). exists p. split; [done|tauto].
  - destruct (step_config pm pm' Hstep) as [(ctx & pk1 & pk2 & Hctx & ->)|[_ Hpair]].
    + split; [intros a; by apply AddPublicKeyPair_partners_NoDup|].
      intros a b. rewrite !AddPublicKeyPair_partners by done.
      intros [?|[[-> ->]|[-> ->]]]; auto.
    + unfold partners. rewrite Hpair. by split.
Qed.


(** X2. In every state of a run no partner list has a key twice, and
    partnership is symmetric: [b] is in the list of [a] exactly when [a] is
    in the list of [b]. *)
Theorem partners_NoDup_symmetric pm :
  reachable pm ->
  (forall pk ps, PublicKeyToPairPublicKeysMap pm !! pk = Some ps -> NoDup ps)
  /\ (forall a b, b ∈ partners pm a <-> a ∈ partners pm b).
Proof.
  intros Hreach. destruct (reachable_partners pm Hreach) as [Hnd Hsym]. split.
  - intros pk ps Hps. specialize (Hnd pk). unfold partners in Hnd.
    by rewrite Hps in Hnd.
  - intros a b. split; apply Hsym.
Qed.

(** ** Only admitted keys are in the table *)

Lemma AppendUniqueValue_is_Some {T} `{Countable T} {V : Type}
    (m : gmap T (list V)) key value equal j :
  is_Some (AppendUniqueValue m key value equal !! j) <-> is_Some (m !! j) \/ j = key.
Proof.
  destruct (decide (key = j)) as [<-|Hne].
  - rewrite AppendUniqueValue_lookup. split; [by right|by eexists].
  - rewrite AppendUniqueValue_lookup_ne by done.
    split; [by left|]. intros [?| ->]; done.
Qed.

Lemma HandleType1Packet_table ctx now addr senderID pk payload pm :
  table_unchanged (snd (AddPeerByPublicKey ctx now addr senderID pk pm))
    (snd (HandleType1Packet ctx now addr senderID pk payload pm)).
Proof.
  unfold HandleType1Packet.
  destruct (ctx_Err ctx) eqn:Hctx.
  { unfold AddPeerByPublicKey. rewrite Hctx. auto with relay. }
  destruct (AddPeerByPublicKey ctx now addr senderID pk pm) as [[err|] pm1];
    [auto with relay|].
  unfold GetPublicKeyToPeers. rewrite Hctx. cbn [snd].
  destruct (PublicKeyToPeersMap pm1 !! pk); [|auto with relay].
  apply forward_to_peers_table.
Qed.

Lemma HandleType2Packet_table ctx now addr senderID receiverID pk payload pm :
  table_unchanged (snd (AddPeerBySenderID ctx now addr senderID pk pm))
    (snd (HandleType2Packet ctx now addr senderID receiverID pk payload pm)).
Proof.
  unfold HandleType2Packet.
  destruct (ctx_Err ctx) eqn:Hctx.
  { unfold AddPeerBySenderID. rewrite Hctx. auto with relay. }
  destruct (AddPeerBySenderID ctx now addr senderID pk pm) as [[err|] pm1];
    [auto with relay|].
  apply ForwardPacketToReceiver_table.
Qed.

(** The lists of [endpoints_by_pk] after [AddPeerByPublicKey]: as before,
    or with the new endpoint appended to the list of the only partner. *)
Lemma AddPeerByPublicKey_peers ctx now addr senderID pk pm :
  PublicKeyToPeersMap (snd (AddPeerByPublicKey ctx now addr senderID pk pm))
  = PublicKeyToPeersMap pm
  \/ exists partner,
       PublicKeyToPairPublicKeysMap pm !! pk = Some [partner]
       /\ PublicKeyToPeersMap (snd (AddPeerByPublicKey ctx now addr senderID pk pm))
          = AppendUniqueValue (PublicKeyToPeersMap pm) partner (next_loc pm)
              (peer_isEqual (heap (snd (AddPeerByPublicKey ctx now addr senderID pk pm)))).
Proof.
  unfold AddPeerByPublicKey.
  destruct (ctx_Err ctx); [by left|].
  destruct (ReceiverToPeerMap pm !! senderID); [by left|].
  destruct (PublicKeyToPairPublicKeysMap pm !! pk) as [partners0|]; [|by left].
  destruct partners0 as [|partner [|partner' rest]]; [by left| |by left].
  right. by exists partner.
Qed.

(** A key that gains a list in [endpoints_by_pk] is a partner of the
    authenticated key. *)
Lemma HandlePacket_peers_keys ctx order now addr payload pm k :
  is_Some (PublicKeyToPeersMap (snd (HandlePacket ctx order now addr payload pm)) !! k) ->
  is_Some (PublicKeyToPeersMap pm !! k)
  \/ exists pk, admitted pm pk /\ k ∈ partners pm pk.
Proof.
  apply (HandlePacket_cases
    (fun r => is_Some (PublicKeyToPeersMap (snd r) !! k) ->
              is_Some (PublicKeyToPeersMap pm !! k)
              \/ exists pk, admitted pm pk /\ k ∈ partners pm pk)).
  - intros e. by left.
  - intros pk Hctx _ _ Hcheck.
    destruct (HandleType1Packet_table ctx now addr (slice payload 4 8) pk payload pm)
      as (_ & -> & _).
    destruct (AddPeerByPublicKey_peers ctx now addr (slice payload 4 8) pk pm)
      as [->|(partner & Hpartner & ->)]; [by left|].
    rewrite AppendUniqueValue_is_Some. intros [?| ->]; [by left|right].
    exists pk. split; [by eapply CheckMAC1AndGetPublicKey_admitted|].
    unfold partners. rewrite Hpartner. apply elem_of_cons. by left.
  - intros pk Hctx _ _ _.
    destruct (HandleType2Packet_table ctx now addr (slice payload 4 8)
                (slice payload 8 12) pk payload pm) as (_ & -> & _).
    destruct (AddPeerBySenderID_effect ctx now addr (slice payload 4 8) pk pm)
      as [_ [(_ & -> & _)|Ha]]; [by left|].
    unfold AddPeerBySenderID. rewrite Hctx.
    destruct (ReceiverToPeerMap pm !! slice payload 4 8); by left.
  - intros Hctx _. unfold HandleType3And4Packet. rewrite Hctx.
    destruct (ForwardPacketToReceiver_table ctx (slice payload 4 8) payload pm)
      as (_ & -> & _). by left.
Qed.

Lemma reachable_admitted_only pm :
  reachable pm ->
  (forall pk, is_Some (PublicKeyToPairPublicKeysMap pm !! pk) -> admitted pm pk)
  /\ (forall a b, b ∈ partners pm a -> admitted pm b)
  /\ (forall pk, is_Some (PublicKeyToPeersMap pm !! pk) -> admitted pm pk).
Proof.
  induction 1 as [sender pairs expiration|pm pm' _ (J1 & J2 & J3) Hstep].
  - unfold NewPeerManager. split; [|split].
    + apply (NewPeerManager_fold (fun pm => forall pk,
               is_Some (PublicKeyToPairPublicKeysMap pm !! pk) -> admitted pm pk)).
      * intros pk1 pk2 pm0 IH pk. rewrite AddPublicKeyPair_admitted by done.
        unfold AddPublicKeyPair. cbn. rewrite !AppendUniqueValue_is_Some.
        intros [[?| ->]| ->]; auto.
      * intros pk. cbn. rewrite lookup_empty. by intros [? ?].
    + intros a b.
      apply (NewPeerManager_fold (fun pm => forall a b,
               b ∈ partners pm a -> admitted pm b)); clear a b.
      * intros pk1 pk2 pm0 IH a b. rewrite AddPublicKeyPair_admitted by done.
        rewrite AddPublicKeyPair_partners by done.
        intros [?|[[-> ->]|[-> ->]]]; eauto.
      * intros a b. unfold partners. cbn. rewrite lookup_empty.
        intros Hin. by apply elem_of_nil in Hin.
    + apply (NewPeerManager_fold (fun pm => forall pk,
               is_Some (PublicKeyToPeersMap pm !! pk) -> admitted pm pk)).
      * intros pk1 pk2 pm0 IH pk. rewrite AddPublicKeyPair_admitted by done.
        destruct (AddPublicKeyPair_table Background pk1 pk2 pm0) as (_ & -> & _).
        auto.
      * intros pk. cbn. rewrite lookup_empty. by intros [? ?].
  - destruct Hstep as [ctx pk1 pk2 pm0|ctx order now addr payload pm0 _|now pm0].
    + destruct (ctx_Err ctx) as [e|] eqn:Hctx.
      { by rewrite (AddPublicKeyPair_cancelled _ _ _ _ _ Hctx). }
      split; [|split].
      * intros pk. rewrite AddPublicKeyPair_admitted by done.
        unfold AddPublicKeyPair. rewrite Hctx. cbn. rewrite !AppendUniqueValue_is_Some.
        intros [[?| ->]| ->]; auto.
      * intros a b. rewrite AddPublicKeyPair_admitted by done.
        rewrite AddPublicKeyPair_partners by done.
        intros [?|[[-> ->]|[-> ->]]]; eauto.
      * intros pk. rewrite AddPublicKeyPair_admitted by done.
        destruct (AddPublicKeyPair_table ctx pk1 pk2 pm0) as (_ & -> & _). auto.
    + destruct (HandlePacket_config ctx order now addr payload pm0) as (Hmac & Hpair & _).
      unfold admitted, partners in *. rewrite Hmac, Hpair.
      split; [done|]. split; [done|].
      intros pk Hpk.
      destruct (HandlePacket_peers_keys ctx order now addr payload pm0 pk Hpk)
        as [?|(pk0 & _ & Hin)]; eauto.
    + destruct (CleanupPeers_config now pm0) as (Hmac & Hpair & _).
      unfold admitted, partners in *. rewrite Hmac, Hpair.
      split; [done|]. split; [done|].
      intros pk [peers Hpk]. apply J3.
      destruct (Z.le_gt_cases (peerExpiration pm0) 0) as [Hle|Hgt].
      * rewrite (CleanupPeers_invalid _ _ Hle) in Hpk. by eexists.
      * destruct (CleanupPeers_valid now pm0) as (_&Hpeers&_); [lia|].
        rewrite Hpeers in Hpk.
        destruct (PublicKeyToPeersMap pm0 !! pk); [by eexists|done].
Qed.

(** X3. In every state of a run only admitted keys are in the table: every
    key of [PublicKeyToPairPublicKeysMap], every partner in its lists and
    every key of [PublicKeyToPeersMap] is a key of [PublicKeyToMac1KeyMap]. *)
Theorem only_admitted_keys_in_table pm :
  reachable pm ->
  (forall pk, is_Some (PublicKeyToPairPublicKeysMap pm !! pk) -> admitted pm pk)
  /\ (forall a b, b ∈ partners pm a -> admitted pm b)
  /\ (forall pk, is_Some (PublicKeyToPeersMap pm !! pk) -> admitted pm pk).
Proof. apply reachable_admitted_only. Qed.

(** ** Stored endpoints *)

(** A step leaves every allocated cell as it is. *)
Lemma step_heap pm pm' (pe : loc) :
  step pm pm' -> (pe < next_loc pm)%nat ->
  heap pm' pe = heap pm pe /\ (pe < next_loc pm')%nat.
Proof.
  intros [ctx pk1 pk2 pm0|ctx order now addr payload pm0 _|now pm0] Hlt.
  - by destruct (AddPublicKeyPair_table ctx pk1 pk2 pm0) as (_&_&->&->&_).
  - destruct (HandlePacket_effect ctx order now addr payload pm0)
      as [(_&_&_&_&->&->&_)|(sid&peer&_&_&_&_&_&->&->&_)]; [done|].
    destruct (Nat.eqb_spec pe (next_loc pm0)); [lia|]. split; [done|lia].
  - by destruct (CleanupPeers_config now pm0) as (_&_&->&->).
Qed.

Lemma referenced_allocated pm pe :
  locs_allocated pm -> referenced pm pe -> (pe < next_loc pm)%nat.
Proof. intros [Hr Hp] [[sid Hsid]|(pk & peers & Hpk & Hin)]; eauto. Qed.

(** X5. No operation changes an endpoint the table holds: in a state of a
    run, after any step the address and the timestamp of every endpoint
    under a session index or in a list are what they were. *)
Theorem referenced_endpoint_never_modified pm pm' pe :
  reachable pm -> step pm pm' -> referenced pm pe ->
  Addr (heap pm' pe) = Addr (heap pm pe)
  /\ Timestamp (heap pm' pe) = Timestamp (heap pm pe).
Proof.
  intros Hreach Hstep Href.
  destruct (reachable_invariants pm Hreach) as (_ & _ & Halloc & _).
  destruct (step_heap pm pm' pe Hstep (referenced_allocated pm pe Halloc Href))
    as [-> _]. done.
Qed.

Lemma NoDup_fmap_filter {A B} (f : A -> B) (p : A -> bool) (l : list A) :
  NoDup (f <$> l) -> NoDup (f <$> List.filter p l).
Proof.
  induction l as [|x l IH]; [done|]. cbn [List.filter]. rewrite fmap_cons.
  intros Hnd. apply NoDup_cons in Hnd as [Hx Hnd].
  destruct (p x); [|by apply IH].
  rewrite fmap_cons. apply NoDup_cons. split; [|by apply IH].
  intros Hin. apply Hx. apply list_elem_of_fmap in Hin as (y & -> & Hy).
  apply list_elem_of_fmap. exists y. split; [done|].
  apply list_elem_of_In in Hy. apply filter_In in Hy as [Hy _].
  by apply list_elem_of_In.
Qed.

Lemma addr_string_fmap_ext pm pm' (peers : list loc) :
  (forall pe, pe ∈ peers -> heap pm' pe = heap pm pe) ->
  addr_string pm' <$> peers = addr_string pm <$> peers.
Proof.
  intros Hsame. apply list_fmap_ext. intros i pe Hpe. unfold addr_string.
  rewrite Hsame; [done|]. by eapply list_elem_of_lookup_2.
Qed.

Lemma session_added_addr_NoDup pm pm' :
  session_added pm pm' -> locs_allocated pm ->
  (forall pk peers, PublicKeyToPeersMap pm !! pk = Some peers ->
     NoDup (addr_string pm <$> peers)) ->
  forall pk peers, PublicKeyToPeersMap pm' !! pk = Some peers ->
    NoDup (addr_string pm' <$> peers).
Proof.
  intros (sid & peer & _ & _ & Hpeers & _ & _ & Hheap & _) [_ Halloc] Hinv.
  assert (Hold : forall pk peers, PublicKeyToPeersMap pm !! pk = Some peers ->
            addr_string pm' <$> peers = addr_string pm <$> peers).
  { intros pk peers Hpk. apply addr_string_fmap_ext. intros pe Hin.
    rewrite Hheap. specialize (Halloc _ _ _ Hpk Hin).
    destruct (Nat.eqb_spec pe (next_loc pm)); [lia|done]. }
  intros pk peers Hpk.
  destruct Hpeers as [Hsame|[q Happ]].
  { rewrite Hsame in Hpk. rewrite (Hold _ _ Hpk). by eapply Hinv. }
  rewrite Happ in Hpk.
  destruct (decide (q = pk)) as [->|Hne];
    [|rewrite AppendUniqueValue_lookup_ne in Hpk by done;
      rewrite (Hold _ _ Hpk); by eapply Hinv].
  rewrite AppendUniqueValue_lookup in Hpk. injection Hpk as <-.
  destruct (PublicKeyToPeersMap pm !! pk) as [cur|] eqn:Hcur; cbn [from_option id].
  - destruct (existsb _ cur) eqn:Hex.
    + rewrite (Hold _ _ Hcur). by eapply Hinv.
    + rewrite fmap_app. apply NoDup_app.
      split; [rewrite (Hold _ _ Hcur); by eapply Hinv|].
      split; [|apply NoDup_singleton].
      intros s Hs Hs'. cbn in Hs'. apply list_elem_of_singleton in Hs' as ->.
      apply list_elem_of_fmap in Hs as (v & Heq & Hv).
      assert (Htrue : existsb (fun v0 => peer_isEqual (heap pm') v0 (next_loc pm)) cur
                      = true).
      { apply existsb_exists. exists v. split; [by apply list_elem_of_In|].
        unfold peer_isEqual. apply bool_decide_eq_true. by symmetry. }
      congruence.
  - cbn. apply NoDup_singleton.
Qed.

Lemma reachable_addr_NoDup pm :
  reachable pm ->
  forall pk peers, PublicKeyToPeersMap pm !! pk = Some peers ->
    NoDup (addr_string pm <$> peers).
Proof.
  induction 1 as [sender pairs expiration|pm pm' Hreach IH Hstep].
  - unfold NewPeerManager.
    apply (NewPeerManager_fold (fun pm => forall pk peers,
             PublicKeyToPeersMap pm !! pk = Some peers ->
             NoDup (addr_string pm <$> peers))).
    + intros pk1 pk2 pm0 IH pk peers.
      destruct (AddPublicKeyPair_table Background pk1 pk2 pm0) as (_&Hp&Hh&_).
      rewrite Hp. intros Hpk. unfold addr_string. rewrite Hh. by eapply IH.
    + intros pk peers. cbn. by rewrite lookup_empty.
  - destruct (reachable_invariants pm Hreach) as (_ & _ & Halloc & _).
    destruct Hstep as [ctx pk1 pk2 pm0|ctx order now addr payload pm0 _|now pm0].
    + intros pk peers.
      destruct (AddPublicKeyPair_table ctx pk1 pk2 pm0) as (_&Hp&Hh&_).
      rewrite Hp. intros Hpk. unfold addr_string. rewrite Hh. by eapply IH.
    + destruct (HandlePacket_effect ctx order now addr payload pm0) as [Hu|Ha].
      * destruct Hu as (_ & Hp & _ & _ & Hh & _). intros pk peers.
        rewrite Hp. intros Hpk. unfold addr_string. rewrite Hh. by eapply IH.
      * by apply (session_added_addr_NoDup pm0).
    + intros pk peers Hpk.
      destruct (CleanupPeers_config now pm0) as (_ & _ & Hh & _).
      unfold addr_string. rewrite Hh.
      destruct (Z.le_gt_cases (peerExpiration pm0) 0) as [Hle|Hgt].
      * rewrite (CleanupPeers_invalid _ _ Hle) in Hpk. by eapply IH.
      * destruct (CleanupPeers_valid now pm0) as (_&Hpeers&_); [lia|].
        rewrite Hpeers in Hpk.
        destruct (PublicKeyToPeersMap pm0 !! pk) as [peers0|] eqn:Hpk0; [|done].
        cbn in Hpk.
        assert (Hf : List.filter (fresh_enough pm0 now) peers0 = peers).
        { destruct (List.filter _ peers0); congruence. }
        rewrite <- Hf. apply NoDup_fmap_filter. by eapply IH.
Qed.

(** X6. In every state of a run no list of [endpoints_by_pk] has two
    endpoints with the same address string. *)
Theorem PublicKeyToPeers_distinct_addresses pm pk peers :
  reachable pm ->
  PublicKeyToPeersMap pm !! pk = Some peers ->
  NoDup (addr_string pm <$> peers).
Proof. intros Hreach. by apply reachable_addr_NoDup. Qed.

(** X7. [HandlePacket] only adds to the table: every session index keeps
    its endpoint, at most one index is added (for the endpoint allocated by
    the call), and every list of [endpoints_by_pk] keeps its endpoints in
    order, with at most one appended. *)
Theorem HandlePacket_only_adds ctx order now addr payload pm :
  (forall sid pe, ReceiverToPeerMap pm !! sid = Some pe ->
     ReceiverToPeerMap (snd (HandlePacket ctx order now addr payload pm)) !! sid
     = Some pe)
  /\ (ReceiverToPeerMap (snd (HandlePacket ctx order now addr payload pm))
      = ReceiverToPeerMap pm
      \/ exists sid, ReceiverToPeerMap pm !! sid = None
           /\ ReceiverToPeerMap (snd (HandlePacket ctx order now addr payload pm))
              = <[sid := next_loc pm]> (ReceiverToPeerMap pm))
  /\ (forall pk peers, PublicKeyToPeersMap pm !! pk = Some peers ->
        PublicKeyToPeersMap (snd (HandlePacket ctx order now addr payload pm)) !! pk
        = Some peers
        \/ PublicKeyToPeersMap (snd (HandlePacket ctx order now addr payload pm)) !! pk
           = Some (peers ++ [next_loc pm]))
  /\ (forall pk, PublicKeyToPeersMap pm !! pk = None ->
        PublicKeyToPeersMap (snd (HandlePacket ctx order now addr payload pm)) !! pk
        = None
        \/ PublicKeyToPeersMap (snd (HandlePacket ctx order now addr payload pm)) !! pk
           = Some [next_loc pm]).
Proof.
  destruct (HandlePacket_effect ctx order now addr payload pm)
    as [(Hr & Hp & _)|(sid & peer & Hnone & Hr & Hp & _)].
  - rewrite Hr, Hp. split; [done|]. split; [by left|].
    split; [intros pk peers Hpk|intros pk Hpk]; by left.
  - rewrite Hr. split; [|split; [|split]]; cycle 3.
    { intros pk Hpk. destruct Hp as [->|[q ->]]; [by left|].
      destruct (decide (q = pk)) as [->|Hne].
      * rewrite AppendUniqueValue_lookup, Hpk. cbn [from_option id existsb]. by right.
      * rewrite AppendUniqueValue_lookup_ne by done. by left. }
    + intros sid' pe Hsid'. rewrite lookup_insert_ne; [done|]. intros ->.
      rewrite Hnone in Hsid'. discriminate.
    + right. by exists sid.
    + intros pk peers Hpk. destruct Hp as [->|[q ->]]; [by left|].
      destruct (decide (q = pk)) as [->|Hne].
      * rewrite AppendUniqueValue_lookup, Hpk. cbn [from_option id].
        destruct (existsb _ _); [by left|by right].
      * rewrite AppendUniqueValue_lookup_ne by done. by left.
Qed.

(** ** What is sent *)

Lemma ForwardPacket_payload ctx to payload pm :
  exists dests, sent (snd (ForwardPacket ctx to payload pm))
                = sent pm ++ ((fun a => (a, payload)) <$> dests).
Proof.
  unfold ForwardPacket, call_SendPacket.
  destruct (ctx_Err ctx); [exists []; by rewrite app_nil_r|].
  destruct (SendPacket _ _ _ _); by exists [to].
Qed.

Lemma forward_to_peers_payload ctx peers payload pm :
  exists dests, sent (snd (forward_to_peers ctx peers payload pm))
                = sent pm ++ ((fun a => (a, payload)) <$> dests).
Proof.
  revert pm. induction peers as [|peer rest IH]; intros pm; cbn [forward_to_peers].
  { exists []. by rewrite app_nil_r. }
  destruct (ForwardPacket_payload ctx (Addr (heap pm peer)) payload pm) as [d1 H1].
  destruct (ForwardPacket ctx (Addr (heap pm peer)) payload pm) as [[err|] pm1];
    [by exists d1|].
  destruct (IH pm1) as [d2 H2]. exists (d1 ++ d2).
  cbn [snd] in H1. by rewrite H2, H1, fmap_app, app_assoc.
Qed.

Lemma ForwardPacketToReceiver_payload ctx receiverID payload pm :
  exists dests, sent (snd (ForwardPacketToReceiver ctx receiverID payload pm))
                = sent pm ++ ((fun a => (a, payload)) <$> dests).
Proof.
  unfold ForwardPacketToReceiver.
  destruct (ctx_Err ctx); [exists []; by rewrite app_nil_r|].
  destruct (ReceiverToPeerMap pm !! receiverID); [|exists []; by rewrite app_nil_r].
  apply ForwardPacket_payload.
Qed.

(** X8. Whatever [HandlePacket] passes to [SendPacket] is the payload it
    was given: the calls added to the record are calls with that payload. *)
Theorem HandlePacket_forwards_payload_unchanged ctx order now addr payload pm :
  exists dests,
    sent (snd (HandlePacket ctx order now addr payload pm))
    = sent pm ++ ((fun a => (a, payload)) <$> dests).
Proof.
  apply (HandlePacket_cases
    (fun r => exists dests, sent (snd r) = sent pm ++ ((fun a => (a, payload)) <$> dests))).
  - intros e. exists []. by rewrite app_nil_r.
  - intros pk Hctx _ _ _. unfold HandleType1Packet. rewrite Hctx.
    destruct (AddPeerByPublicKey_effect ctx now addr (slice payload 4 8) pk pm)
      as [Hsent _].
    destruct (AddPeerByPublicKey ctx now addr (slice payload 4 8) pk pm)
      as [[err|] pm1]; cbn [snd] in *.
    { exists []. by rewrite app_nil_r. }
    unfold GetPublicKeyToPeers. rewrite Hctx.
    destruct (PublicKeyToPeersMap pm1 !! pk) as [peers|];
      [|exists []; by rewrite app_nil_r].
    rewrite <- Hsent. apply forward_to_peers_payload.
  - intros pk Hctx _ _ _. unfold HandleType2Packet. rewrite Hctx.
    destruct (AddPeerBySenderID_effect ctx now addr (slice payload 4 8) pk pm)
      as [Hsent _].
    destruct (AddPeerBySenderID ctx now addr (slice payload 4 8) pk pm)
      as [[err|] pm1]; cbn [snd] in *.
    { exists []. by rewrite app_nil_r. }
    rewrite <- Hsent. apply ForwardPacketToReceiver_payload.
  - intros Hctx _. unfold HandleType3And4Packet. rewrite Hctx.
    apply ForwardPacketToReceiver_payload.
Qed.

(** X9. A Cookie Reply (64 bytes) or Transport Data message (at least 32
    bytes) whose receiver index is in the table is passed to [SendPacket]
    once, with the address of the endpoint under that index; the table is
    not changed, and the result is the error of the sender, wrapped, or
    none. *)
Theorem Type3or4_forwarded ctx order now addr payload pm (pe : loc) :
  ctx_Err ctx = None -> is_type3or4 payload ->
  ReceiverToPeerMap pm !! slice payload 4 8 = Some pe ->
  sent (snd (HandlePacket ctx order now addr payload pm))
  = sent pm ++ [(Addr (heap pm pe), payload)]
  /\ fst (HandlePacket ctx order now addr payload pm)
     = send_error (SendPacket (packetSender pm) (sent pm) (Addr (heap pm pe)) payload)
  /\ table_unchanged pm (snd (HandlePacket ctx order now addr payload pm)).
Proof.
  intros Hctx Hty Hpe. rewrite (HandlePacket_Type3or4 _ _ _ _ _ _ Hctx Hty).
  split; [|split; [|apply ForwardPacketToReceiver_table]].
  - by apply ForwardPacketToReceiver_found.
  - unfold ForwardPacketToReceiver, ForwardPacket, call_SendPacket.
    rewrite Hctx, Hpe. by destruct (SendPacket _ _ _ _).
Qed.

(** X10. A Cookie Reply or Transport Data message whose receiver index is
    not in the table is dropped: [PeerNotFound] naming the index in hex, no
    call of [SendPacket], and the state as it was. *)
Theorem Type3or4_unknown_receiver ctx order now addr payload pm :
  ctx_Err ctx = None -> is_type3or4 payload ->
  ReceiverToPeerMap pm !! slice payload 4 8 = None ->
  HandlePacket ctx order now addr payload pm
  = (Some (ErrPeerNotFound
             ("no peer found for receiver ID: " +:+ hex (slice payload 4 8))), pm).
Proof.
  intros Hctx Hty Hnone. rewrite (HandlePacket_Type3or4 _ _ _ _ _ _ Hctx Hty).
  unfold ForwardPacketToReceiver. by rewrite Hctx, Hnone.
Qed.

Lemma AddPeerBySenderID_new ctx now addr senderID pk pm :
  ctx_Err ctx = None ->
  ReceiverToPeerMap pm !! senderID = None ->
  forall pm1, pm1 = snd (AddPeerBySenderID ctx now addr senderID pk pm) ->
  fst (AddPeerBySenderID ctx now addr senderID pk pm) = None
  /\ ReceiverToPeerMap pm1 = <[senderID := next_loc pm]> (ReceiverToPeerMap pm)
  /\ heap pm1 = (fun l => if Nat.eqb l (next_loc pm)
                          then {| Addr := addr; Timestamp := now |} else heap pm l)
  /\ next_loc pm1 = S (next_loc pm)
  /\ PublicKeyToPeersMap pm1 = PublicKeyToPeersMap pm
  /\ packetSender pm1 = packetSender pm
  /\ sent pm1 = sent pm.
Proof.
  intros Hctx Hnone pm1 ->. unfold AddPeerBySenderID. by rewrite Hctx, Hnone.
Qed.

Lemma HandleType2Packet_forward ctx now addr senderID receiverID pk payload pm :
  ctx_Err ctx = None ->
  fst (AddPeerBySenderID ctx now addr senderID pk pm) = None ->
  HandleType2Packet ctx now addr senderID receiverID pk payload pm
  = ForwardPacketToReceiver ctx receiverID payload
      (snd (AddPeerBySenderID ctx now addr senderID pk pm)).
Proof.
  intros Hctx Hadd. unfold HandleType2Packet. rewrite Hctx.
  by destruct (AddPeerBySenderID ctx now addr senderID pk pm) as [[err|] pm1].
Qed.

(** X11. An authenticated Response with a new sender index whose receiver
    index is not in the table is not forwarded, but its sender is recorded
    all the same: the result is [PeerNotFound], nothing is sent, and the
    sender index now maps to a new endpoint (source address, now);
    [endpoints_by_pk] is as before. *)
Theorem Response_unknown_receiver_records_sender ctx order now addr payload pm pk :
  ctx_Err ctx = None ->
  length payload = 92%nat -> head payload = Some x02 ->
  CheckMAC1AndGetPublicKey ctx order payload pm = inr pk ->
  ReceiverToPeerMap pm !! slice payload 4 8 = None ->
  ReceiverToPeerMap pm !! slice payload 8 12 = None ->
  slice payload 8 12 <> slice payload 4 8 ->
  is_PeerNotFound (fst (HandlePacket ctx order now addr payload pm)) = true
  /\ sent (snd (HandlePacket ctx order now addr payload pm)) = sent pm
  /\ ReceiverToPeerMap (snd (HandlePacket ctx order now addr payload pm))
     = <[slice payload 4 8 := next_loc pm]> (ReceiverToPeerMap pm)
  /\ heap (snd (HandlePacket ctx order now addr payload pm)) (next_loc pm)
     = {| Addr := addr; Timestamp := now |}
  /\ PublicKeyToPeersMap (snd (HandlePacket ctx order now addr payload pm))
     = PublicKeyToPeersMap pm.
Proof.
  intros Hctx Hlen Hhead Hcheck Hsid Hrid Hne.
  rewrite (HandlePacket_Type2 _ _ _ _ _ _ _ Hctx Hlen Hhead Hcheck).
  destruct (AddPeerBySenderID_new ctx now addr _ pk pm Hctx Hsid _ eq_refl)
    as (Hadd & Hrecv & Hheap & _ & Hpeers & _ & Hsent).
  rewrite (HandleType2Packet_forward _ _ _ _ _ _ _ _ Hctx Hadd).
  unfold ForwardPacketToReceiver.
  rewrite Hctx, Hrecv, lookup_insert_ne, Hrid by done. cbn [fst snd].
  rewrite Hsent, Hrecv, Hheap, Hpeers, Nat.eqb_refl. done.
Qed.

(** X12. An authenticated Response with a new sender index whose receiver
    index is that same index is sent back to its own source address. *)
Theorem Response_to_own_index_reflected ctx order now addr payload pm pk :
  ctx_Err ctx = None ->
  length payload = 92%nat -> head payload = Some x02 ->
  CheckMAC1AndGetPublicKey ctx order payload pm = inr pk ->
  ReceiverToPeerMap pm !! slice payload 4 8 = None ->
  slice payload 8 12 = slice payload 4 8 ->
  sent (snd (HandlePacket ctx order now addr payload pm)) = sent pm ++ [(addr, payload)].
Proof.
  intros Hctx Hlen Hhead Hcheck Hsid Heq.
  rewrite (HandlePacket_Type2 _ _ _ _ _ _ _ Hctx Hlen Hhead Hcheck), Heq.
  destruct (AddPeerBySenderID_new ctx now addr _ pk pm Hctx Hsid _ eq_refl)
    as (Hadd & Hrecv & Hheap & _ & _ & _ & Hsent).
  rewrite (HandleType2Packet_forward _ _ _ _ _ _ _ _ Hctx Hadd).
  assert (Hpe : ReceiverToPeerMap
                  (snd (AddPeerBySenderID ctx now addr (slice payload 4 8) pk pm))
                  !! slice payload 4 8 = Some (next_loc pm))
    by (by rewrite Hrecv, lookup_insert_eq).
  destruct (ForwardPacketToReceiver_found ctx _ payload _ _ Hctx Hpe) as [-> _].
  by rewrite Hsent, Hheap, Nat.eqb_refl.
Qed.

(** ** The broadcast of an Initiation *)

Lemma ForwardPacket_live ctx to payload pm :
  ctx_Err ctx = None ->
  fst (ForwardPacket ctx to payload pm)
  = send_error (SendPacket (packetSender pm) (sent pm) to payload)
  /\ sent (snd (ForwardPacket ctx to payload pm)) = sent pm ++ [(to, payload)]
  /\ heap (snd (ForwardPacket ctx to payload pm)) = heap pm
  /\ packetSender (snd (ForwardPacket ctx to payload pm)) = packetSender pm.
Proof.
  intros Hctx. unfold ForwardPacket, call_SendPacket. rewrite Hctx.
  by destruct (SendPacket _ _ _ _).
Qed.

(** The loop over the endpoints: the calls made are those for a prefix of
    the list, the whole list when no call fails. *)
Lemma forward_to_peers_sent ctx peers payload pm :
  ctx_Err ctx = None ->
  exists n, (n <= length peers)%nat
    /\ sent (snd (forward_to_peers ctx peers payload pm))
       = sent pm ++ datagrams_to pm (take n peers) payload
    /\ (fst (forward_to_peers ctx peers payload pm) = None -> n = length peers)
    /\ (forall e, fst (forward_to_peers ctx peers payload pm) = Some e ->
          exists cause, e = ErrPacketSendFailed cause)
    /\ (sender_reliable (packetSender pm) ->
        fst (forward_to_peers ctx peers payload pm) = None).
Proof.
  intros Hctx. revert pm.
  induction peers as [|peer rest IH]; intros pm; cbn [forward_to_peers].
  { exists 0%nat. cbn. rewrite app_nil_r. repeat split; done. }
  destruct (ForwardPacket_live ctx (Addr (heap pm peer)) payload pm Hctx)
    as (Herr & Hsent & Hheap & Hsender).
  destruct (ForwardPacket ctx (Addr (heap pm peer)) payload pm) as [err pm1].
  cbn [fst snd] in *.
  destruct (SendPacket (packetSender pm) (sent pm) (Addr (heap pm peer)) payload)
    as [cause|] eqn:Hsend; cbn in Herr; subst err.
  - exists 1%nat. cbn [length take]. split; [lia|]. split; [by rewrite take_0|].
    split; [done|]. split; [intros e [= <-]; by eexists|].
    intros Hrel. by rewrite Hrel in Hsend.
  - destruct (IH pm1) as (n & Hn & Hs & Hok & Hfail & Hrel).
    exists (S n). cbn [length take]. split; [lia|].
    split.
    { rewrite Hs, Hsent. unfold datagrams_to. rewrite Hheap. cbn [map].
      by rewrite <- app_assoc. }
    split; [intros Hnone; by rewrite (Hok Hnone)|].
    split; [done|].
    intros Hreliable. apply Hrel. by rewrite Hsender.
Qed.

Lemma AddPeerByPublicKey_no_error ctx now addr senderID pk pm :
  admitted_keys_paired pm -> admitted pm pk -> ctx_Err ctx = None ->
  fst (AddPeerByPublicKey ctx now addr senderID pk pm) = None.
Proof.
  intros Hpaired Hadm Hctx.
  destruct (Hpaired pk Hadm) as (partners0 & Hpartners & _).
  unfold AddPeerByPublicKey. rewrite Hctx.
  destruct (ReceiverToPeerMap pm !! senderID); [done|].
  rewrite Hpartners. by destruct partners0 as [|? [|? ?]].
Qed.

(** X13. In a state of a run, an authenticated Initiation is passed to
    [SendPacket] for the endpoints of [endpoints_by_pk] under the
    authenticated key, as the list is after the table update, in the order
    of the list: for all of them when the result is no error (as it is when
    the sender never fails), and for a prefix of the list when a call fails,
    the error being [PacketSendFailed]. *)
Theorem Initiation_broadcast ctx order now addr payload pm pk pm' :
  reachable pm ->
  ctx_Err ctx = None ->
  length payload = 148%nat -> head payload = Some x01 ->
  CheckMAC1AndGetPublicKey ctx order payload pm = inr pk ->
  pm' = snd (HandlePacket ctx order now addr payload pm) ->
  exists n, (n <= length (endpoints pm' pk))%nat
    /\ sent pm' = sent pm ++ datagrams_to pm' (take n (endpoints pm' pk)) payload
    /\ (fst (HandlePacket ctx order now addr payload pm) = None ->
        n = length (endpoints pm' pk))
    /\ (forall e, fst (HandlePacket ctx order now addr payload pm) = Some e ->
          exists cause, e = ErrPacketSendFailed cause)
    /\ (sender_reliable (packetSender pm) ->
        fst (HandlePacket ctx order now addr payload pm) = None).
Proof.
  intros Hreach Hctx Hlen Hhead Hcheck ->.
  destruct (reachable_invariants pm Hreach) as (_ & Hpaired & _).
  pose proof (AddPeerByPublicKey_no_error ctx now addr (slice payload 4 8) pk pm
                Hpaired (CheckMAC1AndGetPublicKey_admitted _ _ _ _ _ Hcheck) Hctx)
    as Hadd.
  destruct (AddPeerByPublicKey_effect ctx now addr (slice payload 4 8) pk pm)
    as [Hsent _].
  assert (Hsender : packetSender
                      (snd (AddPeerByPublicKey ctx now addr (slice payload 4 8) pk pm))
                    = packetSender pm).
  { destruct (AddPeerByPublicKey_effect ctx now addr (slice payload 4 8) pk pm)
      as [_ [(_&_&_&_&_&_&->&_)|(?&?&_&_&_&_&_&_&_&->&_)]]; done. }
  pose proof (HandlePacket_Initiation ctx order now addr payload pm pk
                Hctx Hlen Hhead Hcheck Hadd) as Htable.
  rewrite (HandlePacket_Type1 _ _ _ _ _ _ _ Hctx Hlen Hhead Hcheck) in *.
  rewrite (HandleType1Packet_forward _ _ _ _ _ _ _ Hctx Hadd _ eq_refl) in *.
  set (pm1 := snd (AddPeerByPublicKey ctx now addr (slice payload 4 8) pk pm)) in *.
  destruct Htable as (_ & Hpeers & _ & _ & Hheap & _).
  unfold endpoints, datagrams_to. rewrite Hpeers, Hheap, <- Hsent, <- Hsender.
  destruct (PublicKeyToPeersMap pm1 !! pk) as [peers|]; cbn [from_option id].
  - apply (forward_to_peers_sent ctx peers payload pm1 Hctx).
  - exists 0%nat. cbn. rewrite app_nil_r. repeat split; done.
Qed.

(** ** The order of the MAC1 scan *)

Lemma mac1_scan_first order m payload pk :
  mac1_scan order m payload = inr pk ->
  exists pre post, order = pre ++ pk :: post
    /\ (forall pk' k, pk' ∈ pre -> m !! pk' = Some k -> mac1_equal k payload = false)
    /\ (exists k, m !! pk = Some k /\ mac1_equal k payload = true).
Proof.
  induction order as [|pk0 rest IH]; cbn [mac1_scan]; [done|].
  assert (Hskip : mac1_scan rest m payload = inr pk ->
            (forall k, m !! pk0 = Some k -> mac1_equal k payload = false) ->
            exists pre post, pk0 :: rest = pre ++ pk :: post
              /\ (forall pk' k, pk' ∈ pre -> m !! pk' = Some k ->
                    mac1_equal k payload = false)
              /\ (exists k, m !! pk = Some k /\ mac1_equal k payload = true)).
  { intros Hscan Hk0. destruct (IH Hscan) as (pre & post & -> & Hpre & Hpk).
    exists (pk0 :: pre), post. split; [done|]. split; [|done].
    intros pk' k Hin Hk. apply elem_of_cons in Hin as [->|Hin]; eauto. }
  destruct (m !! pk0) as [k0|] eqn:Hk0.
  - destruct (mac1_equal k0 payload) eqn:Heq.
    + intros [= <-]. exists [], rest. split; [done|].
      split; [|by eexists].
      intros pk' k Hin. by apply elem_of_nil in Hin.
    + intros Hscan. apply Hskip; [done|]. by intros k [= <-].
  - intros Hscan. by apply Hskip.
Qed.

(** X14. The key the authenticator returns is the first one, in the order
    in which the keys are visited, under which MAC1 verifies: no admitted
    key visited before it matches. *)
Theorem CheckMAC1AndGetPublicKey_first_match ctx order payload pm pk :
  reachable pm ->
  length payload = 148%nat \/ length payload = 92%nat ->
  CheckMAC1AndGetPublicKey ctx order payload pm = inr pk ->
  exists pre post, order = pre ++ pk :: post
    /\ forall pk', pk' ∈ pre -> admitted pm pk' -> ~ mac1_matches pk' payload.
Proof.
  intros Hreach Hlen Hcheck.
  destruct (reachable_invariants pm Hreach) as (Hderived & _).
  unfold CheckMAC1AndGetPublicKey in Hcheck. destruct (ctx_Err ctx); [done|].
  apply mac1_scan_first in Hcheck as (pre & post & -> & Hpre & _).
  exists pre, post. split; [done|].
  intros pk' Hin [k Hk] Hmatch. specialize (Hpre pk' k Hin Hk).
  rewrite (Hderived _ _ Hk) in Hpre.
  apply mac1_equal_matches in Hmatch; [congruence|lia].
Qed.

(** X15. When MAC1 verifies under exactly one admitted key, the
    authenticator returns that key, in whatever order the keys are
    visited. *)
Theorem CheckMAC1AndGetPublicKey_unique_match ctx order payload pm pk :
  reachable pm ->
  ctx_Err ctx = None ->
  range_order order (PublicKeyToMac1KeyMap pm) ->
  length payload = 148%nat \/ length payload = 92%nat ->
  admitted pm pk -> mac1_matches pk payload ->
  (forall pk', admitted pm pk' -> mac1_matches pk' payload -> pk' = pk) ->
  CheckMAC1AndGetPublicKey ctx order payload pm = inr pk.
Proof.
  intros Hreach Hctx Horder Hlen [k Hk] Hmatch Huniq.
  destruct (reachable_invariants pm Hreach) as (Hderived & _).
  assert (Hlen32 : (32 <= length payload)%nat) by lia.
  unfold CheckMAC1AndGetPublicKey. rewrite Hctx.
  destruct (mac1_scan order (PublicKeyToMac1KeyMap pm) payload) as [e|pk'] eqn:Hscan.
  - apply mac1_scan_inl in Hscan as [_ Hnone].
    assert (Hin : pk ∈ order).
    { apply (range_order_elem_of _ _ _ Horder). by eexists. }
    specialize (Hnone _ _ Hin Hk). rewrite (Hderived _ _ Hk) in Hnone.
    apply mac1_equal_matches in Hmatch; [congruence|done].
  - apply mac1_scan_inr in Hscan as (_ & k' & Hk' & Heq).
    rewrite (Hderived _ _ Hk') in Heq. apply mac1_equal_matches in Heq; [|done].
    f_equal. apply Huniq; [by eexists|done].
Qed.

Lemma mac1_equal_ignores_mac2 k (p p' : list byte) :
  length p = length p' ->
  take (length p - 16) p = take (length p - 16) p' ->
  mac1_equal k p = mac1_equal k p'.
Proof.
  intros Hlen Htake. unfold mac1_equal, slice. rewrite <- Hlen.
  set (s2 := (length p - 16)%nat) in *. set (s1 := (s2 - 16)%nat).
  assert (H1 : take s1 p = take s1 p').
  { assert (Hmin : s1 = (s1 `min` s2)%nat) by lia.
    rewrite Hmin, <- !take_take. by rewrite Htake. }
  assert (H2 : take (s2 - s1) (drop s1 p) = take (s2 - s1) (drop s1 p')).
  { rewrite !take_drop_commute.
    replace (s1 + (s2 - s1))%nat with s2 by lia. by rewrite Htake. }
  by rewrite H1, H2.
Qed.

(** X16. MAC2 plays no part in authentication: two payloads of the same
    length, of at least 32 bytes, that agree on all but their last 16 bytes
    get the same result from the authenticator. *)
Theorem CheckMAC1AndGetPublicKey_ignores_mac2 ctx order pm (p p' : list byte) :
  (32 <= length p)%nat ->
  length p = length p' ->
  take (length p - 16) p = take (length p - 16) p' ->
  CheckMAC1AndGetPublicKey ctx order p pm = CheckMAC1AndGetPublicKey ctx order p' pm.
Proof.
  intros _ Hlen Htake. unfold CheckMAC1AndGetPublicKey.
  destruct (ctx_Err ctx); [done|].
  induction order as [|pk0 rest IH]; cbn [mac1_scan]; [done|].
  destruct (PublicKeyToMac1KeyMap pm !! pk0) as [k0|]; [|done].
  by rewrite (mac1_equal_ignores_mac2 k0 p p' Hlen Htake), IH.
Qed.

(** ** More on the sweep *)

Lemma PeerManager_eq (pm1 pm2 : PeerManager) :
  packetSender pm1 = packetSender pm2 ->
  ReceiverToPeerMap pm1 = ReceiverToPeerMap pm2 ->
  PublicKeyToPeersMap pm1 = PublicKeyToPeersMap pm2 ->
  PublicKeyToMac1KeyMap pm1 = PublicKeyToMac1KeyMap pm2 ->
  PublicKeyToPairPublicKeysMap pm1 = PublicKeyToPairPublicKeysMap pm2 ->
  peerExpiration pm1 = peerExpiration pm2 ->
  heap pm1 = heap pm2 -> next_loc pm1 = next_loc pm2 -> sent pm1 = sent pm2 ->
  pm1 = pm2.
Proof. destruct pm1, pm2. cbn. by intros -> -> -> -> -> -> -> -> ->. Qed.

Lemma filter_filter_same {A} (p : A -> bool) (l : list A) :
  List.filter p (List.filter p l) = List.filter p l.
Proof.
  induction l as [|x l IH]; [done|]. cbn [List.filter].
  destruct (p x) eqn:Hp; [|done]. cbn [List.filter]. by rewrite Hp, IH.
Qed.

(** X17. Sweeping twice at the same time is sweeping once: the second
    sweep leaves the state as the first one left it. *)
Theorem CleanupPeers_idempotent now pm :
  snd (CleanupPeers now (snd (CleanupPeers now pm))) = snd (CleanupPeers now pm).
Proof.
  destruct (Z.le_gt_cases (peerExpiration pm) 0) as [Hle|Hgt].
  { rewrite (CleanupPeers_invalid _ _ Hle). cbn [snd].
    by rewrite (CleanupPeers_invalid _ _ Hle). }
  destruct (CleanupPeers_valid now pm) as (_&Hp&Hr&Hm&Hpair&Hh&Hn&Hs&Hsend&Hexp); [lia|].
  set (pm1 := snd (CleanupPeers now pm)) in *.
  destruct (CleanupPeers_valid now pm1) as (_&Hp'&Hr'&Hm'&Hpair'&Hh'&Hn'&Hs'&Hsend'&Hexp');
    [lia|].
  assert (Hfresh : fresh_enough pm1 now = fresh_enough pm now).
  { unfold fresh_enough. by rewrite Hh, Hexp. }
  apply PeerManager_eq; try done.
  - apply map_eq. intros sid. rewrite Hr', Hfresh, Hr.
    destruct (ReceiverToPeerMap pm !! sid) as [pe|]; [|done]. cbn.
    destruct (fresh_enough pm now pe) eqn:Hf; [|done]. cbn. by rewrite Hf.
  - apply map_eq. intros pk. rewrite Hp', Hfresh, Hp.
    destruct (PublicKeyToPeersMap pm !! pk) as [peers|]; [|done]. cbn.
    pose proof (filter_filter_same (fresh_enough pm now) peers) as Hff.
    destruct (List.filter (fresh_enough pm now) peers) as [|pe rest]; [done|].
    cbn -[List.filter]. by rewrite Hff.
Qed.

(** X18. A sweep with a positive TTL keeps every endpoint that is not
    expired: an entry of [endpoint_by_sid] with such an endpoint stays, and
    a list of [endpoints_by_pk] becomes the list of its endpoints that are
    not expired, in their order (the key being removed when there is none).
    It sends nothing and changes no endpoint. *)
Theorem CleanupPeers_keeps_fresh now pm :
  0 < peerExpiration pm ->
  (forall sid pe, ReceiverToPeerMap pm !! sid = Some pe -> ~ expired pm now pe ->
     ReceiverToPeerMap (snd (CleanupPeers now pm)) !! sid = Some pe)
  /\ (forall pk peers, PublicKeyToPeersMap pm !! pk = Some peers ->
        PublicKeyToPeersMap (snd (CleanupPeers now pm)) !! pk
        = match List.filter (fresh_enough pm now) peers with
          | [] => None
          | remaining => Some remaining
          end)
  /\ (forall pk, PublicKeyToPeersMap pm !! pk = None ->
        PublicKeyToPeersMap (snd (CleanupPeers now pm)) !! pk = None)
  /\ (forall sid, ReceiverToPeerMap pm !! sid = None ->
        ReceiverToPeerMap (snd (CleanupPeers now pm)) !! sid = None)
  /\ heap (snd (CleanupPeers now pm)) = heap pm
  /\ sent (snd (CleanupPeers now pm)) = sent pm.
Proof.
  intros Hpos.
  destruct (CleanupPeers_valid now pm Hpos) as (_&Hp&Hr&_&_&Hh&_&Hs&_).
  split; [|split; [|split; [|split]]]; [| | | |done].
  - intros sid pe Hsid Hfresh. apply fresh_enough_not_expired in Hfresh.
    by rewrite Hr, Hsid; cbn; rewrite Hfresh.
  - intros pk peers Hpk. by rewrite Hp, Hpk.
  - intros pk Hpk. by rewrite Hp, Hpk.
  - intros sid Hsid. by rewrite Hr, Hsid.
Qed.

(** * Properties of the other components *)

(** ** Loading the public keys *)

Section KeyLoadingProperties.
Context `{Base64}.

Lemma DecodePublicKeyWithError_inr s pk :
  DecodePublicKeyWithError s = inr pk ->
  base64_DecodeString s = Some pk /\ length pk = 32%nat.
Proof.
  unfold DecodePublicKeyWithError.
  destruct (base64_DecodeString s) as [decoded|]; [|done].
  destruct (Nat.eqb_spec (length decoded) 32); [|done]. by intros [= <-].
Qed.

Lemma valid_pair_Some kp p :
  valid_pair kp = Some p ->
  DecodePublicKeyWithError (Key1 kp) = inr (PublicKey1 p)
  /\ DecodePublicKeyWithError (Key2 kp) = inr (PublicKey2 p).
Proof.
  unfold valid_pair.
  destruct (DecodePublicKeyWithError (Key1 kp)) as [?|k1]; [done|].
  destruct (DecodePublicKeyWithError (Key2 kp)) as [?|k2]; [done|].
  by intros [= <-].
Qed.

(** The loop: the valid pairs are appended in order, and an invalid key is
    recorded for every pair that is not valid. *)
Lemma load_pair_fold keyPairs ok bad :
  exists bad',
    foldl load_pair (ok, bad) keyPairs = (ok ++ omap valid_pair keyPairs, bad ++ bad')
    /\ (bad' = [] <-> forall kp, kp ∈ keyPairs -> is_Some (valid_pair kp)).
Proof.
  revert ok bad. induction keyPairs as [|kp rest IH]; intros ok bad; cbn [foldl].
  { exists []. cbn. rewrite !app_nil_r. split; [done|]. split; [|done].
    intros _ kp Hin. by apply elem_of_nil in Hin. }
  assert (Hcons : omap valid_pair (kp :: rest)
                  = match valid_pair kp with
                    | Some p => p :: omap valid_pair rest
                    | None => omap valid_pair rest
                    end) by done.
  rewrite Hcons. clear Hcons.
  assert (Hnot : valid_pair kp = None ->
            ~ forall kp', kp' ∈ kp :: rest -> is_Some (valid_pair kp')).
  { intros Hnone Hall. destruct (Hall kp) as [p Hp]; [apply elem_of_cons; by left|].
    congruence. }
  unfold load_pair at 2. unfold valid_pair at 1 in Hnot. unfold valid_pair at 1.
  destruct (DecodePublicKeyWithError (Key1 kp)) as [e1|k1] eqn:Hd1.
  - destruct (IH ok (bad ++ [Key1 kp])) as (bad' & -> & _).
    exists (Key1 kp :: bad'). rewrite <- app_assoc. split; [done|].
    split; [done|]. intros Hall. by destruct Hnot.
  - destruct (DecodePublicKeyWithError (Key2 kp)) as [e2|k2] eqn:Hd2.
    + destruct (IH ok (bad ++ [Key2 kp])) as (bad' & -> & _).
      exists (Key2 kp :: bad'). rewrite <- app_assoc. split; [done|].
      split; [done|]. intros Hall. by destruct Hnot.
    + destruct (IH (ok ++ [{| PublicKey1 := k1; PublicKey2 := k2 |}]) bad)
        as (bad' & -> & Hbad).
      exists bad'. rewrite <- app_assoc. split; [done|].
      rewrite Hbad. split.
      * intros Hall kp' Hin. apply elem_of_cons in Hin as [->|Hin]; [|by apply Hall].
        unfold valid_pair. rewrite Hd1, Hd2. by eexists.
      * intros Hall kp' Hin. apply Hall. apply elem_of_cons. by right.
Qed.

(** X19. [LoadPublicKeyPairsFromConfig] returns, in their order, the pairs
    both of whose keys decode from base64 to 32 bytes, also when it returns
    an error; it returns an error exactly when some pair is not of that
    kind; and every key it returns has 32 bytes. *)
Theorem LoadPublicKeyPairsFromConfig_valid_pairs keyPairs :
  fst (LoadPublicKeyPairsFromConfig keyPairs) = omap valid_pair keyPairs
  /\ (snd (LoadPublicKeyPairsFromConfig keyPairs) = None
      <-> forall kp, kp ∈ keyPairs -> is_Some (valid_pair kp))
  /\ (forall p, p ∈ fst (LoadPublicKeyPairsFromConfig keyPairs) ->
        length (PublicKey1 p) = 32%nat /\ length (PublicKey2 p) = 32%nat).
Proof.
  unfold LoadPublicKeyPairsFromConfig.
  destruct (load_pair_fold keyPairs [] []) as (bad' & -> & Hbad). cbn [app].
  assert (Hfst : fst (if (0 <? length bad')%nat
                      then (omap valid_pair keyPairs,
                            Some (NewInvalidPublicKeyError
                                    ("invalid keys: " +:+ fmt_strings bad')))
                      else (omap valid_pair keyPairs, None))
                 = omap valid_pair keyPairs) by (by destruct (0 <? length bad')%nat).
  rewrite Hfst. split; [done|]. split.
  - rewrite <- Hbad. destruct bad'; cbn; split; done.
  - intros p Hin. apply list_elem_of_omap in Hin as (kp & _ & Hp).
    apply valid_pair_Some in Hp as [Hd1 Hd2].
    apply DecodePublicKeyWithError_inr in Hd1 as [_ Hd1].
    apply DecodePublicKeyWithError_inr in Hd2 as [_ Hd2]. done.
Qed.

(** X20. The keys admitted by the relay that [main] builds from the
    configured key pairs are keys of 32 bytes that decode from a configured
    string whose pair is valid, and the key of the other string of the pair
    is a partner. *)
Theorem configured_keys_admitted sender keyPairs expiration pk :
  admitted (NewPeerManager sender (fst (LoadPublicKeyPairsFromConfig keyPairs)) expiration)
    pk ->
  length pk = 32%nat
  /\ exists kp other, kp ∈ keyPairs
       /\ ((base64_DecodeString (Key1 kp) = Some pk
            /\ base64_DecodeString (Key2 kp) = Some other)
           \/ (base64_DecodeString (Key2 kp) = Some pk
               /\ base64_DecodeString (Key1 kp) = Some other))
       /\ other ∈ partners
                    (NewPeerManager sender (fst (LoadPublicKeyPairsFromConfig keyPairs))
                       expiration) pk.
Proof.
  destruct (load_pair_fold keyPairs [] []) as (bad' & Hfold & _).
  assert (Hfst : fst (LoadPublicKeyPairsFromConfig keyPairs) = omap valid_pair keyPairs).
  { unfold LoadPublicKeyPairsFromConfig. rewrite Hfold. cbn [app].
    by destruct (0 <? length bad')%nat. }
  rewrite Hfst. unfold NewPeerManager at 1. rewrite NewPeerManager_admitted_fold.
  intros [[k Hk]|(p & Hin & Hp)]; [cbn in Hk; by rewrite lookup_empty in Hk|].
  pose proof Hin as Hin'.
  apply list_elem_of_omap in Hin as (kp & Hkp & Hvalid).
  apply valid_pair_Some in Hvalid as [Hd1 Hd2].
  apply DecodePublicKeyWithError_inr in Hd1 as [Hd1 L1].
  apply DecodePublicKeyWithError_inr in Hd2 as [Hd2 L2].
  destruct Hp as [<-|<-]; (split; [done|]).
  - exists kp, (PublicKey2 p). split; [done|]. split; [by left|].
    apply NewPeerManager_partners_configured. exists p. split; [done|]. by left.
  - exists kp, (PublicKey1 p). split; [done|]. split; [by right|].
    apply NewPeerManager_partners_configured. exists p. split; [done|]. by right.
Qed.

End KeyLoadingProperties.
(** ** The buffer pool *)

(** A run of [Get]s and [Put]s on a pool that is open and holds no more
    buffers than its capacity. *)
Lemma BufferPool_run_invariant ops :
  forall bp,
    chan_closed (pool bp) = false ->
    0 <= bufferSize bp ->
    Z.of_nat (length (chan_buf (pool bp))) <= chan_cap (pool bp) ->
    exists bufs bp',
      BufferPool_run ops bp = Some (bufs, bp')
      /\ chan_closed (pool bp') = false
      /\ bufferSize bp' = bufferSize bp
      /\ chan_cap (pool bp') = chan_cap (pool bp)
      /\ Z.of_nat (length (chan_buf (pool bp'))) <= chan_cap (pool bp)
      /\ (forall b, b ∈ bufs ->
            b = replicate (Z.to_nat (bufferSize bp)) x00
            \/ b ∈ chan_buf (pool bp) \/ b ∈ put_buffers ops)
      /\ (forall b, b ∈ chan_buf (pool bp') ->
            b ∈ chan_buf (pool bp) \/ b ∈ put_buffers ops).
Proof.
  induction ops as [|op rest IH]; intros bp Hopen Hsize Hlen.
  { exists [], bp. cbn. split; [done|]. split; [done|]. split; [done|].
    split; [done|]. split; [done|]. split.
    - intros b Hb. by apply elem_of_nil in Hb.
    - intros b Hb. by left. }
  destruct op as [|buf].
  - cbn [BufferPool_run]. unfold BufferPool_Get, chan_recv.
    destruct (chan_buf (pool bp)) as [|x q] eqn:Hq.
    + rewrite Hopen. destruct (Z.ltb_spec (bufferSize bp) 0) as [?|_]; [lia|].
      rewrite <- Hq in Hlen.
      destruct (IH bp Hopen Hsize Hlen)
        as (bufs & bp' & -> & ? & ? & ? & ? & Hbufs & Hpool).
      exists (replicate (Z.to_nat (bufferSize bp)) x00 :: bufs), bp'.
      split; [done|]. split; [done|]. split; [done|]. split; [done|].
      split; [done|]. split.
      * intros b Hb. apply elem_of_cons in Hb as [-> |Hb]; [by left|].
        destruct (Hbufs b Hb) as [?|[Hin|?]]; [by left| |right; by right].
        rewrite Hq in Hin. by apply elem_of_nil in Hin.
      * intros b Hb. destruct (Hpool b Hb) as [Hin|?]; [|by right].
        rewrite Hq in Hin. by apply elem_of_nil in Hin.
    + set (bp1 := {| pool := {| chan_buf := q; chan_cap := chan_cap (pool bp);
                                chan_closed := chan_closed (pool bp) |};
                     bufferSize := bufferSize bp |}).
      destruct (IH bp1) as (bufs & bp' & -> & ? & ? & ? & ? & Hbufs & Hpool).
      { done. } { done. }
      { cbn. cbn in Hlen. lia. }
      exists (x :: bufs), bp'.
      split; [done|]. split; [done|]. split; [done|]. split; [done|].
      split; [done|]. split.
      * intros b Hb. apply elem_of_cons in Hb as [-> |Hb].
        { right; left. apply elem_of_cons. by left. }
        destruct (Hbufs b Hb) as [?|[Hin|?]]; [by left| |right; by right].
        right; left. apply elem_of_cons. by right.
      * intros b Hb. destruct (Hpool b Hb) as [Hin|?]; [|by right].
        left. apply elem_of_cons. by right.
  - cbn [BufferPool_run]. unfold BufferPool_Put, chan_try_send. rewrite Hopen.
    assert (Hput : put_buffers (OpPut buf :: rest) = buf :: put_buffers rest) by done.
    rewrite Hput.
    destruct (Z.ltb_spec (Z.of_nat (length (chan_buf (pool bp)))) (chan_cap (pool bp)))
      as [Hroom|Hfull].
    + set (bp1 := {| pool := {| chan_buf := chan_buf (pool bp) ++ [buf];
                                chan_cap := chan_cap (pool bp);
                                chan_closed := false |};
                     bufferSize := bufferSize bp |}).
      destruct (IH bp1) as (bufs & bp' & -> & ? & ? & ? & ? & Hbufs & Hpool).
      { done. } { done. }
      { cbn. rewrite length_app. cbn. lia. }
      exists bufs, bp'.
      split; [done|]. split; [done|]. split; [done|]. split; [done|].
      split; [done|]. split.
      * intros b Hb. destruct (Hbufs b Hb) as [?|[Hin|?]]; [by left| |].
        -- cbn in Hin. apply elem_of_app in Hin as [?|Hin]; [right; by left|].
           apply list_elem_of_singleton in Hin as ->.
           right; right. apply elem_of_cons. by left.
        -- right; right. apply elem_of_cons. by right.
      * intros b Hb. destruct (Hpool b Hb) as [Hin|?].
        -- cbn in Hin. apply elem_of_app in Hin as [?|Hin]; [by left|].
           apply list_elem_of_singleton in Hin as ->.
           right. apply elem_of_cons. by left.
        -- right. apply elem_of_cons. by right.
    + set (bp1 := {| pool := pool bp; bufferSize := bufferSize bp |}).
      destruct (IH bp1) as (bufs & bp' & -> & ? & ? & ? & ? & Hbufs & Hpool);
        [done..|].
      exists bufs, bp'.
      split; [done|]. split; [done|]. split; [done|]. split; [done|].
      split; [done|]. split.
      * intros b Hb. destruct (Hbufs b Hb) as [?|[Hin|?]];
          [by left|right; by left|].
        right; right. apply elem_of_cons. by right.
      * intros b Hb. destruct (Hpool b Hb) as [Hin|?]; [by left|].
        right. apply elem_of_cons. by right.
Qed.

(** X21. On a pool made by [NewBufferPool] with a buffer size that is not
    negative, no sequence of [Get]s and [Put]s panics; the pool never holds
    more than [poolSize] buffers, and every buffer a [Get] returns is a new
    buffer of [bufferSize] zero bytes or a buffer that was [Put]. *)
Theorem BufferPool_run_safe poolSize size bp ops :
  NewBufferPool poolSize size = Some bp ->
  0 <= size ->
  exists bufs bp',
    BufferPool_run ops bp = Some (bufs, bp')
    /\ Z.of_nat (length (chan_buf (pool bp'))) <= poolSize
    /\ (forall b, b ∈ bufs ->
          b = replicate (Z.to_nat size) x00 \/ b ∈ put_buffers ops)
    /\ (forall b, b ∈ chan_buf (pool bp') -> b ∈ put_buffers ops).
Proof.
  unfold NewBufferPool, make_chan.
  destruct (Z.ltb_spec poolSize 0) as [?|Hpos]; [done|].
  intros [= <-] Hsize.
  destruct (BufferPool_run_invariant ops
              {| pool := {| chan_buf := []; chan_cap := poolSize; chan_closed := false |};
                 bufferSize := size |})
    as (bufs & bp' & Hrun & _ & _ & _ & Hlen & Hbufs & Hpool); [done|done|cbn; lia|].
  exists bufs, bp'. split; [done|]. split; [done|]. split.
  - intros b Hb. destruct (Hbufs b Hb) as [?|[Hin|?]]; [by left| |by right].
    by apply elem_of_nil in Hin.
  - intros b Hb. destruct (Hpool b Hb) as [Hin|?]; [|done].
    by apply elem_of_nil in Hin.
Qed.

(** [Put]s on an open pool: the buffers for which there is room are
    queued, the others are dropped. *)
Lemma BufferPool_run_puts bufs :
  forall q c s rest,
    Z.of_nat (length q) <= c ->
    BufferPool_run ((OpPut <$> bufs) ++ rest)
      {| pool := {| chan_buf := q; chan_cap := c; chan_closed := false |};
         bufferSize := s |}
    = BufferPool_run rest
        {| pool := {| chan_buf := q ++ take (Z.to_nat c - length q) bufs;
                      chan_cap := c; chan_closed := false |};
           bufferSize := s |}.
Proof.
  induction bufs as [|b bufs IH]; intros q c s rest Hlen.
  { cbn [fmap list_fmap app]. by rewrite take_nil, app_nil_r. }
  cbn [fmap list_fmap app BufferPool_run].
  unfold BufferPool_Put, chan_try_send. cbn [pool chan_closed chan_buf chan_cap bufferSize].
  destruct (Z.ltb_spec (Z.of_nat (length q)) c) as [Hroom|Hfull].
  - change (list_fmap _ _ OpPut bufs) with (OpPut <$> bufs).
    rewrite IH by (rewrite length_app; cbn; lia).
    rewrite length_app. cbn [length].
    replace (Z.to_nat c - length q)%nat with (S (Z.to_nat c - (length q + 1)))%nat by lia.
    cbn [take]. by rewrite <- app_assoc.
  - change (list_fmap _ _ OpPut bufs) with (OpPut <$> bufs).
    rewrite IH by done.
    replace (Z.to_nat c - length q)%nat with 0%nat by lia. done.
Qed.

(** [Get]s on an open pool: the queued buffers, oldest first, then new
    buffers of zeros. *)
Lemma BufferPool_run_gets n :
  forall q c s,
    0 <= s ->
    BufferPool_run (replicate n OpGet)
      {| pool := {| chan_buf := q; chan_cap := c; chan_closed := false |};
         bufferSize := s |}
    = Some (take n q ++ replicate (n - length q) (replicate (Z.to_nat s) x00),
            {| pool := {| chan_buf := drop n q; chan_cap := c; chan_closed := false |};
               bufferSize := s |}).
Proof.
  induction n as [|n IH]; intros q c s Hs.
  { cbn. by rewrite drop_0. }
  cbn [replicate BufferPool_run]. unfold BufferPool_Get, chan_recv.
  cbn [pool chan_closed chan_buf chan_cap bufferSize].
  destruct q as [|x q].
  - destruct (Z.ltb_spec s 0) as [?|_]; [lia|].
    rewrite IH by done. cbn. by rewrite Nat.sub_0_r, take_nil, drop_nil.
  - rewrite IH by done. done.
Qed.

(** X22. The pool is a queue of [poolSize] places: of the buffers put into
    a new pool the first [poolSize] are kept and the others dropped, and
    the [Get]s that follow return the kept buffers, oldest first, and then
    new buffers of zeros. *)
Theorem BufferPool_puts_then_gets poolSize size bp bufs n :
  NewBufferPool poolSize size = Some bp ->
  0 <= size ->
  exists bp',
    BufferPool_run ((OpPut <$> bufs) ++ replicate n OpGet) bp
    = Some (take n (take (Z.to_nat poolSize) bufs)
              ++ replicate (n - length (take (Z.to_nat poolSize) bufs))
                   (replicate (Z.to_nat size) x00),
            bp')
    /\ chan_buf (pool bp') = drop n (take (Z.to_nat poolSize) bufs).
Proof.
  unfold NewBufferPool, make_chan.
  destruct (Z.ltb_spec poolSize 0) as [?|Hpos]; [done|].
  intros [= <-] Hsize.
  rewrite BufferPool_run_puts by (cbn; lia).
  cbn [app length]. rewrite Nat.sub_0_r, BufferPool_run_gets by done.
  eexists. split; [reflexivity|done].
Qed.
(** ** The worker pool *)

(** The capacity of the queue of a pool that could be made. *)
Lemma NewWorkerPool_Some n wp :
  - 2 ^ 63 <= n < 2 ^ 63 ->
  NewWorkerPool n = Some wp ->
  n < 2 ^ 62
  /\ wp = {| jobQueue := {| chan_buf := []; chan_cap := 2 * Z.max 1 n;
                            chan_closed := false |};
             maxWorkers := Z.max 1 n |}.
Proof.
  intros Hint. unfold NewWorkerPool, make_chan.
  assert (Hmax : (if n <? 1 then 1 else n) = Z.max 1 n)
    by (destruct (Z.ltb_spec n 1); lia).
  rewrite Hmax.
  destruct (Z.ltb_spec (wrap_int (Z.max 1 n * 2)) 0) as [?|Hpos]; [done|].
  intros [= <-].
  assert (Hsmall : n < 2 ^ 62).
  { destruct (Z_lt_le_dec n (2 ^ 62)) as [?|Hbig]; [done|]. exfalso.
    unfold wrap_int in Hpos.
    assert (Hmod : (Z.max 1 n * 2 + 2 ^ 63) mod 2 ^ 64 = Z.max 1 n * 2 + 2 ^ 63 - 2 ^ 64).
    { symmetry. apply (Z.mod_unique _ _ 1); lia. }
    lia. }
  split; [done|]. f_equal. f_equal. unfold wrap_int.
  rewrite Z.mod_small by lia. lia.
Qed.

(** A burst of submissions to an open queue with nobody receiving. *)
Lemma WorkerPool_run_burst jobs :
  forall t q c m,
    Z.of_nat (length q) <= c ->
    WorkerPool_run ((fun j => EvSubmit (job_Addr j) (job_Data j)) <$> jobs) t
      {| jobQueue := {| chan_buf := q; chan_cap := c; chan_closed := false |};
         maxWorkers := m |}
    = Some ({| accepted := accepted t ++ take (Z.to_nat c - length q) jobs;
               dropped := dropped t ++ drop (Z.to_nat c - length q) jobs;
               handled := handled t |},
            {| jobQueue := {| chan_buf := q ++ take (Z.to_nat c - length q) jobs;
                              chan_cap := c; chan_closed := false |};
               maxWorkers := m |}).
Proof.
  induction jobs as [|j jobs IH]; intros t q c m Hlen.
  { cbn. rewrite take_nil, drop_nil, !app_nil_r. by destruct t. }
  cbn [fmap list_fmap WorkerPool_run]. unfold WorkerPool_Submit, chan_try_send.
  cbn [jobQueue chan_closed chan_buf chan_cap maxWorkers].
  change (list_fmap _ _ ?f jobs) with (f <$> jobs).
  assert (Hj : {| job_Addr := job_Addr j; job_Data := job_Data j |} = j) by (by destruct j).
  rewrite Hj.
  destruct (Z.ltb_spec (Z.of_nat (length q)) c) as [Hroom|Hfull].
  - rewrite IH by (rewrite length_app; cbn; lia).
    cbn [accepted dropped handled]. rewrite length_app. cbn [length].
    replace (Z.to_nat c - length q)%nat with (S (Z.to_nat c - (length q + 1)))%nat by lia.
    cbn [take drop]. by rewrite <- !app_assoc.
  - rewrite IH by done. cbn [accepted dropped handled].
    replace (Z.to_nat c - length q)%nat with 0%nat by lia.
    cbn [take drop]. by rewrite <- !app_assoc.
Qed.

(** X23. A worker pool that could be made has at least one worker and a
    queue of twice as many places: of a burst of jobs submitted while no
    worker receives, the first [2 * max 1 maxWorkers] are accepted and all
    the others are dropped. *)
Theorem WorkerPool_queue_capacity n wp jobs :
  - 2 ^ 63 <= n < 2 ^ 63 ->
  NewWorkerPool n = Some wp ->
  maxWorkers wp = Z.max 1 n
  /\ exists t wp',
       WorkerPool_run ((fun j => EvSubmit (job_Addr j) (job_Data j)) <$> jobs)
         empty_trace wp = Some (t, wp')
       /\ accepted t = take (Z.to_nat (2 * Z.max 1 n)) jobs
       /\ dropped t = drop (Z.to_nat (2 * Z.max 1 n)) jobs
       /\ handled t = [].
Proof.
  intros Hint Hnew. destruct (NewWorkerPool_Some n wp Hint Hnew) as [_ ->].
  split; [done|]. rewrite WorkerPool_run_burst by (cbn; lia).
  cbn [length]. rewrite Nat.sub_0_r. eexists _, _. split; [reflexivity|]. done.
Qed.

(** What a run keeps: the accepted jobs are the handled jobs followed by
    the queued ones, and every submitted job was accepted or dropped. *)
Lemma WorkerPool_run_invariant evs :
  forall t wp t' wp',
    WorkerPool_run evs t wp = Some (t', wp') ->
    accepted t = handled t ++ chan_buf (jobQueue wp) ->
    Z.of_nat (length (chan_buf (jobQueue wp))) <= chan_cap (jobQueue wp) ->
    accepted t' = handled t' ++ chan_buf (jobQueue wp')
    /\ Z.of_nat (length (chan_buf (jobQueue wp'))) <= chan_cap (jobQueue wp)
    /\ accepted t' ++ dropped t' ≡ₚ accepted t ++ dropped t ++ submitted evs
    /\ (exists hs, handled t' = handled t ++ hs).
Proof.
  induction evs as [|ev rest IH]; intros t wp t' wp' Hrun Hacc Hlen.
  { cbn in Hrun. injection Hrun as <- <-. split; [done|]. split; [done|].
    split; [cbn; by rewrite app_nil_r|]. exists []. by rewrite app_nil_r. }
  destruct ev as [addr data| |]; cbn [WorkerPool_run] in Hrun.
  - unfold WorkerPool_Submit, chan_try_send in Hrun.
    assert (Hsub : submitted (EvSubmit addr data :: rest)
                   = {| job_Addr := addr; job_Data := data |} :: submitted rest) by done.
    rewrite Hsub.
    destruct (chan_closed (jobQueue wp)); [done|].
    destruct (Z.ltb_spec (Z.of_nat (length (chan_buf (jobQueue wp))))
                (chan_cap (jobQueue wp))) as [Hroom|Hfull].
    + apply IH in Hrun as (Hacc' & Hlen' & Hperm & hs & Hhs);
        cbn [accepted dropped handled jobQueue chan_buf chan_cap maxWorkers] in *.
      * split; [done|]. split; [done|]. split; [|by exists hs].
        rewrite Hperm, <- app_assoc. apply Permutation_app_head.
        cbn [app]. apply Permutation_middle.
      * rewrite Hacc. by rewrite app_assoc.
      * rewrite length_app. cbn [length]. lia.
    + apply IH in Hrun as (Hacc' & Hlen' & Hperm & hs & Hhs);
        cbn [accepted dropped handled jobQueue chan_buf chan_cap maxWorkers] in *;
        [|done..].
      split; [done|]. split; [done|]. split; [|by exists hs].
      rewrite Hperm, <- app_assoc. done.
  - unfold worker_receive, chan_recv in Hrun.
    assert (Hsub : submitted (EvReceive :: rest) = submitted rest) by done.
    rewrite Hsub.
    destruct (chan_buf (jobQueue wp)) as [|job q] eqn:Hq.
    + assert (Hrun' : WorkerPool_run rest t wp = Some (t', wp'))
        by (by destruct (chan_closed (jobQueue wp))).
      apply IH in Hrun' as (Hacc' & Hlen' & Hperm & hs & Hhs);
        [|by rewrite Hq|by rewrite Hq].
      split; [done|]. split; [done|]. split; [done|]. by exists hs.
    + apply IH in Hrun as (Hacc' & Hlen' & Hperm & hs & Hhs);
        cbn [accepted dropped handled jobQueue chan_buf chan_cap maxWorkers] in *.
      * split; [done|]. split; [done|]. split; [done|].
        exists (job :: hs). by rewrite Hhs, <- app_assoc.
      * rewrite Hacc. by rewrite <- app_assoc.
      * cbn [length] in Hlen. lia.
  - unfold WorkerPool_close, chan_close in Hrun.
    assert (Hsub : submitted (EvClose :: rest) = submitted rest) by done.
    rewrite Hsub.
    destruct (chan_closed (jobQueue wp)); [done|].
    apply IH in Hrun as (Hacc' & Hlen' & Hperm & hs & Hhs);
      cbn [accepted dropped handled jobQueue chan_buf chan_cap maxWorkers] in *;
      [|done..].
    split; [done|]. split; [done|]. split; [done|]. by exists hs.
Qed.

(** X24. In every run of a worker pool that does not panic, whatever the
    order of submissions, receives and the shutdown: the jobs the workers
    have received (each is passed to the handler) followed by the jobs
    still queued are the accepted jobs in the order of their submission,
    the queue never holds more jobs than its capacity, and each submitted
    job was either accepted or dropped. *)
Theorem WorkerPool_jobs_handled_in_order n wp evs t wp' :
  NewWorkerPool n = Some wp ->
  WorkerPool_run evs empty_trace wp = Some (t, wp') ->
  accepted t = handled t ++ chan_buf (jobQueue wp')
  /\ Z.of_nat (length (chan_buf (jobQueue wp'))) <= chan_cap (jobQueue wp)
  /\ accepted t ++ dropped t ≡ₚ submitted evs.
Proof.
  intros Hnew Hrun.
  assert (Hempty : chan_buf (jobQueue wp) = [] /\ 0 <= chan_cap (jobQueue wp)).
  { unfold NewWorkerPool, make_chan in Hnew.
    destruct (Z.ltb_spec (wrap_int ((if n <? 1 then 1 else n) * 2)) 0); [done|].
    injection Hnew as <-. done. }
  destruct Hempty as [Hq Hcap].
  apply WorkerPool_run_invariant in Hrun as (Hacc & Hlen & Hperm & _).
  - done.
  - by rewrite Hq.
  - rewrite Hq. cbn. lia.
Qed.

(** On a closed queue the only events that do not panic are receives. *)
Lemma WorkerPool_run_closed evs :
  forall t wp,
    chan_closed (jobQueue wp) = true ->
    WorkerPool_run evs t wp = None <-> exists ev, ev ∈ evs /\ ev <> EvReceive.
Proof.
  induction evs as [|ev rest IH]; intros t wp Hclosed.
  { cbn. split; [done|]. intros (ev & Hin & _). by apply elem_of_nil in Hin. }
  destruct ev as [addr data| |]; cbn [WorkerPool_run].
  - unfold WorkerPool_Submit, chan_try_send. rewrite Hclosed. split; [|done].
    intros _. exists (EvSubmit addr data). split; [apply elem_of_cons; by left|done].
  - assert (Hrecv : exists job' wp1,
               worker_receive wp = (job', wp1) /\ chan_closed (jobQueue wp1) = true).
    { unfold worker_receive, chan_recv.
      destruct (chan_buf (jobQueue wp)) as [|job q]; [rewrite Hclosed|]; by eexists _, _. }
    destruct Hrecv as (job' & wp1 & -> & Hclosed1).
    assert (Hrest : forall t1, WorkerPool_run rest t1 wp1 = None
                      <-> exists ev, ev ∈ EvReceive :: rest /\ ev <> EvReceive).
    { intros t1. rewrite (IH t1 wp1 Hclosed1). split; intros (ev & Hin & Hne); exists ev.
      - split; [apply elem_of_cons; by right|done].
      - apply elem_of_cons in Hin as [-> |Hin]; done. }
    destruct job'; apply Hrest.
  - unfold WorkerPool_close, chan_close. rewrite Hclosed. split; [|done].
    intros _. exists EvClose. split; [apply elem_of_cons; by left|done].
Qed.

Lemma WorkerPool_run_open evs :
  forall t wp,
    chan_closed (jobQueue wp) = false ->
    WorkerPool_run evs t wp = None
    <-> exists pre post ev,
          evs = pre ++ EvClose :: post /\ ev ∈ post /\ ev <> EvReceive.
Proof.
  induction evs as [|e0 rest IH]; intros t wp Hopen.
  { cbn. split; [done|]. intros (pre & post & ev & Heq & _). by destruct pre. }
  assert (Hshift : forall e, e <> EvClose ->
            (exists pre post ev, rest = pre ++ EvClose :: post /\ ev ∈ post /\ ev <> EvReceive)
            <-> (exists pre post ev,
                   e :: rest = pre ++ EvClose :: post /\ ev ∈ post /\ ev <> EvReceive)).
  { intros e He. split; intros (pre & post & ev & Heq & Hin & Hne).
    - exists (e :: pre), post, ev. by rewrite Heq.
    - destruct pre as [|e' pre]; cbn in Heq.
      + injection Heq as He' Hrest. by subst e.
      + injection Heq as He' Hrest. by exists pre, post, ev. }
  destruct e0 as [addr data| |]; cbn [WorkerPool_run].
  - rewrite <- Hshift by done.
    unfold WorkerPool_Submit, chan_try_send. rewrite Hopen.
    destruct (Z.of_nat (length (chan_buf (jobQueue wp))) <? chan_cap (jobQueue wp));
      by apply IH.
  - rewrite <- Hshift by done.
    unfold worker_receive, chan_recv.
    destruct (chan_buf (jobQueue wp)) as [|job q]; [rewrite Hopen|]; by apply IH.
  - unfold WorkerPool_close, chan_close. rewrite Hopen.
    rewrite WorkerPool_run_closed by done. split.
    + intros (ev & Hin & Hne). by exists [], rest, ev.
    + intros (pre & post & ev & Heq & Hin & Hne).
      destruct pre as [|e' pre]; cbn in Heq.
      * injection Heq as Hrest. subst rest. by exists ev.
      * injection Heq as He Hrest. subst rest. exists EvClose. split; [|done].
        apply elem_of_app. right. apply elem_of_cons. by left.
Qed.

(** X25. A run of a worker pool panics exactly when something other than
    a receive follows the shutdown: a submission to the closed queue or a
    second shutdown. *)
Theorem WorkerPool_run_panics_iff n wp evs :
  NewWorkerPool n = Some wp ->
  WorkerPool_run evs empty_trace wp = None
  <-> exists pre post ev,
        evs = pre ++ EvClose :: post /\ ev ∈ post /\ ev <> EvReceive.
Proof.
  intros Hnew. apply WorkerPool_run_open.
  unfold NewWorkerPool, make_chan in Hnew.
  destruct (wrap_int ((if n <? 1 then 1 else n) * 2) <? 0); [done|].
  by injection Hnew as <-.
Qed.
(** ** The logger *)

Lemma app_singleton_neq {A} (l : list A) (x : A) : l ++ [x] <> l.
Proof.
  intros Heq. apply (f_equal length) in Heq. rewrite length_app in Heq.
  cbn in Heq. lia.
Qed.

(** X26. The logger that [main] builds from the configured level string
    writes every error message, to the standard error; it leaves out the
    warnings only for the level [error], the informations only for the
    levels [warning] and [error], and it writes the debug messages only for
    the level [debug].  A string that names no level acts as [info]. *)
Theorem Logger_of_level_string level message out :
  Logger_Error (NewLogger (GetLogLevel level)) message out
  = out ++ [{| log_file := Stderr; log_prefix := "[ERROR] "; log_message := message |}]
  /\ (Logger_Warning (NewLogger (GetLogLevel level)) message out = out
      <-> level = "error")
  /\ (Logger_Info (NewLogger (GetLogLevel level)) message out = out
      <-> level = "warning" \/ level = "error")
  /\ (Logger_Debug (NewLogger (GetLogLevel level)) message out = out
      <-> level <> "debug").
Proof.
  unfold GetLogLevel, Logger_Error, Logger_Warning, Logger_Info, Logger_Debug, NewLogger.
  cbn [minLevel].
  destruct (String.eqb_spec level "debug") as [->|Hd].
  { cbn. split; [done|]. split; [|split].
    - split; [intros Heq; by apply app_singleton_neq in Heq|done].
    - split; [intros Heq; by apply app_singleton_neq in Heq|by intros [|]].
    - split; [intros Heq; by apply app_singleton_neq in Heq|done]. }
  destruct (String.eqb_spec level "info") as [->|Hi].
  { cbn. split; [done|]. split; [|split].
    - split; [intros Heq; by apply app_singleton_neq in Heq|done].
    - split; [intros Heq; by apply app_singleton_neq in Heq|by intros [|]].
    - done. }
  destruct (String.eqb_spec level "warning") as [->|Hw].
  { cbn. split; [done|]. split; [|split].
    - split; [intros Heq; by apply app_singleton_neq in Heq|done].
    - split; [|done]. by left.
    - done. }
  destruct (String.eqb_spec level "error") as [->|He].
  { cbn. split; [done|]. split; [|split].
    - done.
    - split; [|done]. by right.
    - done. }
  cbn. split; [done|]. split; [|split].
  - split; [intros Heq; by apply app_singleton_neq in Heq|done].
  - split; [intros Heq; by apply app_singleton_neq in Heq|by intros [|]].
  - done.
Qed.

(** ** The configuration *)

Section ConfigurationProperties.
Context `{Parsing}.

(** X27. In the configuration [LoadConfig] returns, every setting is the
    value of its flag when the flag is not zero or empty, else the value of
    its environment variable when that is set and can be parsed, else the
    value of the configuration file or, without a file, the default.  The
    key pairs are those of the file followed by those of
    [WG_KNOT_KEY_PAIRS]; no flag changes them. *)
Theorem LoadConfig_precedence p c :
  LoadConfig p = inr c ->
  exists b,
    base_Config p = inr b
    /\ ListenAddress (Server c)
       = (if String.eqb (listenAddressFlag (flags p)) ""
          then getEnvString (Getenv p) "WG_KNOT_LISTEN_ADDRESS" (ListenAddress (Server b))
          else listenAddressFlag (flags p))
    /\ Port (Server c)
       = (if portFlag (flags p) =? 0
          then getEnvInt (Getenv p) "WG_KNOT_PORT" (Port (Server b))
          else portFlag (flags p))
    /\ LogLevel (Server c)
       = (if String.eqb (logLevelFlag (flags p)) ""
          then getEnvString (Getenv p) "WG_KNOT_LOG_LEVEL" (LogLevel (Server b))
          else logLevelFlag (flags p))
    /\ PeerExpiration (Server c)
       = (if peerExpirationFlag (flags p) =? 0
          then getEnvDuration (Getenv p) "WG_KNOT_PEER_EXPIRATION"
                 (PeerExpiration (Server b))
          else peerExpirationFlag (flags p))
    /\ PoolSize (BufferPool_ c)
       = (if poolSizeFlag (flags p) =? 0
          then getEnvInt (Getenv p) "WG_KNOT_POOL_SIZE" (PoolSize (BufferPool_ b))
          else poolSizeFlag (flags p))
    /\ BufferSize (BufferPool_ c)
       = (if bufferSizeFlag (flags p) =? 0
          then getEnvInt (Getenv p) "WG_KNOT_BUFFER_SIZE" (BufferSize (BufferPool_ b))
          else bufferSizeFlag (flags p))
    /\ MaxWorkers (WorkerPool_ c)
       = (if maxWorkersFlag (flags p) =? 0
          then getEnvInt (Getenv p) "WG_KNOT_MAX_WORKERS" (MaxWorkers (WorkerPool_ b))
          else maxWorkersFlag (flags p))
    /\ KeyPairs c
       = KeyPairs b
           ++ (if String.eqb (Getenv p "WG_KNOT_KEY_PAIRS") "" then []
               else env_key_pairs (Getenv p "WG_KNOT_KEY_PAIRS")).
Proof.
  unfold LoadConfig, base_Config.
  destruct (Stat_IsNotExist p (config_file_path p)) eqn:Hstat; cbn [negb andb].
  - destruct (String.eqb (config_file_path p) DefaultConfigPath); cbn [negb]; [|done].
    intros [= <-]. exists default_Config. split; [done|].
    unfold apply_flags, loadFromEnvironment.
    cbn [Server KeyPairs BufferPool_ WorkerPool_ ListenAddress Port LogLevel
         PeerExpiration PoolSize BufferSize MaxWorkers].
    repeat (split; [match goal with
                    | |- (if negb ?b then _ else _) = _ => by destruct b
                    end|]).
    destruct (String.eqb (Getenv p "WG_KNOT_KEY_PAIRS") ""); cbn [negb]; [|done].
    by rewrite app_nil_r.
  - destruct (toml_DecodeFile p (config_file_path p) default_Config) as [err|b]; [done|].
    intros [= <-]. exists b. split; [done|].
    unfold apply_flags, loadFromEnvironment.
    cbn [Server KeyPairs BufferPool_ WorkerPool_ ListenAddress Port LogLevel
         PeerExpiration PoolSize BufferSize MaxWorkers].
    repeat (split; [match goal with
                    | |- (if negb ?b then _ else _) = _ => by destruct b
                    end|]).
    destruct (String.eqb (Getenv p "WG_KNOT_KEY_PAIRS") ""); cbn [negb]; [|done].
    by rewrite app_nil_r.
Qed.

(** X28. [LoadConfig] fails in two cases only: the configuration file does
    not exist and its path is not the default path, or the file is there
    and cannot be decoded.  No value of a flag or of an environment
    variable makes it fail, and a missing file at the default path does
    not. *)
Theorem LoadConfig_fails_iff p :
  (exists err, LoadConfig p = inl err)
  <-> (Stat_IsNotExist p (config_file_path p) = true
       /\ config_file_path p <> DefaultConfigPath)
      \/ (Stat_IsNotExist p (config_file_path p) = false
          /\ exists err, toml_DecodeFile p (config_file_path p) default_Config = inl err).
Proof.
  unfold LoadConfig.
  destruct (Stat_IsNotExist p (config_file_path p)) eqn:Hstat; cbn [negb andb].
  - destruct (String.eqb_spec (config_file_path p) DefaultConfigPath) as [Heq|Hne];
      cbn [negb].
    + split; [by intros [err ?]|]. intros [[_ Hne]|[? _]]; done.
    + split; [|by eexists]. intros _. by left.
  - destruct (toml_DecodeFile p (config_file_path p) default_Config) as [err|b].
    + split; [|by eexists]. intros _. right. split; [done|]. by eexists.
    + split; [by intros [err ?]|]. intros [[? _]|[_ [err ?]]]; done.
Qed.

End ConfigurationProperties.

End Properties.

(** * The properties on concrete runs *)

Import Scenarios.

Lemma order_AB_range : range_order order_AB (PublicKeyToMac1KeyMap pm_AB).
Proof. unfold range_order. vm_compute. apply perm_swap. Qed.

Lemma pm_AB_reachable : reachable pm_AB.
Proof. apply reachable_New. Qed.

Lemma pm_initiated_reachable : reachable pm_initiated.
Proof.
  eapply reachable_step; [apply pm_AB_reachable|].
  apply step_HandlePacket, order_AB_range.
Qed.

(** Scenarios S1, S2, S3, S5 and S6 of the specification. *)

Example scenario_S1 :
  HandlePacket Background order_AB 0 addr_1_2_3_4 packet_S1 pm_AB
  = (Some (ErrInvalidPacket "unknown packet type"), pm_AB).
Proof. reflexivity. Qed.

Example scenario_S2 :
  HandlePacket Background order_AB 0 addr_1_2_3_4 packet_S2 pm_AB
  = (Some (ErrInvalidPacket "invalid Type1 packet length"), pm_AB).
Proof. reflexivity. Qed.

Example scenario_S3 :
  length packet_S3 = 148%nat
  /\ HandlePacket Background order_AB 0 addr_1_2_3_4 packet_S3 pm_AB
     = (Some (ErrAuthenticationFailed "mac1 verification failed"), pm_AB).
Proof. split; vm_compute; reflexivity. Qed.

Example scenario_S5 :
  length (response sid_55667788 sid_11223344 pkA) = 92%nat
  /\ fst (HandlePacket Background order_AB 7 addr_5_6_7_8
            (response sid_55667788 sid_11223344 pkA) pm_initiated) = None
  /\ sent (snd (HandlePacket Background order_AB 7 addr_5_6_7_8
                  (response sid_55667788 sid_11223344 pkA) pm_initiated))
     = [(addr_1_2_3_4, response sid_55667788 sid_11223344 pkA)]
  /\ (Addr <$> (heap (snd (HandlePacket Background order_AB 7 addr_5_6_7_8
                             (response sid_55667788 sid_11223344 pkA) pm_initiated))
                <$> ReceiverToPeerMap
                      (snd (HandlePacket Background order_AB 7 addr_5_6_7_8
                              (response sid_55667788 sid_11223344 pkA) pm_initiated))
                      !! sid_55667788))
     = Some addr_5_6_7_8.
Proof. repeat split; vm_compute; reflexivity. Qed.

Example scenario_S6 :
  length packet_S6 = 64%nat
  /\ HandlePacket Background order_AB 0 addr_1_2_3_4 packet_S6 pm_AB
     = (Some (ErrPeerNotFound "no peer found for receiver ID: deadbeef"), pm_AB).
Proof. split; vm_compute; reflexivity. Qed.

(** Scenario S4 on the concrete relay: nothing is sent. *)
Lemma S4_initiation_recorded_not_sent_witness :
  fst (HandlePacket Background order_AB 5 addr_1_2_3_4
         (initiation sid_11223344 pkB) pm_S4) = None
  /\ sent (snd (HandlePacket Background order_AB 5 addr_1_2_3_4
                  (initiation sid_11223344 pkB) pm_S4)) = sent pm_S4
  /\ ReceiverToPeerMap (snd (HandlePacket Background order_AB 5 addr_1_2_3_4
                               (initiation sid_11223344 pkB) pm_S4))
       !! [x11; x22; x33; x44] = Some (next_loc pm_S4)
  /\ heap (snd (HandlePacket Background order_AB 5 addr_1_2_3_4
                  (initiation sid_11223344 pkB) pm_S4)) (next_loc pm_S4)
     = {| Addr := addr_1_2_3_4; Timestamp := 5 |}
  /\ PublicKeyToPeersMap (snd (HandlePacket Background order_AB 5 addr_1_2_3_4
                                 (initiation sid_11223344 pkB) pm_S4)) !! pkA
     = Some [0%nat; next_loc pm_S4].
Proof.
  apply (S4_initiation_recorded_not_sent Background order_AB 5 addr_1_2_3_4
           (initiation sid_11223344 pkB) pm_S4 pkA pkB 0%nat).
  - reflexivity.
  - discriminate.
  - vm_compute; reflexivity.
  - vm_compute; reflexivity.
  - vm_compute; reflexivity.
  - vm_compute; lia.
  - reflexivity.
  - reflexivity.
  - reflexivity.
  - reflexivity.
  - reflexivity.
  - vm_compute; reflexivity.
  - vm_compute; reflexivity.
Defined.

(** C1 as stated fails: in scenario S4 (pair (pkA, pkB), 10.0.0.1:1111 in
    [endpoints_by_pk[pkA]], a 148-byte Initiation from 1.2.3.4:5000 with
    sender index 11 22 33 44 that authenticates as pkB) no call of
    [SendPacket] is made, so the packet is not sent to 10.0.0.1:1111. *)
Lemma S4_packet_not_sent_to_10_0_0_1 :
  PublicKeyToPeersMap pm_S4 !! pkA = Some [0%nat]
  /\ Addr (heap pm_S4 0%nat) = addr_10_0_0_1
  /\ length (initiation sid_11223344 pkB) = 148%nat
  /\ slice (initiation sid_11223344 pkB) 4 8 = [x11; x22; x33; x44]
  /\ CheckMAC1AndGetPublicKey Background order_AB (initiation sid_11223344 pkB) pm_S4
     = inr pkB
  /\ sent pm_S4 = []
  /\ (addr_10_0_0_1, initiation sid_11223344 pkB)
       ∉ sent (snd (HandlePacket Background order_AB 5 addr_1_2_3_4
                      (initiation sid_11223344 pkB) pm_S4)).
Proof.
  repeat split; try (vm_compute; reflexivity).
  assert (Hsent : sent (snd (HandlePacket Background order_AB 5 addr_1_2_3_4
                               (initiation sid_11223344 pkB) pm_S4)) = [])
    by (vm_compute; reflexivity).
  rewrite Hsent. apply not_elem_of_nil.
Qed.

(** The Initiation built for pkB is accepted with pkB, an admitted key under
    which its MAC1 verifies. *)
Lemma CheckMAC1AndGetPublicKey_correct_witness :
  CheckMAC1AndGetPublicKey Background order_AB (initiation sid_11223344 pkB) pm_AB
  = inr pkB
  /\ admitted pm_AB pkB /\ mac1_matches pkB (initiation sid_11223344 pkB).
Proof.
  split; [vm_compute; reflexivity|].
  apply (CheckMAC1AndGetPublicKey_correct Background order_AB
           (initiation sid_11223344 pkB) pm_AB).
  - apply pm_AB_reachable.
  - reflexivity.
  - apply order_AB_range.
  - left. reflexivity.
  - vm_compute; reflexivity.
Defined.

(** C3 as stated fails: the sender index 11 22 33 44 was recorded at time
    0 from 1.2.3.4:5000; after an authenticated Initiation with the same
    index from 5.6.7.8:6000 handled at time 100, the entry still has
    [last_seen] 0, not 100 (and the address 1.2.3.4:5000). *)
Lemma Initiation_known_sid_last_seen_not_updated :
  ReceiverToPeerMap pm_initiated !! sid_11223344 = Some 0%nat
  /\ CheckMAC1AndGetPublicKey Background order_AB (initiation sid_11223344 pkB)
       pm_initiated = inr pkB
  /\ fst (HandlePacket Background order_AB 100 addr_5_6_7_8
            (initiation sid_11223344 pkB) pm_initiated) = None
  /\ ReceiverToPeerMap (snd (HandlePacket Background order_AB 100 addr_5_6_7_8
                               (initiation sid_11223344 pkB) pm_initiated))
       !! sid_11223344 = Some 0%nat
  /\ Addr (heap (snd (HandlePacket Background order_AB 100 addr_5_6_7_8
                        (initiation sid_11223344 pkB) pm_initiated)) 0%nat)
     = addr_1_2_3_4
  /\ Timestamp (heap (snd (HandlePacket Background order_AB 100 addr_5_6_7_8
                             (initiation sid_11223344 pkB) pm_initiated)) 0%nat)
     <> 100.
Proof.
  repeat split; try (vm_compute; reflexivity).
  vm_compute. discriminate.
Qed.

(** A second Initiation with the index 11 22 33 44, from another address and
    at a later time, leaves the entry as it was. *)
Lemma Initiation_known_sid_entry_unchanged_witness :
  ReceiverToPeerMap (snd (HandlePacket Background order_AB 100 addr_5_6_7_8
                            (initiation sid_11223344 pkB) pm_initiated))
    !! slice (initiation sid_11223344 pkB) 4 8 = Some 0%nat
  /\ Addr (heap (snd (HandlePacket Background order_AB 100 addr_5_6_7_8
                        (initiation sid_11223344 pkB) pm_initiated)) 0%nat)
     = Addr (heap pm_initiated 0%nat)
  /\ Timestamp (heap (snd (HandlePacket Background order_AB 100 addr_5_6_7_8
                             (initiation sid_11223344 pkB) pm_initiated)) 0%nat)
     = Timestamp (heap pm_initiated 0%nat).
Proof.
  apply (Initiation_known_sid_entry_unchanged Background order_AB 100 addr_5_6_7_8
           (initiation sid_11223344 pkB) pm_initiated pkB 0%nat).
  - reflexivity.
  - reflexivity.
  - reflexivity.
  - vm_compute; reflexivity.
  - vm_compute; reflexivity.
Defined.

(** C4 as stated fails: the invariant holds of the relay just configured
    and is broken by handling one authenticated Response, which stores an
    endpoint under its sender index while no list of [endpoints_by_pk]
    holds it. *)
Lemma sid_entries_in_pk_lists_not_preserved :
  sid_entries_in_pk_lists pm_AB
  /\ step pm_AB
       (snd (HandlePacket Background order_AB 7 addr_5_6_7_8
               (response sid_55667788 sid_11223344 pkA) pm_AB))
  /\ ~ sid_entries_in_pk_lists
         (snd (HandlePacket Background order_AB 7 addr_5_6_7_8
                 (response sid_55667788 sid_11223344 pkA) pm_AB)).
Proof.
  split; [|split].
  - intros sid pe Hsid.
    assert (Hempty : ReceiverToPeerMap pm_AB = ∅) by (vm_compute; reflexivity).
    rewrite Hempty, lookup_empty in Hsid. discriminate.
  - apply step_HandlePacket, order_AB_range.
  - intros Hinv.
    destruct (Hinv sid_55667788 0%nat) as (pk & peers & Hpk & _);
      [vm_compute; reflexivity|].
    assert (Hempty : PublicKeyToPeersMap
              (snd (HandlePacket Background order_AB 7 addr_5_6_7_8
                      (response sid_55667788 sid_11223344 pkA) pm_AB)) = ∅)
      by (vm_compute; reflexivity).
    rewrite Hempty, lookup_empty in Hpk. discriminate.
Qed.

(** The invariant across the handling of the first Initiation, after which
    [endpoints_by_pk[pkA]] has one endpoint. *)
Lemma step_pk_lists_in_sid_entries_witness :
  pk_lists_in_sid_entries pm_AB
  /\ step pm_AB pm_initiated
  /\ PublicKeyToPeersMap pm_initiated !! pkA = Some [0%nat]
  /\ pk_lists_in_sid_entries pm_initiated.
Proof.
  assert (Hinv : pk_lists_in_sid_entries pm_AB)
    by apply NewPeerManager_pk_lists_in_sid_entries.
  assert (Hstep : step pm_AB pm_initiated)
    by apply step_HandlePacket, order_AB_range.
  split; [exact Hinv|]. split; [exact Hstep|].
  split; [vm_compute; reflexivity|].
  exact (step_pk_lists_in_sid_entries pm_AB pm_initiated Hinv Hstep).
Defined.

(** The first Initiation, authenticated as pkB (one partner, pkA): the new
    endpoint is under its sender index and in [endpoints_by_pk[pkA]]. *)
Lemma Initiation_new_sid_recorded_witness :
  ReceiverToPeerMap pm_initiated !! slice (initiation sid_11223344 pkB) 4 8
  = Some (next_loc pm_AB)
  /\ heap pm_initiated (next_loc pm_AB) = {| Addr := addr_1_2_3_4; Timestamp := 0 |}
  /\ PublicKeyToPeersMap pm_initiated !! pkA = Some [next_loc pm_AB].
Proof.
  destruct (Initiation_new_sid_recorded Background order_AB 0 addr_1_2_3_4
              (initiation sid_11223344 pkB) pm_AB pkB)
    with (pm' := pm_initiated) as (Hsid & Hheap & Hone & _).
  - apply pm_AB_reachable.
  - reflexivity.
  - reflexivity.
  - reflexivity.
  - vm_compute; reflexivity.
  - vm_compute; reflexivity.
  - reflexivity.
  - split; [exact Hsid|]. split; [exact Hheap|].
    vm_compute; reflexivity.
Defined.

(** Initiation from 1.2.3.4:5000, then the Response to it from 5.6.7.8:6000:
    the Response goes to 1.2.3.4:5000. *)
Lemma Initiation_then_Response_round_trip_witness :
  exists pe : loc,
    ReceiverToPeerMap pm_initiated !! slice (initiation sid_11223344 pkB) 4 8 = Some pe
    /\ Addr (heap pm_initiated pe) = addr_1_2_3_4
    /\ sent (snd (HandlePacket Background order_AB 7 addr_5_6_7_8
                    (response sid_55667788 sid_11223344 pkA) pm_initiated))
       = sent pm_initiated
         ++ [(Addr (heap pm_initiated pe), response sid_55667788 sid_11223344 pkA)]
    /\ fst (HandlePacket Background order_AB 7 addr_5_6_7_8
              (response sid_55667788 sid_11223344 pkA) pm_initiated) = None.
Proof.
  destruct (Initiation_then_Response_round_trip Background order_AB order_AB 0 7
              addr_1_2_3_4 addr_5_6_7_8 (initiation sid_11223344 pkB)
              (response sid_55667788 sid_11223344 pkA) pkB pkA pm_AB pm_initiated)
    as (pe & Hpe & Hnew & _ & Hsent & Hok).
  - apply pm_AB_reachable.
  - reflexivity.
  - reflexivity.
  - reflexivity.
  - vm_compute; reflexivity.
  - reflexivity.
  - reflexivity.
  - reflexivity.
  - vm_compute; reflexivity.
  - reflexivity.
  - exists pe. split; [exact Hpe|]. split; [apply Hnew; vm_compute; reflexivity|].
    split; [exact Hsent|]. apply Hok. reflexivity.
Defined.

(** Scenario S1 is rejected as invalid. *)
Lemma HandlePacket_InvalidPacket_iff_witness :
  invalid_packet packet_S1
  /\ is_InvalidPacket
       (fst (HandlePacket Background order_AB 0 addr_1_2_3_4 packet_S1 pm_AB)) = true.
Proof.
  assert (Hinv : invalid_packet packet_S1).
  { left. repeat split; discriminate. }
  split; [exact Hinv|].
  apply (HandlePacket_InvalidPacket_iff Background order_AB 0 addr_1_2_3_4
           packet_S1 pm_AB); [reflexivity|exact Hinv].
Defined.

(** Scenario S2 on a relay that has a session: the table is unchanged. *)
Lemma HandlePacket_rejected_no_mutation_witness :
  is_InvalidPacket
    (fst (HandlePacket Background order_AB 0 addr_1_2_3_4 packet_S2 pm_initiated)) = true
  /\ ReceiverToPeerMap
       (snd (HandlePacket Background order_AB 0 addr_1_2_3_4 packet_S2 pm_initiated))
     = ReceiverToPeerMap pm_initiated.
Proof.
  assert (Hrej : is_InvalidPacket
            (fst (HandlePacket Background order_AB 0 addr_1_2_3_4 packet_S2
                    pm_initiated)) = true) by (vm_compute; reflexivity).
  split; [exact Hrej|].
  apply (HandlePacket_rejected_no_mutation Background order_AB 0 addr_1_2_3_4
           packet_S2 pm_initiated). left. exact Hrej.
Defined.

(** An endpoint seen at time 0 with a TTL of 180 s: swept at 200 s, kept at
    100 s. *)
Lemma CleanupPeers_sweeps_witness :
  0 < peerExpiration pm_initiated
  /\ expired pm_initiated 200000000000 0%nat
  /\ PublicKeyToPeersMap (snd (CleanupPeers 200000000000 pm_initiated)) !! pkA = None
  /\ ~ expired (snd (CleanupPeers 100000000000 pm_initiated)) 100000000000 0%nat.
Proof.
  assert (Hpos : 0 < peerExpiration pm_initiated) by (vm_compute; reflexivity).
  assert (Hexp : expired pm_initiated 200000000000 0%nat)
    by (vm_compute; discriminate).
  split; [exact Hpos|]. split; [exact Hexp|]. split.
  - destruct (proj2 (CleanupPeers_sweeps 200000000000 pm_initiated) Hpos)
      as (_ & _ & _ & _ & Hgone).
    apply (Hgone pkA [0%nat]); [vm_compute; reflexivity|].
    intros pe Hin. apply list_elem_of_singleton in Hin as ->. exact Hexp.
  - destruct (proj2 (CleanupPeers_sweeps 100000000000 pm_initiated) Hpos)
      as (_ & _ & Hsid & _).
    apply (Hsid sid_11223344 0%nat). vm_compute; reflexivity.
Defined.

(** After the first Initiation pkA and pkB still have partners. *)
Lemma reachable_admitted_keys_paired_witness :
  admitted_keys_paired pm_initiated
  /\ is_PeerNotFound
       (fst (AddPeerByPublicKey Background 9 addr_5_6_7_8 sid_55667788 pkA
               pm_initiated)) = false.
Proof.
  destruct (reachable_admitted_keys_paired pm_initiated pm_initiated_reachable)
    as [Hpaired Hfound].
  split; [exact Hpaired|].
  apply (Hfound Background order_AB (response sid_55667788 sid_11223344 pkA) pkA).
  vm_compute; reflexivity.
Defined.

(** ** The further properties on concrete runs *)

Lemma order_AB_range_initiated : range_order order_AB (PublicKeyToMac1KeyMap pm_initiated).
Proof. unfold range_order. vm_compute. apply perm_swap. Qed.

Lemma pm_responded_reachable : reachable pm_responded.
Proof.
  eapply reachable_step; [apply pm_initiated_reachable|].
  apply step_HandlePacket, order_AB_range_initiated.
Qed.

(** The relay after the handshake of the scenarios: the partner lists have
    no key twice and are symmetric. *)
Lemma partners_NoDup_symmetric_witness :
  (forall pk ps, PublicKeyToPairPublicKeysMap pm_responded !! pk = Some ps -> NoDup ps)
  /\ (forall a b, b ∈ partners pm_responded a <-> a ∈ partners pm_responded b).
Proof. apply (partners_NoDup_symmetric pm_responded), pm_responded_reachable. Defined.

(** The relay after the handshake holds admitted keys only. *)
Lemma only_admitted_keys_in_table_witness :
  (forall pk, is_Some (PublicKeyToPairPublicKeysMap pm_responded !! pk) ->
     admitted pm_responded pk)
  /\ (forall a b, b ∈ partners pm_responded a -> admitted pm_responded b)
  /\ (forall pk, is_Some (PublicKeyToPeersMap pm_responded !! pk) ->
        admitted pm_responded pk).
Proof. apply (only_admitted_keys_in_table pm_responded), pm_responded_reachable. Defined.

(** The Response of scenario S5 leaves the endpoint of the initiator as it
    was. *)
Lemma referenced_endpoint_never_modified_witness :
  Addr (heap pm_responded 0%nat) = Addr (heap pm_initiated 0%nat)
  /\ Timestamp (heap pm_responded 0%nat) = Timestamp (heap pm_initiated 0%nat).
Proof.
  apply (referenced_endpoint_never_modified pm_initiated pm_responded 0%nat).
  - apply pm_initiated_reachable.
  - apply step_HandlePacket, order_AB_range_initiated.
  - left. exists sid_11223344. vm_compute; reflexivity.
Defined.

(** The list under pkA after the Initiation. *)
Lemma PublicKeyToPeers_distinct_addresses_witness :
  NoDup (addr_string pm_initiated <$> [0%nat]).
Proof.
  apply (PublicKeyToPeers_distinct_addresses pm_initiated pkA [0%nat]).
  - apply pm_initiated_reachable.
  - vm_compute; reflexivity.
Defined.

(** A Transport Data message for the index of the initiator goes to
    1.2.3.4:5000. *)
Lemma Type3or4_forwarded_witness :
  sent (snd (HandlePacket Background order_AB 9 addr_5_6_7_8 (transport sid_11223344)
               pm_initiated))
  = sent pm_initiated ++ [(Addr (heap pm_initiated 0%nat), transport sid_11223344)]
  /\ fst (HandlePacket Background order_AB 9 addr_5_6_7_8 (transport sid_11223344)
            pm_initiated)
     = send_error (SendPacket (packetSender pm_initiated) (sent pm_initiated)
                     (Addr (heap pm_initiated 0%nat)) (transport sid_11223344))
  /\ table_unchanged pm_initiated
       (snd (HandlePacket Background order_AB 9 addr_5_6_7_8 (transport sid_11223344)
               pm_initiated)).
Proof.
  apply (Type3or4_forwarded Background order_AB 9 addr_5_6_7_8 (transport sid_11223344)
           pm_initiated 0%nat).
  - reflexivity.
  - right. split; [reflexivity|vm_compute; lia].
  - vm_compute; reflexivity.
Defined.

(** Scenario S6: the Cookie Reply for an unknown index. *)
Lemma Type3or4_unknown_receiver_witness :
  HandlePacket Background order_AB 0 addr_1_2_3_4 packet_S6 pm_AB
  = (Some (ErrPeerNotFound
             ("no peer found for receiver ID: " +:+ hex (slice packet_S6 4 8))), pm_AB).
Proof.
  apply (Type3or4_unknown_receiver Background order_AB 0 addr_1_2_3_4 packet_S6 pm_AB).
  - reflexivity.
  - left. split; [reflexivity|vm_compute; reflexivity].
  - vm_compute; reflexivity.
Defined.

(** A Response to the relay that has seen no Initiation. *)
Lemma Response_unknown_receiver_records_sender_witness :
  is_PeerNotFound
    (fst (HandlePacket Background order_AB 7 addr_5_6_7_8
            (response sid_55667788 sid_11223344 pkA) pm_AB)) = true
  /\ sent (snd (HandlePacket Background order_AB 7 addr_5_6_7_8
                  (response sid_55667788 sid_11223344 pkA) pm_AB)) = sent pm_AB
  /\ ReceiverToPeerMap (snd (HandlePacket Background order_AB 7 addr_5_6_7_8
                               (response sid_55667788 sid_11223344 pkA) pm_AB))
     = <[slice (response sid_55667788 sid_11223344 pkA) 4 8 := next_loc pm_AB]>
         (ReceiverToPeerMap pm_AB)
  /\ heap (snd (HandlePacket Background order_AB 7 addr_5_6_7_8
                  (response sid_55667788 sid_11223344 pkA) pm_AB)) (next_loc pm_AB)
     = {| Addr := addr_5_6_7_8; Timestamp := 7 |}
  /\ PublicKeyToPeersMap (snd (HandlePacket Background order_AB 7 addr_5_6_7_8
                                 (response sid_55667788 sid_11223344 pkA) pm_AB))
     = PublicKeyToPeersMap pm_AB.
Proof.
  apply (Response_unknown_receiver_records_sender Background order_AB 7 addr_5_6_7_8
           (response sid_55667788 sid_11223344 pkA) pm_AB pkA).
  - reflexivity.
  - vm_compute; reflexivity.
  - reflexivity.
  - vm_compute; reflexivity.
  - vm_compute; reflexivity.
  - vm_compute; reflexivity.
  - vm_compute; discriminate.
Defined.

(** A Response whose receiver index is its own sender index. *)
Lemma Response_to_own_index_reflected_witness :
  sent (snd (HandlePacket Background order_AB 7 addr_5_6_7_8
               (response sid_55667788 sid_55667788 pkA) pm_AB))
  = sent pm_AB ++ [(addr_5_6_7_8, response sid_55667788 sid_55667788 pkA)].
Proof.
  apply (Response_to_own_index_reflected Background order_AB 7 addr_5_6_7_8
           (response sid_55667788 sid_55667788 pkA) pm_AB pkA).
  - reflexivity.
  - vm_compute; reflexivity.
  - reflexivity.
  - vm_compute; reflexivity.
  - vm_compute; reflexivity.
  - vm_compute; reflexivity.
Defined.

(** An Initiation authenticated as pkA, after the one authenticated as
    pkB. *)
Lemma Initiation_broadcast_witness :
  exists n,
    (n <= length (endpoints
                    (snd (HandlePacket Background order_AB 7 addr_5_6_7_8
                            (initiation sid_55667788 pkA) pm_initiated)) pkA))%nat
    /\ sent (snd (HandlePacket Background order_AB 7 addr_5_6_7_8
                    (initiation sid_55667788 pkA) pm_initiated))
       = sent pm_initiated
         ++ datagrams_to
              (snd (HandlePacket Background order_AB 7 addr_5_6_7_8
                      (initiation sid_55667788 pkA) pm_initiated))
              (take n (endpoints
                         (snd (HandlePacket Background order_AB 7 addr_5_6_7_8
                                 (initiation sid_55667788 pkA) pm_initiated)) pkA))
              (initiation sid_55667788 pkA)
    /\ (fst (HandlePacket Background order_AB 7 addr_5_6_7_8
               (initiation sid_55667788 pkA) pm_initiated) = None ->
        n = length (endpoints
                      (snd (HandlePacket Background order_AB 7 addr_5_6_7_8
                              (initiation sid_55667788 pkA) pm_initiated)) pkA))
    /\ (forall e,
          fst (HandlePacket Background order_AB 7 addr_5_6_7_8
                 (initiation sid_55667788 pkA) pm_initiated) = Some e ->
          exists cause, e = ErrPacketSendFailed cause)
    /\ (sender_reliable (packetSender pm_initiated) ->
        fst (HandlePacket Background order_AB 7 addr_5_6_7_8
               (initiation sid_55667788 pkA) pm_initiated) = None).
Proof.
  apply (Initiation_broadcast Background order_AB 7 addr_5_6_7_8
           (initiation sid_55667788 pkA) pm_initiated pkA
           (snd (HandlePacket Background order_AB 7 addr_5_6_7_8
                   (initiation sid_55667788 pkA) pm_initiated))).
  - apply pm_initiated_reachable.
  - reflexivity.
  - vm_compute; reflexivity.
  - reflexivity.
  - vm_compute; reflexivity.
  - reflexivity.
Defined.

(** The Initiation built for pkB: pkA is visited first and does not
    match. *)
Lemma CheckMAC1AndGetPublicKey_first_match_witness :
  exists pre post, order_AB = pre ++ pkB :: post
    /\ forall pk', pk' ∈ pre -> admitted pm_AB pk' ->
         ~ mac1_matches pk' (initiation sid_11223344 pkB).
Proof.
  apply (CheckMAC1AndGetPublicKey_first_match Background order_AB
           (initiation sid_11223344 pkB) pm_AB pkB).
  - apply pm_AB_reachable.
  - left. vm_compute; reflexivity.
  - vm_compute; reflexivity.
Defined.

Lemma admitted_pm_AB pk : admitted pm_AB pk -> pk = pkA \/ pk = pkB.
Proof.
  unfold pm_AB, NewPeerManager. rewrite NewPeerManager_admitted_fold.
  intros [[k Hk]|(p & Hin & Hp)].
  - cbn in Hk. by rewrite lookup_empty in Hk.
  - apply list_elem_of_singleton in Hin as ->. cbn in Hp. destruct Hp as [<-|<-]; auto.
Qed.

(** MAC1 of the Initiation built for pkB verifies under pkB only. *)
Lemma CheckMAC1AndGetPublicKey_unique_match_witness :
  CheckMAC1AndGetPublicKey Background order_AB (initiation sid_11223344 pkB) pm_AB
  = inr pkB.
Proof.
  apply (CheckMAC1AndGetPublicKey_unique_match Background order_AB
           (initiation sid_11223344 pkB) pm_AB pkB).
  - apply pm_AB_reachable.
  - reflexivity.
  - apply order_AB_range.
  - left. vm_compute; reflexivity.
  - unfold admitted. vm_compute. eexists; reflexivity.
  - vm_compute; reflexivity.
  - intros pk' Hadm Hmatch. destruct (admitted_pm_AB pk' Hadm) as [-> | ->]; [|reflexivity].
    vm_compute in Hmatch. discriminate.
Defined.

(** The Initiation built for pkB, with its MAC2 replaced. *)
Lemma CheckMAC1AndGetPublicKey_ignores_mac2_witness :
  CheckMAC1AndGetPublicKey Background order_AB (initiation sid_11223344 pkB) pm_AB
  = CheckMAC1AndGetPublicKey Background order_AB
      (take 132 (initiation sid_11223344 pkB) ++ replicate 16 xff) pm_AB.
Proof.
  apply (CheckMAC1AndGetPublicKey_ignores_mac2 Background order_AB pm_AB
           (initiation sid_11223344 pkB)
           (take 132 (initiation sid_11223344 pkB) ++ replicate 16 xff)).
  - vm_compute; lia.
  - vm_compute; reflexivity.
  - vm_compute; reflexivity.
Defined.

(** A sweep three minutes after the Initiation, which the Response
    followed after 7 ns. *)
Lemma CleanupPeers_keeps_fresh_witness :
  (forall sid pe, ReceiverToPeerMap pm_responded !! sid = Some pe ->
     ~ expired pm_responded 180000000005 pe ->
     ReceiverToPeerMap (snd (CleanupPeers 180000000005 pm_responded)) !! sid = Some pe)
  /\ (forall pk peers, PublicKeyToPeersMap pm_responded !! pk = Some peers ->
        PublicKeyToPeersMap (snd (CleanupPeers 180000000005 pm_responded)) !! pk
        = match List.filter (fresh_enough pm_responded 180000000005) peers with
          | [] => None
          | remaining => Some remaining
          end)
  /\ (forall pk, PublicKeyToPeersMap pm_responded !! pk = None ->
        PublicKeyToPeersMap (snd (CleanupPeers 180000000005 pm_responded)) !! pk = None)
  /\ (forall sid, ReceiverToPeerMap pm_responded !! sid = None ->
        ReceiverToPeerMap (snd (CleanupPeers 180000000005 pm_responded)) !! sid = None)
  /\ heap (snd (CleanupPeers 180000000005 pm_responded)) = heap pm_responded
  /\ sent (snd (CleanupPeers 180000000005 pm_responded)) = sent pm_responded.
Proof.
  apply (CleanupPeers_keeps_fresh 180000000005 pm_responded).
  vm_compute; reflexivity.
Defined.

(** The relay built from the sample configuration admits pkA. *)
Lemma configured_keys_admitted_witness :
  length pkA = 32%nat
  /\ exists kp other, kp ∈ keyPairs_AB
       /\ ((base64_DecodeString (Key1 kp) = Some pkA
            /\ base64_DecodeString (Key2 kp) = Some other)
           \/ (base64_DecodeString (Key2 kp) = Some pkA
               /\ base64_DecodeString (Key1 kp) = Some other))
       /\ other ∈ partners
                    (NewPeerManager ok_sender
                       (fst (LoadPublicKeyPairsFromConfig keyPairs_AB)) 180000000000)
                    pkA.
Proof.
  apply (configured_keys_admitted ok_sender keyPairs_AB 180000000000 pkA).
  unfold admitted. vm_compute. eexists; reflexivity.
Defined.

(** Four [Get]s and three [Put]s on a pool of two buffers of four bytes. *)
Lemma BufferPool_run_safe_witness :
  exists bufs bp',
    BufferPool_run [OpGet; OpPut [x01]; OpPut [x02]; OpPut [x03]; OpGet; OpGet; OpGet]
      bp_2_4 = Some (bufs, bp')
    /\ Z.of_nat (length (chan_buf (pool bp'))) <= 2
    /\ (forall b, b ∈ bufs ->
          b = replicate (Z.to_nat 4) x00
          \/ b ∈ put_buffers
                 [OpGet; OpPut [x01]; OpPut [x02]; OpPut [x03]; OpGet; OpGet; OpGet])
    /\ (forall b, b ∈ chan_buf (pool bp') ->
          b ∈ put_buffers
                [OpGet; OpPut [x01]; OpPut [x02]; OpPut [x03]; OpGet; OpGet; OpGet]).
Proof.
  apply (BufferPool_run_safe 2 4 bp_2_4
           [OpGet; OpPut [x01]; OpPut [x02]; OpPut [x03]; OpGet; OpGet; OpGet]).
  - reflexivity.
  - lia.
Defined.

(** Three [Put]s and three [Get]s on a pool of two buffers. *)
Lemma BufferPool_puts_then_gets_witness :
  exists bp',
    BufferPool_run ((OpPut <$> [[x01]; [x02]; [x03]]) ++ replicate 3 OpGet) bp_2_4
    = Some (take 3 (take (Z.to_nat 2) [[x01]; [x02]; [x03]])
              ++ replicate (3 - length (take (Z.to_nat 2) [[x01]; [x02]; [x03]]))
                   (replicate (Z.to_nat 4) x00),
            bp')
    /\ chan_buf (pool bp') = drop 3 (take (Z.to_nat 2) [[x01]; [x02]; [x03]]).
Proof.
  apply (BufferPool_puts_then_gets 2 4 bp_2_4 [[x01]; [x02]; [x03]] 3).
  - reflexivity.
  - lia.
Defined.

(** Three jobs submitted to the pool of one worker. *)
Lemma WorkerPool_queue_capacity_witness :
  maxWorkers wp_1 = Z.max 1 1
  /\ exists t wp',
       WorkerPool_run
         ((fun j => EvSubmit (job_Addr j) (job_Data j)) <$> [job [x01]; job [x02]; job [x03]])
         empty_trace wp_1 = Some (t, wp')
       /\ accepted t = take (Z.to_nat (2 * Z.max 1 1)) [job [x01]; job [x02]; job [x03]]
       /\ dropped t = drop (Z.to_nat (2 * Z.max 1 1)) [job [x01]; job [x02]; job [x03]]
       /\ handled t = [].
Proof.
  apply (WorkerPool_queue_capacity 1 wp_1 [job [x01]; job [x02]; job [x03]]).
  - lia.
  - reflexivity.
Defined.

(** Three submissions, a receive, the shutdown and a receive after it. *)
Lemma WorkerPool_jobs_handled_in_order_witness :
  accepted {| accepted := [job [x01]; job [x02]]; dropped := [job [x03]];
              handled := [job [x01]; job [x02]] |}
  = handled {| accepted := [job [x01]; job [x02]]; dropped := [job [x03]];
               handled := [job [x01]; job [x02]] |}
    ++ chan_buf (jobQueue {| jobQueue := {| chan_buf := []; chan_cap := 2;
                                           chan_closed := true |};
                             maxWorkers := 1 |})
  /\ Z.of_nat (length (chan_buf (jobQueue {| jobQueue := {| chan_buf := []; chan_cap := 2;
                                                           chan_closed := true |};
                                             maxWorkers := 1 |})))
     <= chan_cap (jobQueue wp_1)
  /\ accepted {| accepted := [job [x01]; job [x02]]; dropped := [job [x03]];
                 handled := [job [x01]; job [x02]] |}
       ++ dropped {| accepted := [job [x01]; job [x02]]; dropped := [job [x03]];
                     handled := [job [x01]; job [x02]] |}
     ≡ₚ submitted [EvSubmit addr_1_2_3_4 [x01]; EvSubmit addr_1_2_3_4 [x02];
                   EvSubmit addr_1_2_3_4 [x03]; EvReceive; EvClose; EvReceive].
Proof.
  apply (WorkerPool_jobs_handled_in_order 1 wp_1
           [EvSubmit addr_1_2_3_4 [x01]; EvSubmit addr_1_2_3_4 [x02];
            EvSubmit addr_1_2_3_4 [x03]; EvReceive; EvClose; EvReceive]).
  - reflexivity.
  - reflexivity.
Defined.

(** A submission after the shutdown panics. *)
Lemma WorkerPool_run_panics_iff_witness :
  WorkerPool_run [EvClose; EvSubmit addr_1_2_3_4 [x01]] empty_trace wp_1 = None
  <-> exists pre post ev,
        [EvClose; EvSubmit addr_1_2_3_4 [x01]] = pre ++ EvClose :: post
        /\ ev ∈ post /\ ev <> EvReceive.
Proof.
  apply (WorkerPool_run_panics_iff 1 wp_1 [EvClose; EvSubmit addr_1_2_3_4 [x01]]).
  reflexivity.
Defined.

(** The sample process: the level of the flag, the port of the environment
    and the defaults. *)
Lemma LoadConfig_precedence_witness :
  exists b,
    base_Config sample_process = inr b
    /\ ListenAddress (Server sample_config)
       = (if String.eqb (listenAddressFlag (flags sample_process)) ""
          then getEnvString (Getenv sample_process) "WG_KNOT_LISTEN_ADDRESS"
                 (ListenAddress (Server b))
          else listenAddressFlag (flags sample_process))
    /\ Port (Server sample_config)
       = (if portFlag (flags sample_process) =? 0
          then getEnvInt (Getenv sample_process) "WG_KNOT_PORT" (Port (Server b))
          else portFlag (flags sample_process))
    /\ LogLevel (Server sample_config)
       = (if String.eqb (logLevelFlag (flags sample_process)) ""
          then getEnvString (Getenv sample_process) "WG_KNOT_LOG_LEVEL" (LogLevel (Server b))
          else logLevelFlag (flags sample_process))
    /\ PeerExpiration (Server sample_config)
       = (if peerExpirationFlag (flags sample_process) =? 0
          then getEnvDuration (Getenv sample_process) "WG_KNOT_PEER_EXPIRATION"
                 (PeerExpiration (Server b))
          else peerExpirationFlag (flags sample_process))
    /\ PoolSize (BufferPool_ sample_config)
       = (if poolSizeFlag (flags sample_process) =? 0
          then getEnvInt (Getenv sample_process) "WG_KNOT_POOL_SIZE"
                 (PoolSize (BufferPool_ b))
          else poolSizeFlag (flags sample_process))
    /\ BufferSize (BufferPool_ sample_config)
       = (if bufferSizeFlag (flags sample_process) =? 0
          then getEnvInt (Getenv sample_process) "WG_KNOT_BUFFER_SIZE"
                 (BufferSize (BufferPool_ b))
          else bufferSizeFlag (flags sample_process))
    /\ MaxWorkers (WorkerPool_ sample_config)
       = (if maxWorkersFlag (flags sample_process) =? 0
          then getEnvInt (Getenv sample_process) "WG_KNOT_MAX_WORKERS"
                 (MaxWorkers (WorkerPool_ b))
          else maxWorkersFlag (flags sample_process))
    /\ KeyPairs sample_config
       = KeyPairs b
           ++ (if String.eqb (Getenv sample_process "WG_KNOT_KEY_PAIRS") "" then []
               else env_key_pairs (Getenv sample_process "WG_KNOT_KEY_PAIRS")).
Proof.
  apply (LoadConfig_precedence sample_process sample_config).
  reflexivity.
Defined.
